(** * MassNet wallet persistence layer: storage abstraction and keystore codec

    A shallow embedding of
      - [masswallet/db/db.go]       (package [db]: prefix ranges, transaction
                                     helpers, DB driver registry),
      - the [storage] package       (prefix ranges, storage driver registry,
                                     version stamp),
      - [masswallet/keystore/db.go] (package [keystore]: binary codec of the
                                     keystore records over a [db.Bucket]),
      - the [limits] package        (the limit on open files),
    followed by the properties established about them.

    Conventions.  A Go [byte] is a [Byte.byte]; a [uint32] is a [Z] reduced
    modulo [2^32] wherever the source computes in that type; a Go [int]
    (length) is an unbounded [Z].  A run-time panic of the Go program is an
    explicit outcome of the model. *)

From Stdlib Require Import ZArith Lia List Bool.
From Stdlib Require Import Strings.Byte Strings.String.
From stdpp Require Import base option list gmap strings pretty sorting.

Local Open Scope Z_scope.
Local Open Scope list_scope.

(** ** Bytes *)

Abbreviation byte := Byte.byte.

#[global] Instance byte_eq_dec : EqDecision byte := Byte.byte_eq_dec.
#[global] Instance byte_countable : Countable byte :=
  inj_countable Byte.to_N Byte.of_N Byte.of_to_N.

(** The numeric value of a byte, and the conversion [byte(z)] of Go, which
    keeps the low eight bits. *)
Definition byte_to_Z (b : byte) : Z := Z.of_N (Byte.to_N b).

Definition byte_of_Z (z : Z) : byte :=
  match Byte.of_N (Z.to_N (z mod 256)) with
  | Some b => b
  | None => Byte.x00
  end.

(** [bytes.Compare]: lexicographic order on byte strings. *)
Fixpoint bytes_compare (a b : list byte) : comparison :=
  match a, b with
  | [], [] => Eq
  | [], _ :: _ => Lt
  | _ :: _, [] => Gt
  | x :: a', y :: b' =>
      match byte_to_Z x ?= byte_to_Z y with
      | Eq => bytes_compare a' b'
      | c => c
      end
  end.

Definition bytes_le (a b : list byte) : Prop := bytes_compare a b <> Gt.
Definition bytes_lt (a b : list byte) : Prop := bytes_compare a b = Lt.

(** ** Outcomes

    A Go function either returns or panics. *)
Inductive outcome (A : Type) : Type :=
| Return (a : A)
| Panic.
Arguments Return {A} a.
Arguments Panic {A}.

Definition bind {A B : Type} (m : outcome A) (f : A -> outcome B) : outcome B :=
  match m with
  | Return a => f a
  | Panic => Panic
  end.

Notation "'do' x <- m ; k" := (bind m (fun x => k))
  (at level 10, x name, m at level 100, k at level 200).

(** ** Byte slices

    A [[]byte] value is nil or a window on a backing array: its [len]
    elements, followed by the bytes of the array up to its capacity, which a
    slice expression may reach but indexing may not. *)
Inductive goslice : Type :=
| Nil
| Slice (elems spare : list byte).

Definition elems (s : goslice) : list byte :=
  match s with
  | Nil => []
  | Slice e _ => e
  end.

Definition backing (s : goslice) : list byte :=
  match s with
  | Nil => []
  | Slice e sp => e ++ sp
  end.

Definition is_nil (s : goslice) : bool :=
  match s with
  | Nil => true
  | Slice _ _ => false
  end.

Definition len (s : goslice) : Z := Z.of_nat (length (elems s)).
Definition cap (s : goslice) : Z := Z.of_nat (length (backing s)).

(** [s[lo:hi]]: panics unless [0 <= lo <= hi <= cap(s)]. *)
Definition reslice (s : goslice) (lo hi : Z) : outcome goslice :=
  if (0 <=? lo) && (lo <=? hi) && (hi <=? cap s) then
    match s with
    | Nil => Return Nil
    | Slice _ _ =>
        Return (Slice (take (Z.to_nat (hi - lo)) (drop (Z.to_nat lo) (backing s)))
                      (drop (Z.to_nat hi) (backing s)))
    end
  else Panic.

(** [s[i]]: panics unless [0 <= i < len(s)]. *)
Definition index (s : goslice) (i : Z) : outcome byte :=
  if (0 <=? i) && (i <? len s) then
    match elems s !! Z.to_nat i with
    | Some b => Return b
    | None => Panic
    end
  else Panic.

(** [make([]byte, n)] *)
Definition make (n : Z) : goslice := Slice (repeat Byte.x00 (Z.to_nat n)) [].

(** [copy(dst, src)]: the elements of [dst] afterwards. *)
Definition copy (dst src : list byte) : list byte :=
  let n := Nat.min (length dst) (length src) in
  take n src ++ drop n dst.

(** A slice made by the running function (capacity equal to length) is a
    plain list; writing through one of its sub-slices updates it in place. *)
Definition buf_in_bounds (buf : list byte) (lo hi : Z) : bool :=
  (0 <=? lo) && (lo <=? hi) && (hi <=? Z.of_nat (length buf)).

(** [buf[i] = x] *)
Definition buf_set (buf : list byte) (i : Z) (x : byte) : outcome (list byte) :=
  if (0 <=? i) && (i <? Z.of_nat (length buf))
  then Return (<[Z.to_nat i := x]> buf)
  else Panic.

(** [copy(buf[lo:hi], src)] *)
Definition buf_copy (buf : list byte) (lo hi : Z) (src : list byte) : outcome (list byte) :=
  if buf_in_bounds buf lo hi then
    let n := Nat.min (Z.to_nat (hi - lo)) (length src) in
    Return (take (Z.to_nat lo) buf ++ take n src ++ drop (Z.to_nat lo + n) buf)
  else Panic.

(** Arithmetic in [uint32] wraps around. *)
Definition uint32 (z : Z) : Z := z mod 2 ^ 32.

(** ** [encoding/binary], little endian *)

Module LittleEndian.

(** [Uint32(b)] reads [b[3]] first and so panics on fewer than four bytes. *)
Definition Uint32 (b : goslice) : outcome Z :=
  match elems b with
  | b0 :: b1 :: b2 :: b3 :: _ =>
      Return (Z.lor (Z.lor (Z.lor (byte_to_Z b0) (Z.shiftl (byte_to_Z b1) 8))
                           (Z.shiftl (byte_to_Z b2) 16))
                    (Z.shiftl (byte_to_Z b3) 24))
  | _ => Panic
  end.

(** The four bytes [PutUint32] stores. *)
Definition bytes_of_uint32 (v : Z) : list byte :=
  [byte_of_Z v; byte_of_Z (Z.shiftr v 8); byte_of_Z (Z.shiftr v 16);
   byte_of_Z (Z.shiftr v 24)].

(** [PutUint32(buf[lo:hi], v)] on a local buffer. *)
Definition buf_PutUint32 (buf : list byte) (lo hi : Z) (v : Z) : outcome (list byte) :=
  if buf_in_bounds buf lo hi then
    if hi - lo <? 4 then Panic
    else Return (take (Z.to_nat lo) buf ++ bytes_of_uint32 v
                 ++ drop (Z.to_nat lo + 4) buf)
  else Panic.

End LittleEndian.

(** ** Errors

    A Go [error] is either one of the package-level variables declared with
    [errors.New] (compared by identity, hence carrying the qualified name of
    the variable) or a value built on the spot by [errors.New] or
    [fmt.Errorf], which is determined by its text. *)
Inductive error : Type :=
| ErrVar (name : string) (msg : string)
| ErrorsNew (msg : string).

(** The [Error()] method. *)
Definition Error (e : error) : string :=
  match e with
  | ErrVar _ msg => msg
  | ErrorsNew msg => msg
  end.

(** ** [fmt] verbs *)

Definition hex_digit (n : Z) : string :=
  match n with
  | 0 => "0" | 1 => "1" | 2 => "2" | 3 => "3" | 4 => "4" | 5 => "5" | 6 => "6"
  | 7 => "7" | 8 => "8" | 9 => "9" | 10 => "a" | 11 => "b" | 12 => "c"
  | 13 => "d" | 14 => "e" | _ => "f"
  end.

(** [%x] of a byte slice: two lower-case digits per byte. *)
Fixpoint fmt_x (b : list byte) : string :=
  match b with
  | [] => ""
  | c :: r => hex_digit (byte_to_Z c / 16) +:+ hex_digit (byte_to_Z c mod 16) +:+ fmt_x r
  end.

(** [%d] of an integer. *)
Definition fmt_d (z : Z) : string := pretty z.

(** [%d] of a byte slice: [[1 2 3]]. *)
Definition fmt_d_bytes (b : list byte) : string :=
  "[" +:+ String.concat " " (map (fun c => fmt_d (byte_to_Z c)) b) +:+ "]".

(** [fmt.Errorf(prefix + "%v", err)] *)
Definition Errorf_v (prefix : string) (err : error) : error :=
  ErrorsNew (prefix +:+ Error err).

(** ** Package [db] *)

Module db.

Definition ErrFileExist : error := ErrVar "db.ErrFileExist" "file exist".
Definition ErrFileNotExist : error := ErrVar "db.ErrFileNotExist" "file not exist".
Definition ErrBucketExist : error := ErrVar "db.ErrBucketExist" "bucket already exist".
Definition ErrBucketNotFound : error := ErrVar "db.ErrBucketNotFound" "bucket not found".
Definition ErrInvalidBucketName : error := ErrVar "db.ErrInvalidBucketName" "invalid bucket name".
Definition ErrIllegalKey : error := ErrVar "db.ErrIllegalKey" "illegal key".
Definition ErrIllegalValue : error := ErrVar "db.ErrIllegalValue" "illegal value".
Definition ErrNotSupported : error := ErrVar "db.ErrNotSupported" "not supported".
Definition ErrIllegalBucketPath : error := ErrVar "db.ErrIllegalBucketPath" "illegal bucket path".
Definition ErrInvalidArgument : error := ErrVar "db.ErrInvalidArgument" "invalid argument".
Definition ErrWriteNotAllowed : error := ErrVar "db.ErrWriteNotAllowed" "write not allowed".
Definition ErrDbUnknownType : error := ErrVar "db.ErrDbUnknownType" "unknownt db type".
Definition ErrOpenDBFailed : error := ErrVar "db.ErrOpenDBFailed" "open db failed".
Definition ErrCreateDBFailed : error := ErrVar "db.ErrCreateDBFailed" "create db failed".

(** [type Range struct { Start, Limit []byte }]; a nil [Limit] is [None]. *)
Record Range := { Start : list byte; Limit : option (list byte) }.

(** The loop of [BytesPrefix]: [n] is [i+1], so the loop variable runs over
    [n-1, ..., 0].  At the first byte below [0xff] the limit is a fresh
    slice of [i+1] bytes, filled from [prefix], with its last byte
    incremented. *)
Fixpoint BytesPrefix_loop (prefix : list byte) (n : nat) : option (list byte) :=
  match n with
  | O => None
  | S i =>
      match prefix !! i with
      | Some c =>
          if byte_to_Z c <? 255
          then Some (<[i := byte_of_Z (byte_to_Z c + 1)]> (take (S i) prefix))
          else BytesPrefix_loop prefix i
      | None => None
      end
  end.

Definition BytesPrefix (prefix : list byte) : Range :=
  {| Start := prefix; Limit := BytesPrefix_loop prefix (length prefix) |}.

(** Membership of a key in the half-open range [[Start, Limit)]. *)
Definition in_range (r : Range) (k : list byte) : Prop :=
  bytes_le (Start r) k /\
  match Limit r with
  | None => True
  | Some l => bytes_lt k l
  end.

(** *** The [Bucket] interface

    The methods that package [keystore] calls.  [Get] returns nil when the
    key is not found. *)
Record Entry := { Key : goslice; Value : goslice }.

Class Bucket (B : Type) := {
  Put : B -> goslice -> goslice -> option error * B;
  Delete : B -> goslice -> option error * B;
  Get : B -> goslice -> goslice * option error;
  GetByPrefix : B -> goslice -> list Entry * option error
}.

(** The contract of a key space, as far as [Put] and [Get] go: a non-empty
    value stored without error under a key is what [Get] then returns for
    that key, and the other keys keep what [Get] returned for them. *)
Class LawfulBucket (B : Type) `{Bucket B} : Prop := {
  Get_Put_same : forall (b b' : B) (k v : goslice),
    Put b k v = (None, b') -> 0 < len v ->
    exists spare, Get b' k = (Slice (elems v) spare, None);
  Get_Put_other : forall (b b' : B) (k v k' : goslice),
    Put b k v = (None, b') -> elems k' <> elems k -> Get b' k' = Get b k'
}.

(** *** Transaction helpers

    [View] and [Update] only sequence calls to the methods of the [DB] and
    transaction interfaces and to the body [f].  They are embedded as
    programs over those calls; an implementation of the interfaces (and a
    body) is a handler answering each call while threading its own state. *)
Section Transactions.
Variables DBTransaction ReadTransaction : Type.

(** A call, indexed by the type of what it returns.  [BeginTx] and
    [BeginReadTx] return Go's pair [(tx, err)]. *)
Inductive call : Type -> Type :=
| BeginTx : call (DBTransaction * option error)
| BeginReadTx : call (ReadTransaction * option error)
| Commit (tx : DBTransaction) : call (option error)
| Rollback (tx : DBTransaction) : call (option error)
| ReadRollback (tx : ReadTransaction) : call (option error)
| UpdateBody (tx : DBTransaction) : call (option error)
| ViewBody (tx : ReadTransaction) : call (option error).

Inductive prog (R : Type) : Type :=
| Ret (r : R)
| Call {X : Type} (c : call X) (k : X -> prog R).
Arguments Ret {R} r.
Arguments Call {R X} c k.

(** [func View(db DB, f func(tx ReadTransaction) error) error]: the
    deferred [tx.Rollback()] runs once [f] has returned, and its result
    is dropped. *)
Definition View : prog (option error) :=
  Call BeginReadTx (fun '(tx, err) =>
    match err with
    | Some e => Ret (Some e)
    | None =>
        Call (ViewBody tx) (fun r =>
          Call (ReadRollback tx) (fun _ => Ret r))
    end).

(** [func Update(db DB, f func(tx DBTransaction) error) error] *)
Definition Update : prog (option error) :=
  Call BeginTx (fun '(tx, err) =>
    match err with
    | Some e => Ret (Some e)
    | None =>
        Call (UpdateBody tx) (fun err =>
          match err with
          | Some e => Call (Rollback tx) (fun _ => Ret (Some e))
          | None => Call (Commit tx) (fun r => Ret r)
          end)
    end).

(** What an observer of the interfaces sees of a call. *)
Inductive event : Type :=
| EvBeginTx
| EvBeginReadTx
| EvCommit (tx : DBTransaction)
| EvRollback (tx : DBTransaction)
| EvReadRollback (tx : ReadTransaction)
| EvUpdateBody (tx : DBTransaction)
| EvViewBody (tx : ReadTransaction).

Definition event_of {X} (c : call X) : event :=
  match c with
  | BeginTx => EvBeginTx
  | BeginReadTx => EvBeginReadTx
  | Commit tx => EvCommit tx
  | Rollback tx => EvRollback tx
  | ReadRollback tx => EvReadRollback tx
  | UpdateBody tx => EvUpdateBody tx
  | ViewBody tx => EvViewBody tx
  end.

(** An implementation with state [W]. *)
Definition handler (W : Type) : Type := forall X, call X -> W -> X * W.

(** Running a program: the result, the final state, and the calls made,
    in order. *)
Fixpoint run {W R} (h : handler W) (p : prog R) (w : W) : R * W * list event :=
  match p with
  | Ret r => (r, w, [])
  | Call c k =>
      let '(x, w1) := h _ c w in
      let '(r, w2, evs) := run h (k x) w1 in
      (r, w2, event_of c :: evs)
  end.

Definition is_commit (e : event) : bool :=
  match e with EvCommit _ => true | _ => false end.
Definition is_rollback (e : event) : bool :=
  match e with EvRollback _ => true | _ => false end.
Definition is_body (e : event) : bool :=
  match e with EvUpdateBody _ => true | _ => false end.

Definition count (p : event -> bool) (evs : list event) : nat :=
  length (filter (fun e => p e = true) evs).

(** An implementation whose calls, the body included, may panic instead of
    returning; the state is the one the call left behind. *)
Definition panicking (W : Type) : Type := forall X, call X -> W -> outcome X * W.

(** Running a program that defers no call and recovers from no panic, as
    [Update] does: the panic of a call ends the run and is the outcome of the
    program.  ([View] defers its [Rollback] and is not run this way.) *)
Fixpoint run_undeferred {W R} (h : panicking W) (p : prog R) (w : W)
  : outcome R * W * list event :=
  match p with
  | Ret r => (Return r, w, [])
  | Call c k =>
      match h _ c w with
      | (Return x, w1) =>
          let '(r, w2, evs) := run_undeferred h (k x) w1 in
          (r, w2, event_of c :: evs)
      | (Panic, w1) => (Panic, w1, [event_of c])
      end
  end.
End Transactions.

Arguments Ret {DBTransaction ReadTransaction R} r.
Arguments Call {DBTransaction ReadTransaction R X} c k.
Arguments BeginTx {DBTransaction ReadTransaction}.
Arguments BeginReadTx {DBTransaction ReadTransaction}.
Arguments Commit {DBTransaction ReadTransaction} tx.
Arguments Rollback {DBTransaction ReadTransaction} tx.
Arguments ReadRollback {DBTransaction ReadTransaction} tx.
Arguments UpdateBody {DBTransaction ReadTransaction} tx.
Arguments ViewBody {DBTransaction ReadTransaction} tx.
Arguments EvBeginTx {DBTransaction ReadTransaction}.
Arguments EvBeginReadTx {DBTransaction ReadTransaction}.
Arguments EvCommit {DBTransaction ReadTransaction} tx.
Arguments EvRollback {DBTransaction ReadTransaction} tx.
Arguments EvReadRollback {DBTransaction ReadTransaction} tx.
Arguments EvUpdateBody {DBTransaction ReadTransaction} tx.
Arguments EvViewBody {DBTransaction ReadTransaction} tx.
Arguments run {DBTransaction ReadTransaction W R} h p w.
Arguments count {DBTransaction ReadTransaction} p evs.
Arguments is_commit {DBTransaction ReadTransaction} e.
Arguments is_rollback {DBTransaction ReadTransaction} e.
Arguments is_body {DBTransaction ReadTransaction} e.
Arguments run_undeferred {DBTransaction ReadTransaction W R} h p w.

(** *** Driver registry

    The package variable [drivers] is threaded explicitly.  A constructor
    of a driver acts on the outside world [W] and returns Go's pair
    [(DB, error)]. *)
Section Registry.
Variables W DB Arg : Type.

Definition constructor : Type := list Arg -> W -> (option DB * option error) * W.

Record DBDriver := {
  Type_ : string;
  OpenDB_ : constructor;
  CreateDB_ : constructor
}.

(** The loop of [RegisterDriver], which returns at a driver of the same
    type; [true] when it ran to its end. *)
Fixpoint RegisterDriver_loop (drivers : list DBDriver) (ins : DBDriver) : bool :=
  match drivers with
  | [] => true
  | driver :: rest =>
      if String.eqb (Type_ driver) (Type_ ins) then false
      else RegisterDriver_loop rest ins
  end.

Definition RegisterDriver (ins : DBDriver) (drivers : list DBDriver) : list DBDriver :=
  if RegisterDriver_loop drivers ins then drivers ++ [ins] else drivers.

Fixpoint RegisteredDbTypes_loop (drivers : list DBDriver) (types : list string) : list string :=
  match drivers with
  | [] => types
  | drv :: rest => RegisteredDbTypes_loop rest (types ++ [Type_ drv])
  end.

Definition RegisteredDbTypes (drivers : list DBDriver) : list string :=
  RegisteredDbTypes_loop drivers [].

Fixpoint CreateDB (drivers : list DBDriver) (dbtype : string) (args : list Arg) (w : W)
  : (option DB * option error) * W :=
  match drivers with
  | [] => ((None, Some ErrDbUnknownType), w)
  | driver :: rest =>
      if String.eqb (Type_ driver) dbtype then CreateDB_ driver args w
      else CreateDB rest dbtype args w
  end.

Fixpoint OpenDB (drivers : list DBDriver) (dbtype : string) (args : list Arg) (w : W)
  : (option DB * option error) * W :=
  match drivers with
  | [] => ((None, Some ErrDbUnknownType), w)
  | driver :: rest =>
      if String.eqb (Type_ driver) dbtype then OpenDB_ driver args w
      else OpenDB rest dbtype args w
  end.

(** The registry reached from the initial (nil) one by a sequence of
    [RegisterDriver] calls. *)
Definition register_all (calls : list DBDriver) : list DBDriver :=
  fold_left (fun drivers ins => RegisterDriver ins drivers) calls [].
End Registry.

Arguments Type_ {W DB Arg} d.
Arguments OpenDB_ {W DB Arg} d.
Arguments CreateDB_ {W DB Arg} d.
Arguments RegisterDriver {W DB Arg} ins drivers.
Arguments RegisterDriver_loop {W DB Arg} drivers ins.
Arguments RegisteredDbTypes {W DB Arg} drivers.
Arguments RegisteredDbTypes_loop {W DB Arg} drivers types.
Arguments CreateDB {W DB Arg} drivers dbtype args w.
Arguments OpenDB {W DB Arg} drivers dbtype args w.
Arguments register_all {W DB Arg} calls.

End db.


(** ** Package [database]

    Only the error variable that [storage.CheckVersion] returns is used; the
    package itself lies outside these sources. *)

Module database.

Definition ErrDbDoesNotExist : error :=
  ErrVar "database.ErrDbDoesNotExist" "non-existent database".

End database.

(** ** Package [storage] *)

Module storage.

Definition KiB : Z := 1024.
Definition MiB : Z := KiB * 1024.
Definition GiB : Z := MiB * 1024.

(** [CurrentStorageVersion int32 = 1] *)
Definition CurrentStorageVersion : Z := 1.

Definition ErrDbUnknownType : error := ErrVar "storage.ErrDbUnknownType" "non-existent database type".
Definition ErrInvalidKey : error := ErrVar "storage.ErrInvalidKey" "invalid key".
Definition ErrInvalidValue : error := ErrVar "storage.ErrInvalidValue" "invalid value".
Definition ErrInvalidBatch : error := ErrVar "storage.ErrInvalidBatch" "invalid batch".
Definition ErrInvalidArgument : error := ErrVar "storage.ErrInvalidArgument" "invalid argument".
Definition ErrNotFound : error := ErrVar "storage.ErrNotFound" "not found".
Definition ErrVersionCheckFailed : error := ErrVar "storage.ErrVersionCheckFailed" "storage version check failed".

Record Range := { Start : list byte; Limit : option (list byte) }.

Fixpoint BytesPrefix_loop (prefix : list byte) (n : nat) : option (list byte) :=
  match n with
  | O => None
  | S i =>
      match prefix !! i with
      | Some c =>
          if byte_to_Z c <? 255
          then Some (<[i := byte_of_Z (byte_to_Z c + 1)]> (take (S i) prefix))
          else BytesPrefix_loop prefix i
      | None => None
      end
  end.

Definition BytesPrefix (prefix : list byte) : Range :=
  {| Start := prefix; Limit := BytesPrefix_loop prefix (length prefix) |}.

(** The bytes of a possibly nil slice. *)
Definition contents (s : option (list byte)) : list byte :=
  match s with
  | Some l => l
  | None => []
  end.

(** [make([]byte, n)] followed by [copy] from [src]. *)
Definition padded (n : nat) (src : option (list byte)) : list byte :=
  take n (contents src) ++ repeat Byte.x00 (n - length (contents src)).

(** [func (r *Range) IsPrefix() bool]; [bytes.Equal] does not tell a nil
    slice from an empty one. *)
Definition IsPrefix (r : Range) : bool :=
  let pr := BytesPrefix (Start r) in
  let expect := Limit pr in
  let actual := Limit r in
  let le := length (contents expect) in
  let la := length (contents actual) in
  if (le <? la)%nat then bool_decide (padded la (Limit pr) = contents actual)
  else if (la <? le)%nat then bool_decide (contents expect = padded le (Limit r))
  else bool_decide (contents expect = contents actual).

(** *** Driver registry *)
Section Registry.
Variables W Storage Arg : Type.

Definition constructor : Type :=
  string -> list Arg -> W -> (option Storage * option error) * W.

Record StorageDriver := {
  DbType : string;
  CreateStorage_ : constructor;
  OpenStorage_ : constructor
}.

Fixpoint RegisterDriver_loop (drivers : list StorageDriver) (instance : StorageDriver) : bool :=
  match drivers with
  | [] => true
  | drv :: rest =>
      if String.eqb (DbType drv) (DbType instance) then false
      else RegisterDriver_loop rest instance
  end.

Definition RegisterDriver (instance : StorageDriver) (drivers : list StorageDriver)
  : list StorageDriver :=
  if RegisterDriver_loop drivers instance then drivers ++ [instance] else drivers.

(** [CreateStorage]: the call of [CheckVersion] after the driver's
    constructor is commented out in the source. *)
Fixpoint CreateStorage (drivers : list StorageDriver) (dbtype dbpath : string)
  (args : list Arg) (w : W) : (option Storage * option error) * W :=
  match drivers with
  | [] => ((None, Some ErrDbUnknownType), w)
  | drv :: rest =>
      if String.eqb (DbType drv) dbtype then
        let '((s, err), w1) := CreateStorage_ drv dbpath args w in
        match err with
        | Some e => ((None, Some e), w1)
        | None => ((s, err), w1)
        end
      else CreateStorage rest dbtype dbpath args w
  end.

(** [OpenStorage]: the call of [CheckVersion] before the loop is commented
    out in the source. *)
Fixpoint OpenStorage (drivers : list StorageDriver) (dbtype dbpath : string)
  (args : list Arg) (w : W) : (option Storage * option error) * W :=
  match drivers with
  | [] => ((None, Some ErrDbUnknownType), w)
  | drv :: rest =>
      if String.eqb (DbType drv) dbtype then OpenStorage_ drv dbpath args w
      else OpenStorage rest dbtype dbpath args w
  end.

Fixpoint RegisteredDbTypes_loop (drivers : list StorageDriver) (types : list string)
  : list string :=
  match drivers with
  | [] => types
  | drv :: rest => RegisteredDbTypes_loop rest (types ++ [DbType drv])
  end.

Definition RegisteredDbTypes (drivers : list StorageDriver) : list string :=
  RegisteredDbTypes_loop drivers [].

Definition register_all (calls : list StorageDriver) : list StorageDriver :=
  fold_left (fun drivers instance => RegisterDriver instance drivers) calls [].
End Registry.

Arguments DbType {W Storage Arg} s.
Arguments CreateStorage_ {W Storage Arg} s.
Arguments OpenStorage_ {W Storage Arg} s.
Arguments RegisterDriver {W Storage Arg} instance drivers.
Arguments RegisterDriver_loop {W Storage Arg} drivers instance.
Arguments CreateStorage {W Storage Arg} drivers dbtype dbpath args w.
Arguments OpenStorage {W Storage Arg} drivers dbtype dbpath args w.
Arguments RegisteredDbTypes {W Storage Arg} drivers.
Arguments RegisteredDbTypes_loop {W Storage Arg} drivers types.
Arguments register_all {W Storage Arg} calls.

(** *** Version stamp *)

(** [type storageVersion struct { Dbtype string; Version int32 }] *)
Record storageVersion := { Dbtype : string; Version : Z }.

(** The operations of [os], [encoding/binary], [encoding/json] and
    [path/filepath] that [CheckVersion] calls, over a state [W] of the file
    system with file handles [File].  [binary_Read f n] reads into a buffer of
    [n] bytes; [json_Unmarshal] returns the decoded value along with its
    error. *)
Record Env (W File : Type) := {
  filepath_Join : string -> string -> string;
  os_Create : string -> W -> (File * option error) * W;
  os_Open : string -> W -> (File * option error) * W;
  os_IsNotExist : option error -> bool;
  File_Close : File -> W -> W;
  File_Stat_Size : File -> W -> (Z * option error) * W;
  binary_Write : File -> list byte -> W -> option error * W;
  binary_Read : File -> Z -> W -> (list byte * option error) * W;
  json_Marshal : storageVersion -> list byte * option error;
  json_Unmarshal : list byte -> storageVersion * option error
}.
Arguments filepath_Join {W File} e.
Arguments os_Create {W File} e.
Arguments os_Open {W File} e.
Arguments os_IsNotExist {W File} e.
Arguments File_Close {W File} e.
Arguments File_Stat_Size {W File} e.
Arguments binary_Write {W File} e.
Arguments binary_Read {W File} e.
Arguments json_Marshal {W File} e.
Arguments json_Unmarshal {W File} e.

Section Version.
Context {W File : Type} (env : Env W File).

(** [func CheckVersion(dbtype, storPath string, create bool) error].  The
    [fmt.Println] of the source writes to the standard output only and is
    left out; each deferred [Close] runs when the function returns. *)
Definition CheckVersion (dbtype storPath : string) (create : bool) (w : W)
  : option error * W :=
  let verFile := filepath_Join env storPath ".ver" in
  if create then
    let '((fo, err), w1) := os_Create env verFile w in
    match err with
    | Some e => (Some (Errorf_v "create ver file error: " e), w1)
    | None =>
        let '(b, err) :=
          json_Marshal env {| Dbtype := dbtype; Version := CurrentStorageVersion |} in
        match err with
        | Some e => (Some (Errorf_v "marshal failed: " e), File_Close env fo w1)
        | None =>
            let '(r, w2) := binary_Write env fo b w1 in
            (r, File_Close env fo w2)
        end
    end
  else
    let '((fi, err), w1) := os_Open env verFile w in
    if os_IsNotExist env err then (Some database.ErrDbDoesNotExist, w1)
    else
      match err with
      | None =>
          let '((size, err), w2) := File_Stat_Size env fi w1 in
          match err with
          | Some e => (Some e, File_Close env fi w2)
          | None =>
              let '((buf, err), w3) := binary_Read env fi size w2 in
              match err with
              | Some e =>
                  (Some (Errorf_v "read version file error: " e), File_Close env fi w3)
              | None =>
                  let '(ver, err) := json_Unmarshal env buf in
                  match err with
                  | Some e =>
                      (Some (Errorf_v "unmarshal failed: " e), File_Close env fi w3)
                  | None =>
                      if (Version ver =? CurrentStorageVersion)
                         && String.eqb (Dbtype ver) dbtype
                      then (None, File_Close env fi w3)
                      else (Some ErrVersionCheckFailed, File_Close env fi w3)
                  end
              end
          end
      | Some _ => (Some ErrVersionCheckFailed, w1)
      end.
End Version.

End storage.


(** ** Package [keystore] *)

Module keystore.
Import db.

(** [[]byte("...")] *)
Definition key_name (s : string) : goslice := Slice (list_byte_of_string s) [].

Definition keystoreVersionName : goslice := key_name "kver".
Definition masterKMPubKeyName : goslice := key_name "mkmpub".
Definition masterPrivKeyName : goslice := key_name "mpriv".
Definition masterPubKeyName : goslice := key_name "mpub".
Definition cryptoPrivKeyName : goslice := key_name "cpriv".
Definition cryptoPubKeyName : goslice := key_name "cpub".
Definition cryptoEntropyKeyName : goslice := key_name "cent".
Definition entropyEncKeyName : goslice := key_name "ent".
Definition masterHDPrivName : goslice := key_name "mhdpriv".
Definition masterHDPubName : goslice := key_name "mhdpub".
Definition accountUsageName : goslice := key_name "account".
Definition coinTypeName : goslice := key_name "coinType".
Definition remarkName : goslice := key_name "remark".
Definition externalBranchPubKeyName : goslice := key_name "exbPubKey".
Definition internalBranchPubKeyName : goslice := key_name "inbPubKey".
Definition externalChildNumName : goslice := key_name "exChildNum".
Definition internalChildNumName : goslice := key_name "inChildNum".

(** [type accountType uint8], with its one constant. *)
Definition accountType : Type := byte.
Definition accountMASS : accountType := Byte.x00.

Record dbAccountRow := {
  acctType : accountType;
  rawData : goslice
}.

Record dbHDAccountKey := {
  row_ : dbAccountRow;
  pubKeyEncrypted : goslice;
  privKeyEncrypted : goslice
}.

Record pubkeyAndPath := {
  branch : Z;
  index_ : Z;
  pubkeyEnc : goslice
}.

(** [make([]byte, len(val))] then [copy]: a fresh, non-nil slice. *)
Definition clone (val : goslice) : goslice :=
  Slice (copy (elems (make (len val))) (elems val)) [].

Definition uint32ToBytes (number : Z) : outcome goslice :=
  do buf <- LittleEndian.buf_PutUint32 (elems (make 4)) 0 4 number;
  Return (Slice buf []).

(** *** The account row codec *)

Definition deserializeAccountRow (accountID serializedAccount : goslice)
  : outcome (option dbAccountRow * option error) :=
  if len serializedAccount <? 5 then
    Return (None, Some (ErrorsNew ("malformed serialized account for key "
                                   +:+ fmt_x (elems accountID))))
  else
    do t <- index serializedAccount 0;
    do hdr <- reslice serializedAccount 1 5;
    do rdlen <- LittleEndian.Uint32 hdr;
    let rawData := make rdlen in
    do src <- reslice serializedAccount 5 (uint32 (5 + rdlen));
    Return (Some {| acctType := t;
                    rawData := Slice (copy (elems rawData) (elems src)) [] |},
            None).

Definition serializeAccountRow (row : dbAccountRow) : outcome goslice :=
  let rdlen := len (rawData row) in
  let buf := elems (make (5 + rdlen)) in
  do buf <- buf_set buf 0 (acctType row);
  do buf <- LittleEndian.buf_PutUint32 buf 1 5 (uint32 rdlen);
  do buf <- buf_copy buf 5 (5 + rdlen) (elems (rawData row));
  Return (Slice buf []).

Definition deserializeHDAccountKey (accountID : goslice) (row : dbAccountRow)
  : outcome (option dbHDAccountKey * option error) :=
  if len (rawData row) <? 8 then
    Return (None, Some (ErrorsNew ("malformed serialized bip0044 account for key "
                                   +:+ fmt_x (elems accountID))))
  else
    do hdr <- reslice (rawData row) 0 4;
    do pubLen <- LittleEndian.Uint32 hdr;
    let pub := make pubLen in
    do src <- reslice (rawData row) 4 (uint32 (4 + pubLen));
    let pub := Slice (copy (elems pub) (elems src)) [] in
    let offset := uint32 (4 + pubLen) in
    do hdr <- reslice (rawData row) offset (uint32 (offset + 4));
    do privLen <- LittleEndian.Uint32 hdr;
    let offset := uint32 (offset + 4) in
    let priv := make privLen in
    do src <- reslice (rawData row) offset (uint32 (offset + privLen));
    let priv := Slice (copy (elems priv) (elems src)) [] in
    Return (Some {| row_ := row; pubKeyEncrypted := pub; privKeyEncrypted := priv |},
            None).

Definition serializeHDAccountKey (encryptedPubKey encryptedPrivKey : goslice)
  : outcome goslice :=
  let pubLen := uint32 (len encryptedPubKey) in
  let privLen := uint32 (len encryptedPrivKey) in
  let rawData := elems (make (uint32 (uint32 (8 + pubLen) + privLen))) in
  do rawData <- LittleEndian.buf_PutUint32 rawData 0 4 pubLen;
  do rawData <- buf_copy rawData 4 (uint32 (4 + pubLen)) (elems encryptedPubKey);
  let offset := uint32 (4 + pubLen) in
  do rawData <- LittleEndian.buf_PutUint32 rawData offset (uint32 (offset + 4)) privLen;
  let offset := uint32 (offset + 4) in
  do rawData <- buf_copy rawData offset (uint32 (offset + privLen)) (elems encryptedPrivKey);
  Return (Slice rawData []).

(** *** Records in a bucket *)
Section Records.
Context {B : Type} `{!Bucket B}.
Variable KeyScope : Type.

Definition putMasterKeyParams (b : B) (pubParams privParams : goslice)
  : option error * B :=
  let '(r, b1) :=
    if is_nil privParams then (None, b)
    else
      let '(err, b1) := Put b masterPrivKeyName privParams in
      match err with
      | Some e =>
          (Some (Errorf_v "failed to store master private key parameters: " e), b1)
      | None => (None, b1)
      end in
  match r with
  | Some e => (Some e, b1)
  | None =>
      if is_nil pubParams then (None, b1)
      else
        let '(err, b2) := Put b1 masterPubKeyName pubParams in
        match err with
        | Some e =>
            (Some (Errorf_v "failed to store master public key parameters: " e), b2)
        | None => (None, b2)
        end
  end.

Definition fetchMasterKeyParams (b : B) : goslice * goslice * option error :=
  let '(val, err) := Get b masterPubKeyName in
  match err with
  | Some e => (Nil, Nil, Some e)
  | None =>
      if is_nil val then
        (Nil, Nil,
         Some (ErrorsNew "required master public key parameters not stored in database"))
      else
        let pubParams := clone val in
        let '(val, err) := Get b masterPrivKeyName in
        match err with
        | Some e => (Nil, Nil, Some e)
        | None =>
            let privParams := if is_nil val then Nil else clone val in
            (pubParams, privParams, None)
        end
  end.

Definition putVersion (b : B) (version : byte) : option error * B :=
  let buf := Slice [version] [] in
  let '(err, b1) := Put b keystoreVersionName buf in
  match err with
  | Some e => (Some (Errorf_v "failed to store keystore version, " e), b1)
  | None => (None, b1)
  end.

Definition fetchVersion (b : B) : outcome (byte * option error) :=
  let '(val, err) := Get b keystoreVersionName in
  if bool_decide (err <> None) || (len val =? 0) then Return (Byte.x00, err)
  else
    do v <- index val 0;
    Return (v, None).

Definition putEntropy (b : B) (entropyEnc : goslice) : option error * B :=
  let '(err, b1) := Put b entropyEncKeyName entropyEnc in
  match err with
  | Some e => (Some (Errorf_v "failed to store encrypted entropy, " e), b1)
  | None => (None, b1)
  end.

Definition fetchEntropy (b : B) : goslice * option error :=
  let '(val, err) := Get b entropyEncKeyName in
  match err with
  | Some e => (Nil, Some e)
  | None => (val, None)
  end.

(** One of the three optional writes of [putCryptoKeys]. *)
Definition put_if_present (b : B) (name value : goslice) (what : string)
  : option error * B :=
  if is_nil value then (None, b)
  else
    let '(err, b1) := Put b name value in
    match err with
    | Some e => (Some (Errorf_v what e), b1)
    | None => (None, b1)
    end.

Definition putCryptoKeys (b : B)
  (pubKeyEncrypted privKeyEncrypted entropyKeyEncrypted : goslice)
  : option error * B :=
  let '(r, b1) := put_if_present b cryptoPubKeyName pubKeyEncrypted
                    "failed to store encrypted crypto public key: " in
  match r with
  | Some e => (Some e, b1)
  | None =>
      let '(r, b2) := put_if_present b1 cryptoPrivKeyName privKeyEncrypted
                        "failed to store encrypted crypto private key: " in
      match r with
      | Some e => (Some e, b2)
      | None =>
          put_if_present b2 cryptoEntropyKeyName entropyKeyEncrypted
            "failed to store encrypted crypto script key: "
      end
  end.

(** [fetchCryptoKeys]: the errors of the second and third [Get] are assigned
    to [err] and not looked at again. *)
Definition fetchCryptoKeys (b : B) : goslice * goslice * goslice * option error :=
  let '(val, err) := Get b cryptoPubKeyName in
  match err with
  | Some e => (Nil, Nil, Nil, Some e)
  | None =>
      if is_nil val then
        (Nil, Nil, Nil,
         Some (ErrorsNew "required encrypted crypto public not stored in database"))
      else
        let pubKey := clone val in
        let '(val, err) := Get b cryptoPrivKeyName in
        let privKey := if is_nil val then Nil else clone val in
        let '(val, err) := Get b cryptoEntropyKeyName in
        let entropyKey := if is_nil val then Nil else clone val in
        (pubKey, privKey, entropyKey, None)
  end.

(** [fetchAccountUsage]: [val, _ := b.Get(accountUsageName)]. *)
Definition fetchAccountUsage (b : B) : outcome (Z * option error) :=
  let '(val, _) := Get b accountUsageName in
  if is_nil val then
    Return (0, Some (ErrorsNew "required account usage not stored in database"))
  else
    do n <- LittleEndian.Uint32 val;
    Return (n, None).

Definition putAccountUsage (b : B) (account : Z) : outcome (option error * B) :=
  do key <- uint32ToBytes account;
  let '(err, b1) := Put b accountUsageName key in
  match err with
  | Some _ =>
      Return (Some (ErrorsNew ("failed to store account usage " +:+ fmt_d account)), b1)
  | None => Return (None, b1)
  end.

Definition putAccountRow (b : B) (scope : option KeyScope) (accountUsage : Z)
  (accountInfo : dbAccountRow) : outcome (option error * B) :=
  do data <- serializeAccountRow accountInfo;
  do key <- uint32ToBytes accountUsage;
  let '(err, b1) := Put b key data in
  match err with
  | Some _ =>
      Return (Some (ErrorsNew ("failed to store account " +:+ fmt_d accountUsage)), b1)
  | None => Return (None, b1)
  end.

Definition putCoinType (b : B) (coin : Z) : outcome (option error * B) :=
  do v <- uint32ToBytes coin;
  Return (Put b coinTypeName v).

Definition fetchCoinType (b : B) : outcome (Z * option error) :=
  let '(val, err) := Get b coinTypeName in
  match err with
  | Some e => Return (0, Some e)
  | None =>
      if is_nil val then
        Return (0, Some (ErrorsNew "required coin type not stored in database"))
      else
        do n <- LittleEndian.Uint32 val;
        Return (n, None)
  end.

Definition putAccountInfo (b : B) (scope : option KeyScope) (account : Z)
  (encryptedPubKey encryptedPrivKey : goslice) : outcome (option error * B) :=
  do rawData <- serializeHDAccountKey encryptedPubKey encryptedPrivKey;
  do r <- putAccountUsage b account;
  let '(err, b1) := r in
  match err with
  | Some e => Return (Some e, b1)
  | None =>
      let acctRow := {| acctType := accountMASS; rawData := rawData |} in
      do r <- putAccountRow b1 scope account acctRow;
      let '(err, b2) := r in
      match err with
      | Some e => Return (Some e, b2)
      | None => Return (None, b2)
      end
  end.

(** [fetchAccountInfo]: [data, _ := b.Get(accountID)]; the result of type
    [interface{}] holds a [*dbHDAccountKey], [None] when that pointer is nil
    or the interface itself is.  A nil row returned without error would be
    dereferenced. *)
Definition fetchAccountInfo (b : B) (account : Z)
  : outcome (option dbHDAccountKey * option error) :=
  do accountID <- uint32ToBytes account;
  let '(data, _) := Get b accountID in
  if is_nil data then
    Return (None, Some (ErrorsNew ("account " +:+ fmt_d account +:+ " not found")))
  else
    do r <- deserializeAccountRow accountID data;
    match r with
    | (_, Some e) => Return (None, Some e)
    | (None, None) => Panic
    | (Some row, None) =>
        if bool_decide (acctType row = accountMASS)
        then deserializeHDAccountKey accountID row
        else
          Return (None,
                  Some (ErrorsNew ("unsupported account type '"
                                   +:+ fmt_d (byte_to_Z (acctType row)) +:+ "'")))
    end.

Definition putAccountID (b : B) (acctAddr0 : goslice) : option error * B :=
  Put b acctAddr0 (Slice [Byte.x00] []).

Definition fetchAccountID (b : B) : list goslice * option error :=
  let '(entries, err) := GetByPrefix b (Slice [] []) in
  match err with
  | Some e => ([], Some e)
  | None => (map Key entries, None)
  end.

Definition deleteAccountID (b : B) (acctID : goslice) : option error * B :=
  Delete b acctID.

Definition putRemark (b : B) (remark : goslice) : option error * B :=
  Put b remarkName remark.

Definition deleteRemark (b : B) : option error * B :=
  Delete b remarkName.

Definition fetchRemark (b : B) : goslice * option error :=
  let '(remark, err) := Get b remarkName in
  match err with
  | Some e => (Nil, Some e)
  | None => (remark, None)
  end.

Definition putBranchPubKeys (b : B) (encryptedInternalKey encryptedExternalKey : goslice)
  : option error * B :=
  let '(err, b1) := Put b externalBranchPubKeyName encryptedExternalKey in
  match err with
  | Some e => (Some (Errorf_v "failed to store branchKeys: " e), b1)
  | None =>
      let '(err, b2) := Put b1 internalBranchPubKeyName encryptedInternalKey in
      match err with
      | Some e => (Some (Errorf_v "failed to store branchKeys: " e), b2)
      | None => (None, b2)
      end
  end.

Definition fetchBranchPubKeys (b : B) : goslice * goslice * option error :=
  let '(exBrPub, err) := Get b externalBranchPubKeyName in
  match err with
  | Some e => (Nil, Nil, Some e)
  | None =>
      if is_nil exBrPub then
        (Nil, Nil,
         Some (ErrorsNew
           "required encrypted external branch public key not stored in database"))
      else
        let '(inBrPub, err) := Get b internalBranchPubKeyName in
        match err with
        | Some e => (Nil, Nil, Some e)
        | None =>
            if is_nil inBrPub then
              (Nil, Nil,
               Some (ErrorsNew
                 "required encrypted internal branch public key not stored in database"))
            else (inBrPub, exBrPub, None)
        end
  end.

Definition initBranchChildNum (b : B) : outcome (option error * B) :=
  do zero <- uint32ToBytes 0;
  let '(err, b1) := Put b externalChildNumName zero in
  match err with
  | Some e => Return (Some (Errorf_v "failed to init externalChildNumName: " e), b1)
  | None =>
      do zero <- uint32ToBytes 0;
      let '(err, b2) := Put b1 internalChildNumName zero in
      match err with
      | Some e => Return (Some (Errorf_v "failed to init internalChildNumName: " e), b2)
      | None => Return (None, b2)
      end
  end.

Definition updateChildNum (b : B) (internal : bool) (nextIndex : Z)
  : outcome (option error * B) :=
  let key := if internal then internalChildNumName else externalChildNumName in
  do v <- uint32ToBytes nextIndex;
  let '(err, b1) := Put b key v in
  match err with
  | Some e => Return (Some (Errorf_v "failed to update branchChildNum: " e), b1)
  | None => Return (None, b1)
  end.

(** [fetchChildNum] returns the internal counter first. *)
Definition fetchChildNum (b : B) : outcome (Z * Z * option error) :=
  let '(exChildNum, err) := Get b externalChildNumName in
  match err with
  | Some e => Return (0, 0, Some e)
  | None =>
      if is_nil exChildNum then
        Return (0, 0,
                Some (ErrorsNew
                  "required encrypted external branch child number not stored in database"))
      else
        let '(inChildNum, err) := Get b internalChildNumName in
        match err with
        | Some e => Return (0, 0, Some e)
        | None =>
            if is_nil inChildNum then
              Return (0, 0,
                      Some (ErrorsNew
                        "required encrypted internal branch child number not stored in database"))
            else
              do i <- LittleEndian.Uint32 inChildNum;
              do e <- LittleEndian.Uint32 exChildNum;
              Return (i, e, None)
        end
  end.

Definition getChildNum (b : B) (internal : bool) : outcome (Z * option error) :=
  let key := if internal then internalChildNumName else externalChildNumName in
  let '(childNum, err) := Get b key in
  match err with
  | Some e =>
      Return (0, Some (ErrorsNew ("failed to get " +:+ fmt_d_bytes (elems key)
                                  +:+ ": " +:+ Error e)))
  | None =>
      do n <- LittleEndian.Uint32 childNum;
      Return (n, None)
  end.

Definition putEncryptedPubKey (b : B) (branch index : Z) (pubKey : goslice)
  : outcome (option error * B) :=
  let key := elems (make 8) in
  do bb <- uint32ToBytes branch;
  do key <- buf_copy key 0 4 (elems bb);
  do ib <- uint32ToBytes index;
  do key <- buf_copy key 4 8 (elems ib);
  Return (Put b (Slice key []) pubKey).

(** The loop of [fetchEncryptedPubKey]. *)
Fixpoint fetchEncryptedPubKey_loop (entries : list Entry) (pks : list pubkeyAndPath)
  : outcome (list pubkeyAndPath) :=
  match entries with
  | [] => Return pks
  | entry :: rest =>
      let key := Key entry in
      do kb <- reslice key 0 4;
      do br <- LittleEndian.Uint32 kb;
      do ki <- reslice key 4 8;
      do ix <- LittleEndian.Uint32 ki;
      fetchEncryptedPubKey_loop rest
        (pks ++ [{| branch := br; index_ := ix; pubkeyEnc := Value entry |}])
  end.

Definition fetchEncryptedPubKey (b : B) : outcome (list pubkeyAndPath * option error) :=
  let '(entries, err) := GetByPrefix b (Slice [] []) in
  match err with
  | Some e => Return ([], Some e)
  | None =>
      do pks <- fetchEncryptedPubKey_loop entries [];
      Return (pks, None)
  end.
End Records.

End keystore.

(** ** Package [limits] *)

Module limits.

Definition fileLimitWant : Z := 4096.
Definition fileLimitMin : Z := 2048.

(** [syscall.Rlimit] *)
Record Rlimit := { Cur : Z; Max : Z }.

(** The two system calls, for the resource [RLIMIT_NOFILE], over a state [W]
    of the process.  [Getrlimit] returns the struct its argument points to as
    the call left it. *)
Record Sys (W : Type) := {
  Getrlimit : W -> (Rlimit * option error) * W;
  Setrlimit : Rlimit -> W -> option error * W
}.
Arguments Getrlimit {W} s.
Arguments Setrlimit {W} s.

Section SetLimits.
Context {W : Type} (sys : Sys W).

(** [func SetLimits() error] *)
Definition SetLimits (w : W) : option error * W :=
  let '((rLimit, err), w1) := Getrlimit sys w in
  match err with
  | Some e => (Some e, w1)
  | None =>
      if fileLimitWant <? Cur rLimit then (None, w1)
      else if Max rLimit <? fileLimitMin then
        (Some (ErrorsNew ("need at least " +:+ fmt_d fileLimitMin
                          +:+ " file descriptors")), w1)
      else
        let rLimit :=
          if Max rLimit <? fileLimitWant
          then {| Cur := Max rLimit; Max := Max rLimit |}
          else {| Cur := fileLimitWant; Max := Max rLimit |} in
        let '(err, w2) := Setrlimit sys rLimit w1 in
        match err with
        | Some _ =>
            (* try min value *)
            let rLimit := {| Cur := fileLimitMin; Max := Max rLimit |} in
            let '(err, w3) := Setrlimit sys rLimit w2 in
            match err with
            | Some e => (Some e, w3)
            | None => (None, w3)
            end
        | None => (None, w2)
        end
  end.
End SetLimits.

End limits.


(** ** Reference definitions

    Functions the properties are stated with, and small implementations of
    the interfaces on which the code above can be run. *)

#[global] Instance error_eq_dec : EqDecision error.
Proof. solve_decision. Defined.

(** The limit of a prefix range, by recursion on the prefix: the limit of
    the tail when it has one, else the head incremented when it is below
    [0xff]. *)
Fixpoint limit_of (p : list byte) : option (list byte) :=
  match p with
  | [] => None
  | c :: r =>
      match limit_of r with
      | Some l => Some (c :: l)
      | None =>
          if byte_to_Z c <? 255 then Some [byte_of_Z (byte_to_Z c + 1)] else None
      end
  end.

(** The strings of a list in the order of their first occurrence. *)
Fixpoint first_occurrences (seen l : list string) : list string :=
  match l with
  | [] => []
  | x :: r =>
      if bool_decide (x ∈ seen) then first_occurrences seen r
      else x :: first_occurrences (seen ++ [x]) r
  end.

(** The little-endian value of the first four bytes of a list. *)
Definition le32 (l : list byte) : Z :=
  match LittleEndian.Uint32 (Slice l []) with
  | Return z => z
  | Panic => 0
  end.

(** The path and the key that [fetchEncryptedPubKey] reads from an entry:
    the little-endian values of the first and of the second four bytes of the
    array behind its key. *)
Definition path_of_entry (e : db.Entry) : keystore.pubkeyAndPath :=
  {| keystore.branch := le32 (backing (db.Key e));
     keystore.index_ := le32 (drop 4 (backing (db.Key e)));
     keystore.pubkeyEnc := db.Value e |}.

(** An implementation of the system calls of [limits] that also records, in
    order, the requests passed to [Setrlimit]. *)
Definition recording {W : Type} (sys : limits.Sys W)
  : limits.Sys (W * list limits.Rlimit) := {|
  limits.Getrlimit := fun '(w, log) =>
    let '(x, w1) := limits.Getrlimit sys w in (x, (w1, log));
  limits.Setrlimit := fun r '(w, log) =>
    let '(e, w1) := limits.Setrlimit sys r w in (e, (w1, log ++ [r]))
|}.

(** The first element of a registry with a given type identifier, and
    registration stated with it. *)
Section Lookup.
Context {A : Type} (key : A -> string).

Fixpoint lookup_driver (l : list A) (t : string) : option A :=
  match l with
  | [] => None
  | d :: r => if String.eqb (key d) t then Some d else lookup_driver r t
  end.

Definition register (x : A) (l : list A) : list A :=
  match lookup_driver l (key x) with
  | Some _ => l
  | None => l ++ [x]
  end.
End Lookup.

Module mem.

(** Modelled from the spec: a [Bucket] (the drivers that implement the
    interface are outside these sources).  One key space of unique byte
    strings, a finite map; [Put] stores the bytes of the value under the
    bytes of the key; [Get] returns nil when the key is not found;
    [GetByPrefix] returns the entries whose key starts with the prefix, in
    key order.  No operation fails. *)
Definition store_Put (m : gmap (list byte) (list byte)) (key value : goslice)
  : option error * gmap (list byte) (list byte) :=
  (None, <[elems key := elems value]> m).

Definition store_Delete (m : gmap (list byte) (list byte)) (key : goslice)
  : option error * gmap (list byte) (list byte) :=
  (None, delete (elems key) m).

Definition store_Get (m : gmap (list byte) (list byte)) (key : goslice)
  : goslice * option error :=
  match m !! elems key with
  | Some v => (Slice v [], None)
  | None => (Nil, None)
  end.

Definition entry_le (x y : list byte * list byte) : Prop := bytes_le x.1 y.1.

#[global] Instance entry_le_dec (x y : list byte * list byte) : Decision (entry_le x y).
Proof. unfold entry_le, bytes_le. apply _. Defined.

Definition store_GetByPrefix (m : gmap (list byte) (list byte)) (prefix : goslice)
  : list db.Entry * option error :=
  (map (fun e : list byte * list byte =>
          {| db.Key := Slice e.1 []; db.Value := Slice e.2 [] |})
       (merge_sort entry_le
          (filter (fun e : list byte * list byte => elems prefix `prefix_of` e.1)
                  (map_to_list m))),
   None).

#[global] Instance store_Bucket : db.Bucket (gmap (list byte) (list byte)) := {
  db.Put := store_Put;
  db.Delete := store_Delete;
  db.Get := store_Get;
  db.GetByPrefix := store_GetByPrefix
}.

(** The same key space behind a driver that can fail: [get_fault] and
    [put_fault] name the keys on which [Get] and [Put] fail, and with which
    error. *)
Record memBucket := {
  kv : gmap (list byte) (list byte);
  get_fault : gmap (list byte) error;
  put_fault : gmap (list byte) error
}.

Definition healthy (m : gmap (list byte) (list byte)) : memBucket :=
  {| kv := m; get_fault := ∅; put_fault := ∅ |}.

Definition with_kv (b : memBucket) (m : gmap (list byte) (list byte)) : memBucket :=
  {| kv := m; get_fault := get_fault b; put_fault := put_fault b |}.

Definition mem_Put (b : memBucket) (key value : goslice) : option error * memBucket :=
  match put_fault b !! elems key with
  | Some e => (Some e, b)
  | None => (None, with_kv b (store_Put (kv b) key value).2)
  end.

Definition mem_Delete (b : memBucket) (key : goslice) : option error * memBucket :=
  (None, with_kv b (store_Delete (kv b) key).2).

Definition mem_Get (b : memBucket) (key : goslice) : goslice * option error :=
  match get_fault b !! elems key with
  | Some e => (Nil, Some e)
  | None => store_Get (kv b) key
  end.

Definition mem_GetByPrefix (b : memBucket) (prefix : goslice)
  : list db.Entry * option error :=
  store_GetByPrefix (kv b) prefix.

#[global] Instance memBucket_Bucket : db.Bucket memBucket := {
  db.Put := mem_Put;
  db.Delete := mem_Delete;
  db.Get := mem_Get;
  db.GetByPrefix := mem_GetByPrefix
}.

(** A file system with the files [CheckVersion] touches: the content of each
    file by path; a file handle is its path.  The codec stands in for
    [encoding/json]: the version in one byte, then the type. *)
Definition files : Type := gmap string (list byte).

Definition os_ErrNotExist : error := ErrVar "os.ErrNotExist" "file does not exist".
Definition io_ErrUnexpectedEOF : error := ErrVar "io.ErrUnexpectedEOF" "unexpected EOF".

Definition mem_Marshal (v : storage.storageVersion) : list byte * option error :=
  (byte_of_Z (storage.Version v) :: list_byte_of_string (storage.Dbtype v), None).

Definition mem_Unmarshal (buf : list byte) : storage.storageVersion * option error :=
  match buf with
  | [] =>
      ({| storage.Dbtype := ""; storage.Version := 0 |},
       Some (ErrorsNew "unexpected end of JSON input"))
  | v :: t =>
      ({| storage.Dbtype := string_of_list_byte t; storage.Version := byte_to_Z v |},
       None)
  end.

Definition mem_env : storage.Env files string := {|
  storage.filepath_Join := fun a b => a +:+ "/" +:+ b;
  storage.os_Create := fun p w => ((p, None), <[p := []]> w);
  storage.os_Open := fun p w =>
    match w !! p with
    | Some _ => ((p, None), w)
    | None => ((p, Some os_ErrNotExist), w)
    end;
  storage.os_IsNotExist := fun err => bool_decide (err = Some os_ErrNotExist);
  storage.File_Close := fun _ w => w;
  storage.File_Stat_Size := fun f w =>
    match w !! f with
    | Some c => ((Z.of_nat (length c), None), w)
    | None => ((0, Some os_ErrNotExist), w)
    end;
  storage.binary_Write := fun f b w => (None, <[f := b]> w);
  storage.binary_Read := fun f n w =>
    match w !! f with
    | Some c =>
        if Z.of_nat (length c) <? n then ((c, Some io_ErrUnexpectedEOF), w)
        else ((take (Z.to_nat n) c, None), w)
    | None => (([], Some os_ErrNotExist), w)
    end;
  storage.json_Marshal := mem_Marshal;
  storage.json_Unmarshal := mem_Unmarshal
|}.

(** The same key space opened read-only: every write is refused with
    [db.ErrWriteNotAllowed]. *)
Record readonly := { frozen : gmap (list byte) (list byte) }.

#[global] Instance readonly_Bucket : db.Bucket readonly := {
  db.Put := fun b _ _ => (Some db.ErrWriteNotAllowed, b);
  db.Delete := fun b _ => (Some db.ErrWriteNotAllowed, b);
  db.Get := fun b key => store_Get (frozen b) key;
  db.GetByPrefix := fun b prefix => store_GetByPrefix (frozen b) prefix
}.

(** Any bucket, with a log of the error that each [Put] made on it returned,
    in the order of the calls.  The calls are those of the bucket inside. *)
Record recorded (B : Type) := { inner : B; puts : list (option error) }.
Arguments inner {B} r.
Arguments puts {B} r.

#[global] Instance recorded_Bucket {B : Type} `{!db.Bucket B} : db.Bucket (recorded B) := {
  db.Put := fun r key value =>
    let '(e, b) := db.Put (inner r) key value in
    (e, {| inner := b; puts := puts r ++ [e] |});
  db.Delete := fun r key =>
    let '(e, b) := db.Delete (inner r) key in
    (e, {| inner := b; puts := puts r |});
  db.Get := fun r key => db.Get (inner r) key;
  db.GetByPrefix := fun r prefix => db.GetByPrefix (inner r) prefix
}.

(** [res] is the result of a function on a bucket with a log, [plain] its
    result on the bucket inside: both return the same error and leave the
    same bucket, and that error is nil exactly when every [Put] in the log
    returned nil. *)
Definition reports_puts {B : Type} (res : option error * recorded B)
  (plain : option error * B) : Prop :=
  res.1 = plain.1 /\ inner res.2 = plain.2 /\
  (res.1 = None <-> Forall (fun e => e = None) (puts res.2)).

(** The same for a function that can panic: neither run panics. *)
Definition returns_reporting_puts {B : Type}
  (res : outcome (option error * recorded B)) (plain : outcome (option error * B))
  : Prop :=
  match res, plain with
  | Return r, Return p => reports_puts r p
  | _, _ => False
  end.

End mem.


(** Modelled from the spec: a [DB] (the drivers are outside these sources)
    whose write transaction works on a copy of the committed key space, made
    durable by [Commit] and dropped by [Rollback].  The body of an [Update]
    is a function on that copy which returns its error. *)
Module txdb.

Record state := {
  committed : gmap (list byte) (list byte);
  pending : option (gmap (list byte) (list byte))
}.

Definition working (w : state) : gmap (list byte) (list byte) :=
  match pending w with
  | Some m => m
  | None => committed w
  end.

Definition body : Type :=
  gmap (list byte) (list byte) -> gmap (list byte) (list byte) * option error.

Definition handle (f : body) : db.handler unit unit state :=
  fun X (c : db.call unit unit X) (w : state) =>
    match c in db.call _ _ T return T * state with
    | db.BeginTx =>
        ((tt, None), {| committed := committed w; pending := Some (committed w) |})
    | db.BeginReadTx => ((tt, None), w)
    | db.Commit _ => (None, {| committed := working w; pending := None |})
    | db.Rollback _ => (None, {| committed := committed w; pending := None |})
    | db.ReadRollback _ => (None, w)
    | db.UpdateBody _ =>
        let '(m, err) := f (working w) in
        (err, {| committed := committed w; pending := Some m |})
    | db.ViewBody _ => (None, w)
    end.

(** The same [DB] under a body that may panic once it has written to the
    copy. *)
Definition panicking_body : Type :=
  gmap (list byte) (list byte) -> gmap (list byte) (list byte) * outcome (option error).

Definition handle_panicking (f : panicking_body) : db.panicking unit unit state :=
  fun X (c : db.call unit unit X) (w : state) =>
    match c in db.call _ _ T return outcome T * state with
    | db.BeginTx =>
        (Return (tt, None), {| committed := committed w; pending := Some (committed w) |})
    | db.BeginReadTx => (Return (tt, None), w)
    | db.Commit _ => (Return None, {| committed := working w; pending := None |})
    | db.Rollback _ => (Return None, {| committed := committed w; pending := None |})
    | db.ReadRollback _ => (Return None, w)
    | db.UpdateBody _ =>
        let '(m, r) := f (working w) in
        (r, {| committed := committed w; pending := Some m |})
    | db.ViewBody _ => (Return None, w)
    end.

End txdb.

(** Drivers to run the registries on: their handles are numbers, their
    constructors take no argument and leave the file system as it is. *)
Module sample.

Definition bolt : db.DBDriver mem.files nat unit := {|
  db.Type_ := "bolt";
  db.OpenDB_ := fun _ w => ((Some 1%nat, None), w);
  db.CreateDB_ := fun _ w => ((Some 1%nat, None), w)
|}.

Definition bolt_again : db.DBDriver mem.files nat unit := {|
  db.Type_ := "bolt";
  db.OpenDB_ := fun _ w => ((Some 2%nat, None), w);
  db.CreateDB_ := fun _ w => ((Some 2%nat, None), w)
|}.

Definition leveldb : storage.StorageDriver mem.files nat unit := {|
  storage.DbType := "leveldb";
  storage.CreateStorage_ := fun _ _ w => ((Some 1%nat, None), w);
  storage.OpenStorage_ := fun _ _ w => ((Some 1%nat, None), w)
|}.

Definition leveldb_again : storage.StorageDriver mem.files nat unit := {|
  storage.DbType := "leveldb";
  storage.CreateStorage_ := fun _ _ w => ((Some 2%nat, None), w);
  storage.OpenStorage_ := fun _ _ w => ((Some 2%nat, None), w)
|}.

(** A driver whose constructors return a handle along with an error. *)
Definition halfopen : storage.StorageDriver mem.files nat unit := {|
  storage.DbType := "halfopen";
  storage.CreateStorage_ := fun _ _ w => ((Some 3%nat, Some (ErrorsNew "disk full")), w);
  storage.OpenStorage_ := fun _ _ w => ((Some 3%nat, Some (ErrorsNew "disk full")), w)
|}.

(** Buckets.  [key0] is the key of account number 0. *)
Definition key0 : list byte := [Byte.x00; Byte.x00; Byte.x00; Byte.x00].

Definition io_error : error := ErrorsNew "read failed: input/output error".

(** Account 0 stored as the single byte [0x01]. *)
Definition short_row_bucket : mem.memBucket :=
  mem.healthy {[ key0 := [Byte.x01] ]}.

(** Account 0 stored as a row of type [0x01] with empty raw data. *)
Definition foreign_row_bucket : mem.memBucket :=
  mem.healthy {[ key0 := [Byte.x01; Byte.x00; Byte.x00; Byte.x00; Byte.x00] ]}.

(** All three crypto keys stored; reading the private and the entropy key
    fails. *)
Definition crypto_bucket : mem.memBucket := {|
  mem.kv := {[ list_byte_of_string "cpub" := [Byte.xaa];
               list_byte_of_string "cpriv" := [Byte.xbb];
               list_byte_of_string "cent" := [Byte.xcc] ]};
  mem.get_fault := {[ list_byte_of_string "cpriv" := io_error;
                      list_byte_of_string "cent" := io_error ]};
  mem.put_fault := ∅
|}.

(** The master key parameters stored; reading the private ones fails. *)
Definition master_bucket : mem.memBucket := {|
  mem.kv := {[ list_byte_of_string "mpub" := [Byte.xaa];
               list_byte_of_string "mpriv" := [Byte.xbb] ]};
  mem.get_fault := {[ list_byte_of_string "mpriv" := io_error ]};
  mem.put_fault := ∅
|}.

(** The account usage counter and account 0 stored; reading either fails. *)
Definition account_bucket : mem.memBucket := {|
  mem.kv := {[ list_byte_of_string "account" := [Byte.x03; Byte.x00; Byte.x00; Byte.x00];
               key0 := [Byte.x00; Byte.x00; Byte.x00; Byte.x00; Byte.x00] ]};
  mem.get_fault := {[ list_byte_of_string "account" := io_error; key0 := io_error ]};
  mem.put_fault := ∅
|}.

(** The keystore version stored as [0x02]. *)
Definition versioned_bucket : mem.memBucket :=
  mem.healthy {[ list_byte_of_string "kver" := [Byte.x02] ]}.

(** The keystore version stored; reading it fails. *)
Definition unreadable_version_bucket : mem.memBucket := {|
  mem.kv := {[ list_byte_of_string "kver" := [Byte.x02] ]};
  mem.get_fault := {[ list_byte_of_string "kver" := io_error ]};
  mem.put_fault := ∅
|}.

(** The key space after [initBranchChildNum], and after the internal
    counter was then set to 5. *)
Definition zeroed_counters : gmap (list byte) (list byte) :=
  <[elems keystore.internalChildNumName := LittleEndian.bytes_of_uint32 0]>
    (<[elems keystore.externalChildNumName := LittleEndian.bytes_of_uint32 0]> ∅).

Definition internal_five : gmap (list byte) (list byte) :=
  <[elems keystore.internalChildNumName := LittleEndian.bytes_of_uint32 5]>
    zeroed_counters.

(** A serialized account row of type [0x07] with raw data [0xaa 0xbb],
    followed by one more byte, in a backing array with one byte to spare. *)
Definition padded_row : goslice :=
  Slice [Byte.x07; Byte.x02; Byte.x00; Byte.x00; Byte.x00; Byte.xaa; Byte.xbb; Byte.xee]
        [Byte.xdd].

(** Raw data holding the public key [0x01 0x02] and the private key [0x09],
    followed by one more byte. *)
Definition padded_key_row : keystore.dbAccountRow := {|
  keystore.acctType := keystore.accountMASS;
  keystore.rawData :=
    Slice [Byte.x02; Byte.x00; Byte.x00; Byte.x00; Byte.x01; Byte.x02;
           Byte.x01; Byte.x00; Byte.x00; Byte.x00; Byte.x09; Byte.xee] []
|}.

(** The file system after a storage root [/data] was stamped for the type
    [other]. *)
Definition stamped_other : mem.files :=
  snd (storage.CheckVersion mem.mem_env "other" "/data" true ∅).

(** A row of type [0x07] that declares three bytes of raw data: the slice
    holds the first, its backing array the two others. *)
Definition spare_row : goslice :=
  Slice [Byte.x07; Byte.x03; Byte.x00; Byte.x00; Byte.x00; Byte.xaa] [Byte.xbb; Byte.xcc].

(** Account 0 stored as a row that declares three bytes of raw data and
    holds one. *)
Definition truncated_row : list byte :=
  [Byte.x00; Byte.x03; Byte.x00; Byte.x00; Byte.x00; Byte.xaa].

Definition truncated_row_bucket : mem.memBucket :=
  mem.healthy {[ key0 := truncated_row ]}.

(** Raw data declaring the public key [0x01 0x02] and a private key of one
    byte, which lies past the length of the slice, in its backing array; and
    the same raw data without that byte. *)
Definition spare_key_row : keystore.dbAccountRow := {|
  keystore.acctType := keystore.accountMASS;
  keystore.rawData :=
    Slice [Byte.x02; Byte.x00; Byte.x00; Byte.x00; Byte.x01; Byte.x02;
           Byte.x01; Byte.x00; Byte.x00; Byte.x00] [Byte.x09]
|}.

Definition truncated_key_row : keystore.dbAccountRow := {|
  keystore.acctType := keystore.accountMASS;
  keystore.rawData :=
    Slice [Byte.x02; Byte.x00; Byte.x00; Byte.x00; Byte.x01; Byte.x02;
           Byte.x01; Byte.x00; Byte.x00; Byte.x00] []
|}.

(** The key of the address at branch 0, index 5, and a key space holding
    its encrypted public key [0xaa]. *)
Definition path_0_5 : list byte :=
  [Byte.x00; Byte.x00; Byte.x00; Byte.x00; Byte.x05; Byte.x00; Byte.x00; Byte.x00].

Definition address_keys : gmap (list byte) (list byte) := {[ path_0_5 := [Byte.xaa] ]}.

(** A key space in which the coin type, the account usage and the external
    child number are stored as a single byte. *)
Definition short_counter_bucket : mem.memBucket :=
  mem.healthy {[ list_byte_of_string "coinType" := [Byte.x01];
                 list_byte_of_string "account" := [Byte.x01];
                 list_byte_of_string "exChildNum" := [Byte.x01];
                 list_byte_of_string "inChildNum" := key0 ]}.

(** An empty key space opened read-only. *)
Definition frozen_bucket : mem.readonly := {| mem.frozen := ∅ |}.

(** An empty key space on which the internal branch public key cannot be
    written. *)
Definition internal_branch_key_unwritable : mem.memBucket := {|
  mem.kv := ∅;
  mem.get_fault := ∅;
  mem.put_fault := {[ list_byte_of_string "inbPubKey" := io_error ]}
|}.

(** The same bucket with an empty log of its [Put]s. *)
Definition logged_unwritable : mem.recorded mem.memBucket :=
  {| mem.inner := internal_branch_key_unwritable; mem.puts := [] |}.

(** A body of [Update] that stores the keystore version [0x01] and then
    panics. *)
Definition writes_then_panics : txdb.panicking_body :=
  fun m => (<[elems keystore.keystoreVersionName := [Byte.x01]]> m, Panic).

End sample.


(** * Properties *)

(** ** Bytes and their order *)

Lemma byte_to_Z_range (b : byte) : 0 <= byte_to_Z b < 256.
Proof.
  unfold byte_to_Z. pose proof (Byte.to_N_bounded b). lia.
Qed.

Lemma byte_of_to_Z (b : byte) : byte_of_Z (byte_to_Z b) = b.
Proof.
  pose proof (byte_to_Z_range b) as Hb.
  unfold byte_of_Z. rewrite Z.mod_small by exact Hb.
  unfold byte_to_Z. rewrite N2Z.id. now rewrite Byte.of_to_N.
Qed.

Lemma byte_to_of_Z (z : Z) : byte_to_Z (byte_of_Z z) = z mod 256.
Proof.
  pose proof (Z.mod_pos_bound z 256 eq_refl) as Hz.
  unfold byte_of_Z.
  destruct (Byte.of_N (Z.to_N (z mod 256))) as [b|] eqn:E.
  - apply Byte.to_of_N in E. unfold byte_to_Z. rewrite E. lia.
  - exfalso.
    pose proof (Byte.to_of_N_option_map (Z.to_N (z mod 256))) as H.
    rewrite E in H. simpl in H.
    destruct (N.leb_spec (Z.to_N (z mod 256)) 255); [discriminate | lia].
Qed.

Lemma byte_to_Z_inj (a b : byte) : byte_to_Z a = byte_to_Z b -> a = b.
Proof.
  intros H. rewrite <- (byte_of_to_Z a), <- (byte_of_to_Z b). now rewrite H.
Qed.

Lemma bytes_compare_refl (a : list byte) : bytes_compare a a = Eq.
Proof.
  induction a as [|x a IH]; simpl; [reflexivity|].
  now rewrite Z.compare_refl.
Qed.

Lemma bytes_compare_nil_l (k : list byte) : bytes_compare [] k <> Gt.
Proof. destruct k; simpl; discriminate. Qed.

(** ** [BytesPrefix] *)

Module BytesPrefixTheory.
Import db.

Lemma limit_of_snoc (l : list byte) (c : byte) :
  limit_of (l ++ [c]) =
  if byte_to_Z c <? 255 then Some (l ++ [byte_of_Z (byte_to_Z c + 1)]) else limit_of l.
Proof.
  induction l as [|x l IH]; simpl.
  - destruct (byte_to_Z c <? 255); reflexivity.
  - rewrite IH. destruct (byte_to_Z c <? 255); reflexivity.
Qed.

Lemma insert_snoc (l : list byte) (c x : byte) :
  <[length l := x]> (l ++ [c]) = l ++ [x].
Proof.
  induction l as [|y l IH]; simpl; [reflexivity | now rewrite IH].
Qed.

Lemma BytesPrefix_loop_take (prefix : list byte) (n : nat) :
  (n <= length prefix)%nat ->
  BytesPrefix_loop prefix n = limit_of (take n prefix).
Proof.
  induction n as [|i IH]; intros Hn; simpl BytesPrefix_loop.
  - now rewrite take_0.
  - destruct (lookup_lt_is_Some_2 prefix i) as [c Hc]; [lia|].
    rewrite Hc, (take_S_r _ _ _ Hc), limit_of_snoc.
    destruct (byte_to_Z c <? 255).
    + f_equal.
      assert (Hlen : i = length (take i prefix)) by (rewrite length_take; lia).
      rewrite Hlen at 1. apply insert_snoc.
    + apply IH. lia.
Qed.

Lemma BytesPrefix_Limit (prefix : list byte) :
  Limit (BytesPrefix prefix) = limit_of prefix.
Proof.
  unfold BytesPrefix; simpl.
  rewrite BytesPrefix_loop_take by lia. now rewrite firstn_all.
Qed.

Lemma storage_BytesPrefix_loop_same (prefix : list byte) (n : nat) :
  storage.BytesPrefix_loop prefix n = BytesPrefix_loop prefix n.
Proof.
  induction n as [|i IH]; simpl; [reflexivity|].
  destruct (prefix !! i) as [c|]; [|reflexivity].
  destruct (byte_to_Z c <? 255); [reflexivity | exact IH].
Qed.

Lemma limit_of_all_ff (n : nat) : limit_of (repeat Byte.xff n) = None.
Proof. induction n as [|n IH]; simpl; [reflexivity | now rewrite IH]. Qed.

Lemma limit_of_last_below (a : list byte) (c : byte) (n : nat) :
  byte_to_Z c < 255 ->
  limit_of (a ++ c :: repeat Byte.xff n) = Some (a ++ [byte_of_Z (byte_to_Z c + 1)]).
Proof.
  intros Hc. induction a as [|x a IH]; simpl.
  - rewrite limit_of_all_ff.
    destruct (Z.ltb_spec (byte_to_Z c) 255); [reflexivity | lia].
  - now rewrite IH.
Qed.

Lemma prefix_cons_same (c : byte) (r k : list byte) :
  c :: r `prefix_of` c :: k <-> r `prefix_of` k.
Proof.
  split; [apply prefix_cons_inv_2 | apply prefix_cons].
Qed.

Lemma prefix_iff_in_range (p k : list byte) :
  p `prefix_of` k <->
  bytes_le p k /\ match limit_of p with None => True | Some l => bytes_lt k l end.
Proof.
  revert k. induction p as [|c r IH]; intros k.
  - simpl. split.
    + intros _. split; [apply bytes_compare_nil_l | exact I].
    + intros _. apply prefix_nil.
  - destruct k as [|x k'].
    + split.
      * intros H. apply prefix_nil_not in H. contradiction.
      * intros [H _]. exfalso. apply H. reflexivity.
    + pose proof (byte_to_Z_range c) as Hc.
      pose proof (byte_to_Z_range x) as Hx.
      unfold bytes_le, bytes_lt in *. simpl bytes_compare.
      destruct (Z.compare_spec (byte_to_Z c) (byte_to_Z x)) as [E|L|G].
      * apply byte_to_Z_inj in E. subst x.
        rewrite (prefix_cons_same c r k'), IH. simpl limit_of.
        destruct (limit_of r) as [l|].
        -- simpl. now rewrite Z.compare_refl.
        -- destruct (Z.ltb_spec (byte_to_Z c) 255) as [Hlt|Hge].
           ++ simpl. rewrite byte_to_of_Z, Z.mod_small by lia.
              assert (Hcmp : (byte_to_Z c ?= byte_to_Z c + 1) = Lt)
                by (apply Z.compare_lt_iff; lia).
              rewrite Hcmp. tauto.
           ++ tauto.
      * split.
        -- intros H. apply prefix_cons_inv_1 in H. subst x. lia.
        -- intros [_ H]. exfalso. simpl limit_of in H.
           destruct (limit_of r) as [l|].
           ++ simpl in H.
              assert (Hcmp : (byte_to_Z x ?= byte_to_Z c) = Gt)
                by (apply Z.compare_gt_iff; lia).
              rewrite Hcmp in H. discriminate.
           ++ destruct (Z.ltb_spec (byte_to_Z c) 255) as [Hlt|Hge]; [|lia].
              simpl in H. rewrite byte_to_of_Z, Z.mod_small in H by lia.
              destruct (Z.compare_spec (byte_to_Z x) (byte_to_Z c + 1));
                try discriminate; try lia.
              destruct k'; discriminate.
      * split.
        -- intros H. apply prefix_cons_inv_1 in H. subst x. lia.
        -- intros [H _]. exfalso. apply H. reflexivity.
Qed.

(** C1.  [BytesPrefix(P)] has [Start = P]; a key lies in the half-open range
    [[Start, Limit)] (no upper bound when [Limit] is nil) exactly when it
    starts with [P]; the limit is nil for the empty prefix and for a prefix
    of [0xff] bytes only; otherwise it is [P] cut after its last byte below
    [0xff], that byte incremented.  The [BytesPrefix] of package [storage]
    returns the same range as the one of package [db]. *)
Theorem BytesPrefix_covers_exactly_prefix :
  (forall P : list byte, Start (BytesPrefix P) = P) /\
  (forall P K : list byte,
     P `prefix_of` K <->
     bytes_le (Start (BytesPrefix P)) K /\
     (Limit (BytesPrefix P) = None \/
      exists l, Limit (BytesPrefix P) = Some l /\ bytes_lt K l)) /\
  (forall P K : list byte, P `prefix_of` K <-> in_range (BytesPrefix P) K) /\
  Limit (BytesPrefix []) = None /\
  (forall n : nat, Limit (BytesPrefix (repeat Byte.xff n)) = None) /\
  (forall (a : list byte) (c : byte) (n : nat),
     byte_to_Z c < 255 ->
     Limit (BytesPrefix (a ++ c :: repeat Byte.xff n)) =
     Some (a ++ [byte_of_Z (byte_to_Z c + 1)]) /\
     byte_to_Z (byte_of_Z (byte_to_Z c + 1)) = byte_to_Z c + 1) /\
  (forall P : list byte,
     storage.Start (storage.BytesPrefix P) = Start (BytesPrefix P) /\
     storage.Limit (storage.BytesPrefix P) = Limit (BytesPrefix P)).
Proof.
  assert (Hin : forall P K : list byte, P `prefix_of` K <-> in_range (BytesPrefix P) K).
  { intros P K. unfold in_range. rewrite BytesPrefix_Limit. apply prefix_iff_in_range. }
  split; [reflexivity|].
  split.
  { intros P K. rewrite (Hin P K). unfold in_range.
    destruct (Limit (BytesPrefix P)) as [l|].
    - split.
      + intros [H1 H2]. split; [exact H1 | right; now exists l].
      + intros [H1 [H2 | (l' & H2 & H3)]]; [discriminate|].
        injection H2 as <-. now split.
    - split.
      + intros [H1 _]. split; [exact H1 | now left].
      + intros [H1 _]. now split. }
  split; [exact Hin|].
  split; [reflexivity|].
  split.
  { intros n. rewrite BytesPrefix_Limit. apply limit_of_all_ff. }
  split.
  { intros a c n Hc. split.
    - rewrite BytesPrefix_Limit. now apply limit_of_last_below.
    - pose proof (byte_to_Z_range c). rewrite byte_to_of_Z, Z.mod_small; lia. }
  intros P. split; [reflexivity|]. apply storage_BytesPrefix_loop_same.
Qed.

Lemma BytesPrefix_covers_exactly_prefix_witness :
  [Byte.x01; Byte.xff] `prefix_of` [Byte.x01; Byte.xff; Byte.x07] /\
  in_range (BytesPrefix [Byte.x01; Byte.xff]) [Byte.x01; Byte.xff; Byte.x07] /\
  byte_to_Z Byte.x01 < 255 /\
  Limit (BytesPrefix ([] ++ Byte.x01 :: repeat Byte.xff 1)) = Some [Byte.x02].
Proof.
  destruct BytesPrefix_covers_exactly_prefix as (_ & _ & Hin & _ & _ & Hlim & _).
  assert (Hp : [Byte.x01; Byte.xff] `prefix_of` [Byte.x01; Byte.xff; Byte.x07])
    by (exists [Byte.x07]; reflexivity).
  assert (Hc : byte_to_Z Byte.x01 < 255) by (vm_compute; reflexivity).
  split; [exact Hp|].
  split; [exact (proj1 (Hin _ _) Hp)|].
  split; [exact Hc|].
  exact (proj1 (Hlim [] Byte.x01 1%nat Hc)).
Defined.

End BytesPrefixTheory.

(** ** [Update] *)

Module UpdateTheory.
Import db.

Section Update.
Context {DBTransaction ReadTransaction W : Type}.
Variable h : handler DBTransaction ReadTransaction W.

Let update := Update DBTransaction ReadTransaction.

(** Against every implementation of the interfaces and every body whose
    calls all return, [Update] first calls [BeginTx].  When that fails, it
    returns the error and calls nothing else.  Otherwise it calls the body
    once; when the body fails it calls [Rollback] and returns the body's
    error, without any call of [Commit]; when the body succeeds it calls
    [Commit] once, never [Rollback], and returns what [Commit] returned.  So
    exactly one of [Commit], [Rollback] is called once the transaction has
    begun. *)
Theorem Update_commit_xor_rollback (w : W) :
  let '(tx, err, w1) := h _ BeginTx w in
  let '(ret, w', evs) := run h update w in
  match err with
  | Some e =>
      ret = Some e /\ w' = w1 /\ evs = [EvBeginTx] /\
      count is_body evs = 0%nat /\ count is_commit evs = 0%nat /\
      count is_rollback evs = 0%nat
  | None =>
      let '(berr, w2) := h _ (UpdateBody tx) w1 in
      count is_body evs = 1%nat /\
      (count is_commit evs + count is_rollback evs = 1)%nat /\
      match berr with
      | Some e =>
          ret = Some e /\ w' = snd (h _ (Rollback tx) w2) /\
          evs = [EvBeginTx; EvUpdateBody tx; EvRollback tx] /\
          count is_commit evs = 0%nat
      | None =>
          ret = fst (h _ (Commit tx) w2) /\ w' = snd (h _ (Commit tx) w2) /\
          evs = [EvBeginTx; EvUpdateBody tx; EvCommit tx] /\
          count is_commit evs = 1%nat
      end
  end.
Proof.
  unfold update, Update. simpl run.
  destruct (h _ BeginTx w) as [[tx [e|]] w1]; simpl.
  - repeat split; reflexivity.
  - destruct (h _ (UpdateBody tx) w1) as [[e|] w2]; simpl.
    + destruct (h _ (Rollback tx) w2) as [r w3]; simpl.
      repeat split; reflexivity.
    + destruct (h _ (Commit tx) w2) as [r w3]; simpl.
      repeat split; reflexivity.
Qed.

End Update.

(** On the reference [DB]: a body that fails leaves the committed key space
    as it was, whatever it wrote; a body that succeeds has its writes
    committed. *)
Lemma Update_txdb_atomic (f : txdb.body) (m : gmap (list byte) (list byte)) :
  let w := {| txdb.committed := m; txdb.pending := None |} in
  let '(ret, w', _) := run (txdb.handle f) (Update unit unit) w in
  ret = (f m).2 /\
  txdb.pending w' = None /\
  txdb.committed w' = match (f m).2 with
                      | Some _ => m
                      | None => (f m).1
                      end.
Proof.
  unfold Update. cbn [run txdb.handle txdb.committed txdb.pending txdb.working].
  destruct (f m) as [m' [e|]]; cbn; repeat split.
Qed.

(** C2.  [Update] defers nothing and recovers from nothing, unlike [View],
    which defers the [Rollback] of its transaction.  Against every
    implementation whose calls may panic: when the transaction has begun and
    the body panics, the panic leaves [Update] after the two calls [BeginTx]
    and the body, and neither [Commit] nor [Rollback] is called; when the
    body returns, [Rollback] is called after an error and [Commit]
    otherwise.  On the reference [DB], under a body that stores the keystore
    version and then panics, the write transaction is left open, with that
    write pending. *)
Theorem Update_panicking_body_leaves_transaction_open :
  (forall (DBTransaction ReadTransaction W : Type)
          (h : panicking DBTransaction ReadTransaction W) (w : W),
     let '(ret, w', evs) := run_undeferred h (Update DBTransaction ReadTransaction) w in
     match h _ BeginTx w with
     | (Panic, w1) => ret = Panic /\ w' = w1 /\ evs = [EvBeginTx]
     | (Return (tx, Some e), w1) =>
         ret = Return (Some e) /\ w' = w1 /\ evs = [EvBeginTx]
     | (Return (tx, None), w1) =>
         match h _ (UpdateBody tx) w1 with
         | (Panic, w2) =>
             ret = Panic /\ w' = w2 /\ evs = [EvBeginTx; EvUpdateBody tx] /\
             count is_commit evs = 0%nat /\ count is_rollback evs = 0%nat
         | (Return (Some e), w2) =>
             ret = match fst (h _ (Rollback tx) w2) with
                   | Return _ => Return (Some e)
                   | Panic => Panic
                   end /\
             w' = snd (h _ (Rollback tx) w2) /\
             evs = [EvBeginTx; EvUpdateBody tx; EvRollback tx]
         | (Return None, w2) =>
             ret = fst (h _ (Commit tx) w2) /\ w' = snd (h _ (Commit tx) w2) /\
             evs = [EvBeginTx; EvUpdateBody tx; EvCommit tx]
         end
     end) /\
  run_undeferred (txdb.handle_panicking sample.writes_then_panics) (Update unit unit)
    {| txdb.committed := ∅; txdb.pending := None |} =
    (Panic,
     {| txdb.committed := ∅;
        txdb.pending := Some (<[elems keystore.keystoreVersionName := [Byte.x01]]> ∅) |},
     [EvBeginTx; EvUpdateBody tt]).
Proof.
  split; [|reflexivity].
  intros DBTransaction ReadTransaction W h w. unfold Update. cbn [run_undeferred].
  destruct (h _ BeginTx w) as [[[tx [e|]]|] w1]; cbn [run_undeferred].
  - repeat split.
  - destruct (h _ (UpdateBody tx) w1) as [[[e|]|] w2]; cbn [run_undeferred].
    + destruct (h _ (Rollback tx) w2) as [[r|] w3]; cbn; repeat split.
    + destruct (h _ (Commit tx) w2) as [[r|] w3]; cbn; repeat split.
    + repeat split.
  - repeat split.
Qed.

End UpdateTheory.

(** ** Driver registries *)

Section LookupTheory.
Context {A : Type} (key : A -> string).

Lemma lookup_driver_key (l : list A) (t : string) (d : A) :
  lookup_driver key l t = Some d -> key d = t.
Proof.
  induction l as [|x l IH]; simpl; [discriminate|].
  destruct (String.eqb_spec (key x) t) as [E|N]; [|exact IH].
  intros H. injection H as <-. exact E.
Qed.

Lemma lookup_driver_app (l1 l2 : list A) (t : string) :
  lookup_driver key (l1 ++ l2) t =
  match lookup_driver key l1 t with
  | Some d => Some d
  | None => lookup_driver key l2 t
  end.
Proof.
  induction l1 as [|x l1 IH]; simpl; [reflexivity|].
  destruct (String.eqb (key x) t); [reflexivity | exact IH].
Qed.

Lemma lookup_driver_None (l : list A) (t : string) :
  lookup_driver key l t = None <-> t ∉ map key l.
Proof.
  induction l as [|x l IH]; simpl.
  - split; [intros _; apply not_elem_of_nil | reflexivity].
  - rewrite not_elem_of_cons.
    destruct (String.eqb_spec (key x) t) as [E|N].
    + split; [discriminate | intros [H _]; congruence].
    + rewrite IH. split; [intros H; split; [congruence | exact H] | tauto].
Qed.

Lemma lookup_driver_register (x : A) (l : list A) (t : string) :
  lookup_driver key (register key x l) t =
  match lookup_driver key l t with
  | Some d => Some d
  | None => if String.eqb (key x) t then Some x else None
  end.
Proof.
  unfold register.
  destruct (lookup_driver key l (key x)) as [d|] eqn:Hx.
  - destruct (lookup_driver key l t) as [d'|] eqn:Ht; [reflexivity|].
    destruct (String.eqb_spec (key x) t) as [E|N]; [|reflexivity].
    rewrite E in Hx. congruence.
  - rewrite lookup_driver_app. simpl.
    destruct (lookup_driver key l t); [reflexivity|].
    destruct (String.eqb (key x) t); reflexivity.
Qed.

Lemma lookup_driver_fold (calls init : list A) (t : string) :
  lookup_driver key (fold_left (fun l x => register key x l) calls init) t =
  match lookup_driver key init t with
  | Some d => Some d
  | None => lookup_driver key calls t
  end.
Proof.
  revert init. induction calls as [|x calls IH]; intros init; simpl.
  - destruct (lookup_driver key init t); reflexivity.
  - rewrite IH, lookup_driver_register.
    destruct (lookup_driver key init t); [reflexivity|].
    destruct (String.eqb (key x) t); reflexivity.
Qed.

Lemma map_key_register (x : A) (l : list A) :
  map key (register key x l) =
  if bool_decide (key x ∈ map key l) then map key l else map key l ++ [key x].
Proof.
  unfold register.
  destruct (lookup_driver key l (key x)) as [d|] eqn:Hx.
  - rewrite bool_decide_eq_true_2; [reflexivity|].
    destruct (decide (key x ∈ map key l)) as [H|H]; [exact H|].
    apply lookup_driver_None in H. congruence.
  - rewrite bool_decide_eq_false_2 by (now apply lookup_driver_None).
    now rewrite map_app.
Qed.

Lemma map_key_fold (calls init : list A) :
  map key (fold_left (fun l x => register key x l) calls init) =
  map key init ++ first_occurrences (map key init) (map key calls).
Proof.
  revert init. induction calls as [|x calls IH]; intros init; simpl.
  - now rewrite app_nil_r.
  - rewrite IH, map_key_register.
    destruct (bool_decide (key x ∈ map key init)); [reflexivity|].
    now rewrite <- app_assoc.
Qed.

Lemma NoDup_register (x : A) (l : list A) :
  NoDup (map key l) -> NoDup (map key (register key x l)).
Proof.
  intros H. rewrite map_key_register.
  destruct (bool_decide_reflect (key x ∈ map key l)) as [Hin|Hin]; [exact H|].
  apply NoDup_app. split; [exact H|]. split.
  - intros y Hy Hy'. apply list_elem_of_singleton in Hy'. subst y. contradiction.
  - apply NoDup_singleton.
Qed.

Lemma NoDup_fold (calls init : list A) :
  NoDup (map key init) ->
  NoDup (map key (fold_left (fun l x => register key x l) calls init)).
Proof.
  revert init. induction calls as [|x calls IH]; intros init H; simpl; [exact H|].
  apply IH. now apply NoDup_register.
Qed.

End LookupTheory.

Lemma fold_left_pointwise {A B : Type} (f g : A -> B -> A) (l : list B) (a : A) :
  (forall x y, f x y = g x y) -> fold_left f l a = fold_left g l a.
Proof.
  intros H. revert a. induction l as [|y l IH]; intros a; simpl; [reflexivity|].
  now rewrite H, IH.
Qed.

Module dbRegistry.
Import db.

Section Facts.
Context {W DB Arg : Type}.
Implicit Types (drivers calls : list (DBDriver W DB Arg)) (ins : DBDriver W DB Arg).

Lemma db_RegisterDriver_loop_lookup drivers ins :
  RegisterDriver_loop drivers ins =
  match lookup_driver Type_ drivers (Type_ ins) with
  | Some _ => false
  | None => true
  end.
Proof.
  induction drivers as [|d drivers IH]; simpl; [reflexivity|].
  destruct (String.eqb (Type_ d) (Type_ ins)); [reflexivity | exact IH].
Qed.

Lemma db_RegisterDriver_register ins drivers :
  RegisterDriver ins drivers = register Type_ ins drivers.
Proof.
  unfold RegisterDriver, register. rewrite db_RegisterDriver_loop_lookup.
  destruct (lookup_driver Type_ drivers (Type_ ins)); reflexivity.
Qed.

Lemma db_register_all_fold calls :
  register_all calls = fold_left (fun l x => register Type_ x l) calls [].
Proof.
  unfold register_all. apply fold_left_pointwise.
  intros l x. apply db_RegisterDriver_register.
Qed.

Lemma db_RegisteredDbTypes_loop_map drivers (types : list string) :
  RegisteredDbTypes_loop drivers types = types ++ map Type_ drivers.
Proof.
  revert types. induction drivers as [|d drivers IH]; intros types; simpl.
  - now rewrite app_nil_r.
  - now rewrite IH, <- app_assoc.
Qed.

Lemma db_RegisteredDbTypes_map drivers :
  RegisteredDbTypes drivers = map Type_ drivers.
Proof. unfold RegisteredDbTypes. now rewrite db_RegisteredDbTypes_loop_map. Qed.

Lemma CreateDB_lookup drivers (dbtype : string) (args : list Arg) (w : W) :
  CreateDB drivers dbtype args w =
  match lookup_driver Type_ drivers dbtype with
  | Some d => CreateDB_ d args w
  | None => ((None, Some ErrDbUnknownType), w)
  end.
Proof.
  induction drivers as [|d drivers IH]; simpl; [reflexivity|].
  destruct (String.eqb (Type_ d) dbtype); [reflexivity | exact IH].
Qed.

Lemma OpenDB_lookup drivers (dbtype : string) (args : list Arg) (w : W) :
  OpenDB drivers dbtype args w =
  match lookup_driver Type_ drivers dbtype with
  | Some d => OpenDB_ d args w
  | None => ((None, Some ErrDbUnknownType), w)
  end.
Proof.
  induction drivers as [|d drivers IH]; simpl; [reflexivity|].
  destruct (String.eqb (Type_ d) dbtype); [reflexivity | exact IH].
Qed.

End Facts.
End dbRegistry.

Module storageRegistry.
Import storage.

Section Facts.
Context {W Storage Arg : Type}.
Implicit Types (drivers calls : list (StorageDriver W Storage Arg))
  (instance : StorageDriver W Storage Arg).

Lemma storage_RegisterDriver_loop_lookup drivers instance :
  RegisterDriver_loop drivers instance =
  match lookup_driver DbType drivers (DbType instance) with
  | Some _ => false
  | None => true
  end.
Proof.
  induction drivers as [|d drivers IH]; simpl; [reflexivity|].
  destruct (String.eqb (DbType d) (DbType instance)); [reflexivity | exact IH].
Qed.

Lemma storage_RegisterDriver_register instance drivers :
  RegisterDriver instance drivers = register DbType instance drivers.
Proof.
  unfold RegisterDriver, register. rewrite storage_RegisterDriver_loop_lookup.
  destruct (lookup_driver DbType drivers (DbType instance)); reflexivity.
Qed.

Lemma storage_register_all_fold calls :
  register_all calls = fold_left (fun l x => register DbType x l) calls [].
Proof.
  unfold register_all. apply fold_left_pointwise.
  intros l x. apply storage_RegisterDriver_register.
Qed.

Lemma storage_RegisteredDbTypes_loop_map drivers (types : list string) :
  RegisteredDbTypes_loop drivers types = types ++ map DbType drivers.
Proof.
  revert types. induction drivers as [|d drivers IH]; intros types; simpl.
  - now rewrite app_nil_r.
  - now rewrite IH, <- app_assoc.
Qed.

Lemma storage_RegisteredDbTypes_map drivers :
  RegisteredDbTypes drivers = map DbType drivers.
Proof. unfold RegisteredDbTypes. now rewrite storage_RegisteredDbTypes_loop_map. Qed.

Lemma CreateStorage_lookup drivers (dbtype dbpath : string) (args : list Arg) (w : W) :
  CreateStorage drivers dbtype dbpath args w =
  match lookup_driver DbType drivers dbtype with
  | Some d =>
      let '((s, err), w1) := CreateStorage_ d dbpath args w in
      match err with
      | Some e => ((None, Some e), w1)
      | None => ((s, None), w1)
      end
  | None => ((None, Some ErrDbUnknownType), w)
  end.
Proof.
  induction drivers as [|d drivers IH]; simpl; [reflexivity|].
  destruct (String.eqb (DbType d) dbtype); [|exact IH].
  destruct (CreateStorage_ d dbpath args w) as [[s [e|]] w1]; reflexivity.
Qed.

Lemma OpenStorage_lookup drivers (dbtype dbpath : string) (args : list Arg) (w : W) :
  OpenStorage drivers dbtype dbpath args w =
  match lookup_driver DbType drivers dbtype with
  | Some d => OpenStorage_ d dbpath args w
  | None => ((None, Some ErrDbUnknownType), w)
  end.
Proof.
  induction drivers as [|d drivers IH]; simpl; [reflexivity|].
  destruct (String.eqb (DbType d) dbtype); [reflexivity | exact IH].
Qed.

End Facts.
End storageRegistry.

Module RegistryTheory.

Section Dispatch.
Context {W DB Storage Arg : Type}.

(** C5 (as amended).  In both registries, registering a driver whose type
    identifier is already registered changes nothing; after any sequence of
    registrations the identifiers are those of the sequence, each once, in
    the order of their first registration, and the driver found for an
    identifier is the first one registered with it.  For an identifier that
    is not registered, [CreateDB], [OpenDB], [CreateStorage] and
    [OpenStorage] return a nil handle and the package's [ErrDbUnknownType].
    For a registered one, [CreateDB], [OpenDB] and [OpenStorage] return what
    the driver's constructor returns; [CreateStorage] returns it when the
    constructor's error is nil, and a nil handle with that error otherwise. *)
Theorem registry_first_registration_wins :
  (forall (ins : db.DBDriver W DB Arg) drivers,
     db.Type_ ins ∈ db.RegisteredDbTypes drivers ->
     db.RegisterDriver ins drivers = drivers) /\
  (forall calls : list (db.DBDriver W DB Arg),
     NoDup (db.RegisteredDbTypes (db.register_all calls)) /\
     db.RegisteredDbTypes (db.register_all calls) =
       first_occurrences [] (map db.Type_ calls) /\
     forall t, lookup_driver db.Type_ (db.register_all calls) t =
               lookup_driver db.Type_ calls t) /\
  (forall (drivers : list (db.DBDriver W DB Arg)) dbtype args w,
     dbtype ∉ db.RegisteredDbTypes drivers ->
     db.CreateDB drivers dbtype args w = ((None, Some db.ErrDbUnknownType), w) /\
     db.OpenDB drivers dbtype args w = ((None, Some db.ErrDbUnknownType), w)) /\
  (forall (drivers : list (db.DBDriver W DB Arg)) dbtype d args w,
     lookup_driver db.Type_ drivers dbtype = Some d ->
     db.CreateDB drivers dbtype args w = db.CreateDB_ d args w /\
     db.OpenDB drivers dbtype args w = db.OpenDB_ d args w) /\
  (forall (instance : storage.StorageDriver W Storage Arg) drivers,
     storage.DbType instance ∈ storage.RegisteredDbTypes drivers ->
     storage.RegisterDriver instance drivers = drivers) /\
  (forall calls : list (storage.StorageDriver W Storage Arg),
     NoDup (storage.RegisteredDbTypes (storage.register_all calls)) /\
     storage.RegisteredDbTypes (storage.register_all calls) =
       first_occurrences [] (map storage.DbType calls) /\
     forall t, lookup_driver storage.DbType (storage.register_all calls) t =
               lookup_driver storage.DbType calls t) /\
  (forall (drivers : list (storage.StorageDriver W Storage Arg)) dbtype dbpath args w,
     dbtype ∉ storage.RegisteredDbTypes drivers ->
     storage.CreateStorage drivers dbtype dbpath args w =
       ((None, Some storage.ErrDbUnknownType), w) /\
     storage.OpenStorage drivers dbtype dbpath args w =
       ((None, Some storage.ErrDbUnknownType), w)) /\
  (forall (drivers : list (storage.StorageDriver W Storage Arg)) dbtype d dbpath args w,
     lookup_driver storage.DbType drivers dbtype = Some d ->
     storage.OpenStorage drivers dbtype dbpath args w =
       storage.OpenStorage_ d dbpath args w /\
     storage.CreateStorage drivers dbtype dbpath args w =
       match storage.CreateStorage_ d dbpath args w with
       | ((s, None), w1) => ((s, None), w1)
       | ((_, Some e), w1) => ((None, Some e), w1)
       end).
Proof.
  split; [|split; [|split; [|split; [|split; [|split; [|split]]]]]].
  - intros ins drivers Hin.
    rewrite dbRegistry.db_RegisteredDbTypes_map in Hin.
    rewrite dbRegistry.db_RegisterDriver_register. unfold register.
    destruct (lookup_driver db.Type_ drivers (db.Type_ ins)) eqn:E; [reflexivity|].
    apply lookup_driver_None in E. contradiction.
  - intros calls.
    rewrite dbRegistry.db_RegisteredDbTypes_map, dbRegistry.db_register_all_fold.
    split; [apply NoDup_fold; constructor|].
    split; [apply (map_key_fold db.Type_ calls [])|].
    intros t. apply (lookup_driver_fold db.Type_ calls [] t).
  - intros drivers dbtype args w Hnot.
    rewrite dbRegistry.db_RegisteredDbTypes_map in Hnot.
    apply lookup_driver_None in Hnot.
    now rewrite dbRegistry.CreateDB_lookup, dbRegistry.OpenDB_lookup, Hnot.
  - intros drivers dbtype d args w Hd.
    now rewrite dbRegistry.CreateDB_lookup, dbRegistry.OpenDB_lookup, Hd.
  - intros instance drivers Hin.
    rewrite storageRegistry.storage_RegisteredDbTypes_map in Hin.
    rewrite storageRegistry.storage_RegisterDriver_register. unfold register.
    destruct (lookup_driver storage.DbType drivers (storage.DbType instance)) eqn:E;
      [reflexivity|].
    apply lookup_driver_None in E. contradiction.
  - intros calls.
    rewrite storageRegistry.storage_RegisteredDbTypes_map,
      storageRegistry.storage_register_all_fold.
    split; [apply NoDup_fold; constructor|].
    split; [apply (map_key_fold storage.DbType calls [])|].
    intros t. apply (lookup_driver_fold storage.DbType calls [] t).
  - intros drivers dbtype dbpath args w Hnot.
    rewrite storageRegistry.storage_RegisteredDbTypes_map in Hnot.
    apply lookup_driver_None in Hnot.
    now rewrite storageRegistry.CreateStorage_lookup,
      storageRegistry.OpenStorage_lookup, Hnot.
  - intros drivers dbtype d dbpath args w Hd.
    rewrite storageRegistry.CreateStorage_lookup,
      storageRegistry.OpenStorage_lookup, Hd.
    split; [reflexivity|].
    destruct (storage.CreateStorage_ d dbpath args w) as [[s [e|]] w1]; reflexivity.
Qed.

End Dispatch.

Lemma registry_first_registration_wins_witness :
  db.Type_ sample.bolt_again ∈ db.RegisteredDbTypes [sample.bolt] /\
  db.RegisterDriver sample.bolt_again [sample.bolt] = [sample.bolt] /\
  ("leveldb" ∉ db.RegisteredDbTypes [sample.bolt]) /\
  db.OpenDB [sample.bolt] "leveldb" [] ∅ = ((None, Some db.ErrDbUnknownType), ∅) /\
  lookup_driver db.Type_ [sample.bolt] "bolt" = Some sample.bolt /\
  db.OpenDB [sample.bolt] "bolt" [] ∅ = ((Some 1%nat, None), ∅) /\
  storage.DbType sample.leveldb_again ∈ storage.RegisteredDbTypes [sample.leveldb] /\
  storage.RegisterDriver sample.leveldb_again [sample.leveldb] = [sample.leveldb] /\
  ("bolt" ∉ storage.RegisteredDbTypes [sample.leveldb]) /\
  storage.CreateStorage [sample.leveldb] "bolt" "/tmp/x" [] ∅ =
    ((None, Some storage.ErrDbUnknownType), ∅) /\
  lookup_driver storage.DbType [sample.leveldb] "leveldb" = Some sample.leveldb /\
  storage.OpenStorage [sample.leveldb] "leveldb" "/tmp/x" [] ∅ = ((Some 1%nat, None), ∅).
Proof.
  destruct (@registry_first_registration_wins mem.files nat nat unit)
    as (H1 & _ & H3 & H4 & H5 & _ & H7 & H8).
  assert (I1 : db.Type_ sample.bolt_again ∈ db.RegisteredDbTypes [sample.bolt])
    by (apply list_elem_of_here).
  assert (I3 : "leveldb" ∉ db.RegisteredDbTypes [sample.bolt])
    by (apply (bool_decide_unpack _); vm_compute; exact I).
  assert (I4 : lookup_driver db.Type_ [sample.bolt] "bolt" = Some sample.bolt)
    by reflexivity.
  assert (I5 : storage.DbType sample.leveldb_again
               ∈ storage.RegisteredDbTypes [sample.leveldb])
    by (apply list_elem_of_here).
  assert (I7 : "bolt" ∉ storage.RegisteredDbTypes [sample.leveldb])
    by (apply (bool_decide_unpack _); vm_compute; exact I).
  assert (I8 : lookup_driver storage.DbType [sample.leveldb] "leveldb"
               = Some sample.leveldb) by reflexivity.
  split; [exact I1|]. split; [exact (H1 _ _ I1)|].
  split; [exact I3|]. split; [exact (proj2 (H3 _ _ [] ∅ I3))|].
  split; [exact I4|]. split; [exact (proj2 (H4 _ _ _ [] ∅ I4))|].
  split; [exact I5|]. split; [exact (H5 _ _ I5)|].
  split; [exact I7|]. split; [exact (proj1 (H7 _ _ "/tmp/x" [] ∅ I7))|].
  split; [exact I8|]. exact (proj1 (H8 _ _ _ "/tmp/x" [] ∅ I8)).
Defined.

(** C5 as stated fails for [CreateStorage]: a constructor that returns a
    handle together with an error has the handle replaced by nil. *)
Lemma CreateStorage_not_verbatim :
  lookup_driver storage.DbType [sample.halfopen] "halfopen" = Some sample.halfopen /\
  storage.CreateStorage_ sample.halfopen "/tmp/x" [] ∅ =
    ((Some 3%nat, Some (ErrorsNew "disk full")), ∅) /\
  storage.CreateStorage [sample.halfopen] "halfopen" "/tmp/x" [] ∅ =
    ((None, Some (ErrorsNew "disk full")), ∅) /\
  storage.CreateStorage [sample.halfopen] "halfopen" "/tmp/x" [] ∅ <>
    storage.CreateStorage_ sample.halfopen "/tmp/x" [] ∅.
Proof.
  repeat split; discriminate.
Qed.

End RegistryTheory.

(** ** The version stamp *)

Module VersionTheory.
Import storage.

Section Gate.
Context {W File Storage Arg : Type} (env : Env W File).

(** C4 (as amended).  [CheckVersion(dbtype, path, false)] returns
    [database.ErrDbDoesNotExist] when the stamp file does not exist and
    [ErrVersionCheckFailed] when the stamp read from it records another
    version than [CurrentStorageVersion] or another type than [dbtype]; it
    returns nil when both agree.  [OpenStorage] does not call
    [CheckVersion]: whatever the stamp, it returns what the open constructor
    of the first driver registered for [dbtype] returns, and
    [ErrDbUnknownType] when there is none. *)
Theorem CheckVersion_gate_not_called_by_OpenStorage :
  (forall dbtype storPath w fi err w1,
     os_Open env (filepath_Join env storPath ".ver") w = ((fi, err), w1) ->
     os_IsNotExist env err = true ->
     CheckVersion env dbtype storPath false w = (Some database.ErrDbDoesNotExist, w1)) /\
  (forall dbtype storPath w fi w1 size w2 buf w3 ver,
     os_Open env (filepath_Join env storPath ".ver") w = ((fi, None), w1) ->
     os_IsNotExist env None = false ->
     File_Stat_Size env fi w1 = ((size, None), w2) ->
     binary_Read env fi size w2 = ((buf, None), w3) ->
     json_Unmarshal env buf = (ver, None) ->
     CheckVersion env dbtype storPath false w =
       (if bool_decide (Version ver = CurrentStorageVersion /\ Dbtype ver = dbtype)
        then None else Some ErrVersionCheckFailed,
        File_Close env fi w3)) /\
  (forall (drivers : list (StorageDriver W Storage Arg)) dbtype dbpath args w,
     OpenStorage drivers dbtype dbpath args w =
     match lookup_driver DbType drivers dbtype with
     | Some d => OpenStorage_ d dbpath args w
     | None => ((None, Some ErrDbUnknownType), w)
     end).
Proof.
  split; [|split].
  - intros dbtype storPath w fi err w1 Hopen Hne.
    unfold CheckVersion. now rewrite Hopen, Hne.
  - intros dbtype storPath w fi w1 size w2 buf w3 ver Hopen Hne Hstat Hread Hjson.
    unfold CheckVersion. rewrite Hopen, Hne, Hstat, Hread, Hjson.
    destruct (Z.eqb_spec (Version ver) CurrentStorageVersion) as [Ev|Nv];
      destruct (String.eqb_spec (Dbtype ver) dbtype) as [Et|Nt]; simpl.
    + now rewrite bool_decide_eq_true_2.
    + rewrite bool_decide_eq_false_2; [reflexivity | tauto].
    + rewrite bool_decide_eq_false_2; [reflexivity | tauto].
    + rewrite bool_decide_eq_false_2; [reflexivity | tauto].
  - intros. apply storageRegistry.OpenStorage_lookup.
Qed.

End Gate.

Lemma CheckVersion_gate_not_called_by_OpenStorage_witness :
  CheckVersion mem.mem_env "leveldb" "/data" false ∅ =
    (Some database.ErrDbDoesNotExist, ∅) /\
  CheckVersion mem.mem_env "leveldb" "/data" false sample.stamped_other =
    (Some ErrVersionCheckFailed, sample.stamped_other) /\
  CheckVersion mem.mem_env "other" "/data" false sample.stamped_other =
    (None, sample.stamped_other).
Proof.
  destruct (@CheckVersion_gate_not_called_by_OpenStorage
              mem.files string nat unit mem.mem_env) as (H1 & H2 & _).
  split; [|split].
  - apply (H1 "leveldb" "/data" ∅ "/data/.ver" (Some mem.os_ErrNotExist) ∅);
      reflexivity.
  - apply (H2 "leveldb" "/data" sample.stamped_other "/data/.ver"
              sample.stamped_other 6 sample.stamped_other
              (Byte.x01 :: list_byte_of_string "other") sample.stamped_other
              {| Dbtype := "other"; Version := 1 |});
      reflexivity.
  - apply (H2 "other" "/data" sample.stamped_other "/data/.ver"
              sample.stamped_other 6 sample.stamped_other
              (Byte.x01 :: list_byte_of_string "other") sample.stamped_other
              {| Dbtype := "other"; Version := 1 |});
      reflexivity.
Defined.

(** C4 as stated fails: on a root without stamp, and on a root stamped for
    another type, [CheckVersion] reports the condition, yet [OpenStorage]
    returns the handle of the driver's constructor and no error. *)
Lemma OpenStorage_ignores_version_stamp :
  fst (CheckVersion mem.mem_env "leveldb" "/data" false ∅) =
    Some database.ErrDbDoesNotExist /\
  fst (OpenStorage [sample.leveldb] "leveldb" "/data" [] ∅) = (Some 1%nat, None) /\
  fst (CheckVersion mem.mem_env "leveldb" "/data" false sample.stamped_other) =
    Some ErrVersionCheckFailed /\
  fst (OpenStorage [sample.leveldb] "leveldb" "/data" [] sample.stamped_other) =
    (Some 1%nat, None).
Proof.
  repeat split.
Qed.

End VersionTheory.

(** ** Slices and the little-endian encoding *)

Lemma lor_shiftl_add (x y n : Z) :
  0 <= n -> 0 <= x < 2 ^ n -> Z.lor x (Z.shiftl y n) = x + y * 2 ^ n.
Proof.
  intros Hn Hx.
  assert (Hland : Z.land x (Z.shiftl y n) = 0).
  { apply Z.bits_inj'. intros k Hk.
    rewrite Z.land_spec, Z.bits_0.
    destruct (Z.ltb_spec k n) as [Hlt|Hge].
    - rewrite Z.shiftl_spec_low by lia. apply andb_false_r.
    - destruct (Z.eq_dec x 0) as [->|Hx0]; [now rewrite Z.bits_0|].
      rewrite (Z.bits_above_log2 x k); [reflexivity | lia |].
      apply Z.log2_lt_pow2; [lia|].
      apply Z.lt_le_trans with (2 ^ n); [lia|].
      apply Z.pow_le_mono_r; lia. }
  rewrite <- Z.lxor_lor by exact Hland.
  rewrite <- Z.add_nocarry_lxor by exact Hland.
  now rewrite Z.shiftl_mul_pow2.
Qed.

Lemma le32_cons4 (b0 b1 b2 b3 : byte) (rest : list byte) :
  le32 (b0 :: b1 :: b2 :: b3 :: rest) =
  byte_to_Z b0 + byte_to_Z b1 * 2 ^ 8 + byte_to_Z b2 * 2 ^ 16 + byte_to_Z b3 * 2 ^ 24.
Proof.
  pose proof (byte_to_Z_range b0). pose proof (byte_to_Z_range b1).
  pose proof (byte_to_Z_range b2). pose proof (byte_to_Z_range b3).
  unfold le32, LittleEndian.Uint32. cbn [elems].
  rewrite (lor_shiftl_add (byte_to_Z b0) (byte_to_Z b1) 8) by lia.
  rewrite (lor_shiftl_add _ (byte_to_Z b2) 16) by lia.
  rewrite (lor_shiftl_add _ (byte_to_Z b3) 24) by lia.
  reflexivity.
Qed.

Lemma le32_range (l : list byte) : 0 <= le32 l < 2 ^ 32.
Proof.
  destruct l as [|b0 [|b1 [|b2 [|b3 rest]]]];
    try (unfold le32, LittleEndian.Uint32; cbn [elems]; split; [lia | reflexivity]).
  rewrite le32_cons4.
  pose proof (byte_to_Z_range b0). pose proof (byte_to_Z_range b1).
  pose proof (byte_to_Z_range b2). pose proof (byte_to_Z_range b3). lia.
Qed.

Lemma le32_bytes_of_uint32 (v : Z) (rest : list byte) :
  le32 (LittleEndian.bytes_of_uint32 v ++ rest) = v mod 2 ^ 32.
Proof.
  unfold LittleEndian.bytes_of_uint32. simpl app. rewrite le32_cons4.
  rewrite !byte_to_of_Z, !Z.shiftr_div_pow2 by lia.
  change (2 ^ 8) with 256. change (2 ^ 16) with (256 * 256).
  change (2 ^ 24) with (256 * 256 * 256).
  change (2 ^ 32) with (256 * 256 * 256 * 256).
  rewrite <- !Z.div_div by lia.
  Z.to_euclidean_division_equations. lia.
Qed.

Lemma Uint32_le32 (b : goslice) :
  4 <= len b -> LittleEndian.Uint32 b = Return (le32 (elems b)).
Proof.
  unfold len, le32, LittleEndian.Uint32. simpl elems.
  destruct (elems b) as [|b0 [|b1 [|b2 [|b3 rest]]]]; simpl; intros; try lia.
  reflexivity.
Qed.

Lemma le32_take (l : list byte) (n : nat) :
  (4 <= n)%nat -> le32 (take n l) = le32 l.
Proof.
  intros Hn.
  destruct l as [|b0 [|b1 [|b2 [|b3 rest]]]];
    do 4 (destruct n as [|n]; [lia|]); reflexivity.
Qed.

Lemma length_bytes_of_uint32 (v : Z) : length (LittleEndian.bytes_of_uint32 v) = 4%nat.
Proof. reflexivity. Qed.

Lemma copy_same_length (dst src : list byte) :
  length dst = length src -> copy dst src = src.
Proof.
  intros H. unfold copy. rewrite H, Nat.min_id.
  rewrite firstn_all, <- H, drop_all. apply app_nil_r.
Qed.

Lemma reslice_within (s : goslice) (lo hi : Z) :
  0 <= lo -> lo <= hi -> hi <= len s ->
  exists r, reslice s lo hi = Return r /\
            elems r = take (Z.to_nat (hi - lo)) (drop (Z.to_nat lo) (elems s)).
Proof.
  intros H0 H1 H2. unfold reslice.
  assert (Hcap : len s <= cap s).
  { unfold len, cap. destruct s as [|e sp]; simpl; [lia|]. rewrite length_app. lia. }
  destruct (Z.leb_spec 0 lo); [|lia]. destruct (Z.leb_spec lo hi); [|lia].
  destruct (Z.leb_spec hi (cap s)); [|lia]. simpl.
  destruct s as [|e sp]; simpl.
  - exists Nil. split; [reflexivity|]. now rewrite drop_nil, take_nil.
  - eexists. split; [reflexivity|]. simpl. unfold len in H2. simpl in H2.
    rewrite drop_app_le by lia. rewrite take_app_le; [reflexivity|].
    rewrite length_drop. lia.
Qed.

Lemma uint32_small (z : Z) : 0 <= z < 2 ^ 32 -> uint32 z = z.
Proof. intros H. unfold uint32. now apply Z.mod_small. Qed.

Lemma len_nonneg (s : goslice) : 0 <= len s.
Proof. unfold len. lia. Qed.

Lemma buf_PutUint32_app (a m c : list byte) (lo hi v : Z) :
  Z.of_nat (length a) = lo -> length m = 4%nat -> hi = lo + 4 ->
  LittleEndian.buf_PutUint32 (a ++ m ++ c) lo hi v =
  Return (a ++ LittleEndian.bytes_of_uint32 v ++ c).
Proof.
  intros Ha Hm ->. unfold LittleEndian.buf_PutUint32, buf_in_bounds.
  rewrite !length_app, Hm.
  destruct (Z.leb_spec 0 lo); [|lia]. destruct (Z.leb_spec lo (lo + 4)); [|lia].
  destruct (Z.leb_spec (lo + 4) (Z.of_nat (length a + (4 + length c)))); [|lia].
  destruct (Z.ltb_spec (lo + 4 - lo) 4); [lia|]. simpl andb. cbv iota.
  assert (Hlo : Z.to_nat lo = length a) by lia. rewrite Hlo.
  rewrite take_app_length. do 2 f_equal.
  rewrite drop_app_add'; [|reflexivity]. now rewrite <- Hm, drop_app_length.
Qed.

Lemma buf_copy_app (a m c src : list byte) (lo hi : Z) :
  Z.of_nat (length a) = lo -> length m = length src ->
  hi = lo + Z.of_nat (length src) ->
  buf_copy (a ++ m ++ c) lo hi src = Return (a ++ src ++ c).
Proof.
  intros Ha Hm ->. unfold buf_copy, buf_in_bounds.
  rewrite !length_app, Hm.
  destruct (Z.leb_spec 0 lo); [|lia].
  destruct (Z.leb_spec lo (lo + Z.of_nat (length src))); [|lia].
  destruct (Z.leb_spec (lo + Z.of_nat (length src))
              (Z.of_nat (length a + (length src + length c)))); [|lia].
  simpl andb. cbv iota.
  assert (Hlo : Z.to_nat lo = length a) by lia. rewrite Hlo.
  assert (Hn : Z.to_nat (lo + Z.of_nat (length src) - lo) = length src) by lia.
  rewrite Hn, Nat.min_id, take_app_length, firstn_all. do 2 f_equal.
  rewrite drop_app_add'; [|reflexivity]. now rewrite <- Hm, drop_app_length.
Qed.


Lemma buf_PutUint32_at (buf a m c : list byte) (lo hi v : Z) :
  buf = a ++ m ++ c ->
  Z.of_nat (length a) = lo -> length m = 4%nat -> hi = lo + 4 ->
  LittleEndian.buf_PutUint32 buf lo hi v =
  Return (a ++ LittleEndian.bytes_of_uint32 v ++ c).
Proof. intros ->. apply buf_PutUint32_app. Qed.

Lemma buf_copy_at (buf a m c src : list byte) (lo hi : Z) :
  buf = a ++ m ++ c ->
  Z.of_nat (length a) = lo -> length m = length src ->
  hi = lo + Z.of_nat (length src) ->
  buf_copy buf lo hi src = Return (a ++ src ++ c).
Proof. intros ->. apply buf_copy_app. Qed.

Lemma buf_set_head (x t : byte) (r : list byte) :
  buf_set (x :: r) 0 t = Return (t :: r).
Proof.
  unfold buf_set. cbn [length].
  destruct (Z.ltb_spec 0 (Z.of_nat (S (length r)))); [reflexivity | lia].
Qed.

Module CodecTheory.
Import keystore.

Lemma serializeHDAccountKey_layout (pub priv : goslice) :
  8 + len pub + len priv < 2 ^ 32 ->
  serializeHDAccountKey pub priv =
  Return (Slice (LittleEndian.bytes_of_uint32 (len pub) ++ elems pub
                 ++ LittleEndian.bytes_of_uint32 (len priv) ++ elems priv) []).
Proof.
  intros Hfit.
  pose proof (len_nonneg pub) as Hp. pose proof (len_nonneg priv) as Hq.
  unfold serializeHDAccountKey.
  rewrite !(uint32_small (len pub)), !(uint32_small (len priv)) by lia.
  rewrite !(uint32_small (4 + len pub)), !(uint32_small (8 + len pub)) by lia.
  rewrite !(uint32_small (4 + len pub + 4)) by lia.
  rewrite !(uint32_small (8 + len pub + len priv)),
          !(uint32_small (4 + len pub + 4 + len priv)) by lia.
  unfold make. cbn [elems].
  set (P := elems pub) in *. set (Q := elems priv) in *.
  assert (Hlp : len pub = Z.of_nat (length P)) by reflexivity.
  assert (Hlq : len priv = Z.of_nat (length Q)) by reflexivity.
  replace (Z.to_nat (8 + len pub + len priv))
    with (4 + (length P + (4 + length Q)))%nat by lia.
  rewrite !repeat_app.
  set (lp := LittleEndian.bytes_of_uint32 (len pub)).
  set (lq := LittleEndian.bytes_of_uint32 (len priv)).
  erewrite (buf_PutUint32_at _ [] (repeat Byte.x00 4));
    [|reflexivity|reflexivity|reflexivity|reflexivity].
  cbn [bind app]. fold lp.
  erewrite (buf_copy_at _ lp (repeat Byte.x00 (length P)) _ P);
    [|reflexivity|reflexivity|apply repeat_length|lia].
  cbn [bind].
  erewrite (buf_PutUint32_at _ (lp ++ P) (repeat Byte.x00 4));
    [|now rewrite <- app_assoc|rewrite length_app; subst lp; rewrite length_bytes_of_uint32; lia
     |reflexivity|reflexivity].
  cbn [bind]. fold lq.
  erewrite (buf_copy_at _ ((lp ++ P) ++ lq) (repeat Byte.x00 (length Q)) [] Q);
    [|now rewrite <- !app_assoc, app_nil_r
     |rewrite !length_app; subst lp lq; rewrite !length_bytes_of_uint32; lia
     |apply repeat_length|lia].
  cbn [bind]. now rewrite app_nil_r, <- !app_assoc.
Qed.
(** What [serializeAccountRow] writes; it does not panic. *)
Lemma serializeAccountRow_layout (row : dbAccountRow) :
  serializeAccountRow row =
  Return (Slice (acctType row
                 :: LittleEndian.bytes_of_uint32 (uint32 (len (rawData row)))
                 ++ elems (rawData row)) []).
Proof.
  unfold serializeAccountRow.
  pose proof (len_nonneg (rawData row)) as Hr.
  set (R := elems (rawData row)).
  assert (Hlr : len (rawData row) = Z.of_nat (length R)) by reflexivity.
  unfold make. cbn [elems].
  replace (Z.to_nat (5 + len (rawData row))) with (1 + (4 + length R))%nat by lia.
  rewrite !repeat_app. cbn [repeat app].
  rewrite buf_set_head. cbn [bind].
  erewrite (buf_PutUint32_at _ [acctType row] (repeat Byte.x00 4)
              (repeat Byte.x00 (length R)));
    [|reflexivity|reflexivity|reflexivity|reflexivity].
  cbn [bind].
  erewrite (buf_copy_at _ (acctType row :: LittleEndian.bytes_of_uint32
                             (uint32 (len (rawData row))))
              (repeat Byte.x00 (length R)) [] R);
    [|now rewrite app_nil_r|reflexivity|apply repeat_length|lia].
  cbn [bind]. now rewrite app_nil_r.
Qed.

(** [deserializeAccountRow] on an input whose declared length fits. *)
Lemma deserializeAccountRow_fits (accountID s : goslice) :
  5 <= len s ->
  5 + le32 (drop 1 (elems s)) <= len s ->
  5 + le32 (drop 1 (elems s)) < 2 ^ 32 ->
  deserializeAccountRow accountID s =
  Return (Some {| acctType := hd Byte.x00 (elems s);
                  rawData := Slice (take (Z.to_nat (le32 (drop 1 (elems s))))
                                         (drop 5 (elems s))) [] |},
          None).
Proof.
  intros Hlen Hfit Hwrap.
  pose proof (le32_range (drop 1 (elems s))) as Hr.
  set (rdlen := le32 (drop 1 (elems s))) in *.
  unfold deserializeAccountRow.
  destruct (Z.ltb_spec (len s) 5) as [Hbad|_]; [lia|].
  assert (Hidx : index s 0 = Return (hd Byte.x00 (elems s))).
  { unfold index. destruct (Z.ltb_spec 0 (len s)); [|lia]. simpl.
    unfold len in Hlen. destruct (elems s); simpl in *; [lia | reflexivity]. }
  rewrite Hidx. cbn [bind].
  destruct (reslice_within s 1 5) as (hdr & Hhdr & Ehdr); [lia|lia|lia|].
  rewrite Hhdr. cbn [bind].
  assert (Hlh : len hdr = 4).
  { unfold len. rewrite Ehdr, length_take, length_drop. unfold len in Hlen. lia. }
  rewrite (Uint32_le32 hdr) by lia. cbn [bind].
  rewrite Ehdr. change (Z.to_nat (5 - 1)) with 4%nat. change (Z.to_nat 1) with 1%nat.
  rewrite le32_take by lia. fold rdlen.
  rewrite (uint32_small (5 + rdlen)) by lia.
  destruct (reslice_within s 5 (5 + rdlen)) as (src & Hsrc & Esrc); [lia|lia|lia|].
  rewrite Hsrc. cbn [bind]. rewrite Esrc.
  replace (Z.to_nat (5 + rdlen - 5)) with (Z.to_nat rdlen) by lia.
  change (Z.to_nat 5) with 5%nat.
  rewrite copy_same_length; [reflexivity|].
  unfold make. cbn [elems]. rewrite repeat_length, length_take, length_drop.
  unfold len in Hfit. lia.
Qed.

(** [deserializeHDAccountKey] on raw data whose declared lengths fit. *)
Lemma deserializeHDAccountKey_fits (accountID : goslice) (row : dbAccountRow) :
  let raw := elems (rawData row) in
  let pubLen := le32 raw in
  let privLen := le32 (drop (Z.to_nat (4 + pubLen)) raw) in
  8 <= len (rawData row) ->
  8 + pubLen <= len (rawData row) ->
  8 + pubLen + privLen <= len (rawData row) ->
  8 + pubLen + privLen < 2 ^ 32 ->
  deserializeHDAccountKey accountID row =
  Return (Some {| row_ := row;
                  pubKeyEncrypted := Slice (take (Z.to_nat pubLen) (drop 4 raw)) [];
                  privKeyEncrypted :=
                    Slice (take (Z.to_nat privLen)
                                (drop (Z.to_nat (8 + pubLen)) raw)) [] |},
          None).
Proof.
  intros raw pubLen privLen Hlen Hpub Hpriv Hwrap.
  pose proof (le32_range raw) as Hrp.
  pose proof (le32_range (drop (Z.to_nat (4 + pubLen)) raw)) as Hrq.
  fold pubLen in Hrp. fold privLen in Hrq.
  unfold deserializeHDAccountKey.
  destruct (Z.ltb_spec (len (rawData row)) 8) as [Hbad|_]; [lia|].
  assert (Hraw : length raw = Z.to_nat (len (rawData row))) by (unfold len, raw; lia).
  destruct (reslice_within (rawData row) 0 4) as (hdr & Hhdr & Ehdr); [lia|lia|lia|].
  rewrite Hhdr. cbn [bind].
  assert (Hlh : len hdr = 4).
  { unfold len. rewrite Ehdr, length_take, length_drop. fold raw. lia. }
  rewrite (Uint32_le32 hdr) by lia. cbn [bind].
  rewrite Ehdr. change (Z.to_nat (4 - 0)) with 4%nat. change (Z.to_nat 0) with 0%nat.
  rewrite drop_0, le32_take by lia. fold raw. fold pubLen.
  rewrite !(uint32_small (4 + pubLen)) by lia.
  rewrite !(uint32_small (4 + pubLen + 4)) by lia.
  destruct (reslice_within (rawData row) 4 (4 + pubLen)) as (src & Hsrc & Esrc);
    [lia|lia|lia|].
  rewrite Hsrc. cbn [bind].
  destruct (reslice_within (rawData row) (4 + pubLen) (4 + pubLen + 4))
    as (hdr2 & Hhdr2 & Ehdr2); [lia|lia|lia|].
  rewrite Hhdr2. cbn [bind].
  assert (Hlh2 : len hdr2 = 4).
  { unfold len. rewrite Ehdr2, length_take, length_drop. fold raw. lia. }
  rewrite (Uint32_le32 hdr2) by lia. cbn [bind].
  rewrite Ehdr2. replace (Z.to_nat (4 + pubLen + 4 - (4 + pubLen))) with 4%nat by lia.
  rewrite le32_take by lia. fold raw. fold privLen.
  rewrite !(uint32_small (4 + pubLen + 4 + privLen)) by lia.
  destruct (reslice_within (rawData row) (4 + pubLen + 4) (4 + pubLen + 4 + privLen))
    as (src2 & Hsrc2 & Esrc2); [lia|lia|lia|].
  rewrite Hsrc2. cbn [bind].
  rewrite Esrc, Esrc2. fold raw.
  replace (Z.to_nat (4 + pubLen - 4)) with (Z.to_nat pubLen) by lia.
  replace (Z.to_nat (4 + pubLen + 4 + privLen - (4 + pubLen + 4)))
    with (Z.to_nat privLen) by lia.
  replace (4 + pubLen + 4) with (8 + pubLen) by lia.
  change (Z.to_nat 4) with 4%nat.
  rewrite !copy_same_length; [reflexivity| |].
  - unfold make. cbn [elems]. rewrite repeat_length, length_take, length_drop. lia.
  - unfold make. cbn [elems]. rewrite repeat_length, length_take, length_drop. lia.
Qed.

End CodecTheory.


(** ** The account row codec *)

Module RowTheory.
Import keystore.

Lemma le32_bytes_small (v : Z) (rest : list byte) :
  0 <= v < 2 ^ 32 -> le32 (LittleEndian.bytes_of_uint32 v ++ rest) = v.
Proof. intros H. rewrite le32_bytes_of_uint32. now apply Z.mod_small. Qed.

Lemma deserializeAccountRow_layout (accountID : goslice) (t : byte)
  (data trailing spare : list byte) :
  5 + Z.of_nat (length data) < 2 ^ 32 ->
  deserializeAccountRow accountID
    (Slice (t :: LittleEndian.bytes_of_uint32 (Z.of_nat (length data))
            ++ data ++ trailing) spare) =
  Return (Some {| acctType := t; rawData := Slice data [] |}, None).
Proof.
  intros Hfit.
  set (s := Slice _ spare).
  assert (Hlen : len s = 5 + Z.of_nat (length data) + Z.of_nat (length trailing)).
  { unfold len, s. cbn [elems length]. rewrite !length_app, length_bytes_of_uint32. lia. }
  assert (Hrd : le32 (drop 1 (elems s)) = Z.of_nat (length data)).
  { unfold s. cbn [elems drop]. apply le32_bytes_small. lia. }
  rewrite (CodecTheory.deserializeAccountRow_fits accountID s); [|lia|lia|lia].
  rewrite Hrd. unfold s. cbn [elems hd].
  change (drop 5 (t :: LittleEndian.bytes_of_uint32 (Z.of_nat (length data))
                  ++ data ++ trailing)) with (data ++ trailing).
  now rewrite Nat2Z.id, take_app_length.
Qed.

Lemma deserializeHDAccountKey_layout (accountID : goslice) (t : byte)
  (P Q trailing spare : list byte) :
  8 + Z.of_nat (length P) + Z.of_nat (length Q) < 2 ^ 32 ->
  let row := {| acctType := t;
                rawData := Slice (LittleEndian.bytes_of_uint32 (Z.of_nat (length P)) ++ P
                                  ++ LittleEndian.bytes_of_uint32 (Z.of_nat (length Q))
                                  ++ Q ++ trailing) spare |} in
  deserializeHDAccountKey accountID row =
  Return (Some {| row_ := row; pubKeyEncrypted := Slice P [];
                  privKeyEncrypted := Slice Q [] |}, None).
Proof.
  intros Hfit row.
  set (lp := LittleEndian.bytes_of_uint32 (Z.of_nat (length P))) in *.
  set (lq := LittleEndian.bytes_of_uint32 (Z.of_nat (length Q))) in *.
  assert (Hraw : elems (rawData row) = lp ++ P ++ lq ++ Q ++ trailing) by reflexivity.
  assert (Hlen : len (rawData row) =
                 8 + Z.of_nat (length P) + Z.of_nat (length Q)
                 + Z.of_nat (length trailing)).
  { unfold len. rewrite Hraw, !length_app. subst lp lq.
    rewrite !length_bytes_of_uint32. lia. }
  assert (Hp : le32 (elems (rawData row)) = Z.of_nat (length P)).
  { rewrite Hraw. apply le32_bytes_small. lia. }
  assert (Hd1 : drop (Z.to_nat (4 + Z.of_nat (length P))) (elems (rawData row))
                = lq ++ Q ++ trailing).
  { rewrite Hraw, (app_assoc lp P).
    replace (Z.to_nat (4 + Z.of_nat (length P))) with (length (lp ++ P))
      by (rewrite length_app; subst lp; rewrite length_bytes_of_uint32; lia).
    apply drop_app_length. }
  assert (Hq : le32 (drop (Z.to_nat (4 + Z.of_nat (length P))) (elems (rawData row)))
               = Z.of_nat (length Q)).
  { rewrite Hd1. apply le32_bytes_small. lia. }
  pose proof (CodecTheory.deserializeHDAccountKey_fits accountID row) as H.
  cbv zeta in H. rewrite Hp, Hq in H.
  rewrite H; [|lia|lia|lia|lia]. do 3 f_equal.
  f_equal.
  - f_equal. rewrite Hraw. change (drop 4 (lp ++ ?x)) with x.
    now rewrite Nat2Z.id, take_app_length.
  - f_equal. rewrite Hraw, (app_assoc lp P), (app_assoc (lp ++ P) lq).
    replace (Z.to_nat (8 + Z.of_nat (length P))) with (length ((lp ++ P) ++ lq))
      by (rewrite !length_app; subst lp lq; rewrite !length_bytes_of_uint32; lia).
    now rewrite drop_app_length, Nat2Z.id, take_app_length.
Qed.

(** C3 (as amended).  For all blobs [encryptedPubKey] and [encryptedPrivKey],
    nil and empty ones included, whose lengths satisfy
    [13 + len pub + len priv < 2^32]: [serializeHDAccountKey] returns raw
    data, [serializeAccountRow] wraps it in a row of type [accountMASS],
    [deserializeAccountRow] returns a row of that type, and
    [deserializeHDAccountKey] on it returns non-nil [pubKeyEncrypted] and
    [privKeyEncrypted] with the bytes of the two blobs. *)
Theorem HDAccountKey_row_roundtrip (accountID encryptedPubKey encryptedPrivKey : goslice) :
  13 + len encryptedPubKey + len encryptedPrivKey < 2 ^ 32 ->
  exists rawData buf row key,
    serializeHDAccountKey encryptedPubKey encryptedPrivKey = Return rawData /\
    serializeAccountRow {| acctType := accountMASS; rawData := rawData |} = Return buf /\
    deserializeAccountRow accountID buf = Return (Some row, None) /\
    acctType row = accountMASS /\
    deserializeHDAccountKey accountID row = Return (Some key, None) /\
    elems (pubKeyEncrypted key) = elems encryptedPubKey /\
    elems (privKeyEncrypted key) = elems encryptedPrivKey /\
    is_nil (pubKeyEncrypted key) = false /\
    is_nil (privKeyEncrypted key) = false.
Proof.
  intros Hfit.
  pose proof (len_nonneg encryptedPubKey) as Hp.
  pose proof (len_nonneg encryptedPrivKey) as Hq.
  set (P := elems encryptedPubKey). set (Q := elems encryptedPrivKey).
  assert (HP : len encryptedPubKey = Z.of_nat (length P)) by reflexivity.
  assert (HQ : len encryptedPrivKey = Z.of_nat (length Q)) by reflexivity.
  set (raw := LittleEndian.bytes_of_uint32 (len encryptedPubKey) ++ P
              ++ LittleEndian.bytes_of_uint32 (len encryptedPrivKey) ++ Q).
  assert (Hraw : Z.of_nat (length raw) = 8 + len encryptedPubKey + len encryptedPrivKey).
  { unfold raw. rewrite !length_app, !length_bytes_of_uint32. lia. }
  exists (Slice raw []).
  exists (Slice (accountMASS :: LittleEndian.bytes_of_uint32 (Z.of_nat (length raw))
                 ++ raw ++ []) []).
  exists {| acctType := accountMASS; rawData := Slice raw [] |}.
  exists {| row_ := {| acctType := accountMASS; rawData := Slice raw [] |};
            pubKeyEncrypted := Slice P []; privKeyEncrypted := Slice Q [] |}.
  split; [apply CodecTheory.serializeHDAccountKey_layout; lia|].
  split.
  { rewrite CodecTheory.serializeAccountRow_layout. cbn [acctType rawData elems].
    unfold len. cbn [elems]. rewrite uint32_small by lia. now rewrite app_nil_r. }
  split; [apply deserializeAccountRow_layout; lia|].
  split; [reflexivity|].
  split.
  { pose proof (deserializeHDAccountKey_layout accountID accountMASS P Q [] []) as H.
    cbv zeta in H. unfold raw. rewrite HP, HQ.
    rewrite app_nil_r in H. apply H. lia. }
  repeat split.
Qed.

Lemma HDAccountKey_row_roundtrip_witness :
  13 + len (Slice [Byte.x01; Byte.x02] []) + len Nil < 2 ^ 32 /\
  exists rawData buf row key,
    serializeHDAccountKey (Slice [Byte.x01; Byte.x02] []) Nil = Return rawData /\
    serializeAccountRow {| acctType := accountMASS; rawData := rawData |} = Return buf /\
    deserializeAccountRow (Slice sample.key0 []) buf = Return (Some row, None) /\
    acctType row = accountMASS /\
    deserializeHDAccountKey (Slice sample.key0 []) row = Return (Some key, None) /\
    elems (pubKeyEncrypted key) = [Byte.x01; Byte.x02] /\
    elems (privKeyEncrypted key) = [] /\
    is_nil (pubKeyEncrypted key) = false /\
    is_nil (privKeyEncrypted key) = false.
Proof.
  assert (H : 13 + len (Slice [Byte.x01; Byte.x02] []) + len Nil < 2 ^ 32)
    by reflexivity.
  split; [exact H|].
  exact (HDAccountKey_row_roundtrip (Slice sample.key0 [])
           (Slice [Byte.x01; Byte.x02] []) Nil H).
Defined.

Lemma serializeHDAccountKey_wraps (P : list byte) :
  Z.of_nat (length P) = 2 ^ 32 - 8 ->
  serializeHDAccountKey (Slice P []) Nil = Panic.
Proof.
  intros HP. unfold serializeHDAccountKey.
  unfold len. cbn [elems length]. rewrite HP.
  reflexivity.
Qed.

(** C3 as stated fails: on a public key blob of [2^32 - 8] bytes the length
    [8+pubLen+privLen] wraps around to 0 in [uint32], the buffer is empty,
    and [rawData[0:4]] panics. *)
Lemma HDAccountKey_roundtrip_fails_on_4GiB_blob :
  serializeHDAccountKey (Slice (repeat Byte.x00 (Z.to_nat 4294967288)) []) Nil = Panic.
Proof.
  apply serializeHDAccountKey_wraps.
  rewrite repeat_length. apply Z2Nat.id. discriminate.
Qed.

(** C10 (as amended).  [deserializeAccountRow] checks only that the input
    has 5 bytes and [deserializeHDAccountKey] only that the raw data has 8;
    shorter inputs are rejected with the malformed-record error.  For an
    input [s] of at least 5 bytes whose declared length
    [rdlen = LE32(s[1:5])] satisfies [rdlen <= len(s) - 5] and
    [5 + rdlen < 2^32], [deserializeAccountRow] returns [acctType = s[0]] and
    as [rawData] the [rdlen] bytes after the header, whatever follows them and
    whatever the capacity of [s].  For raw data of at least 8 bytes whose
    declared lengths satisfy [8 + pubLen + privLen <= len(rawData)] and
    [8 + pubLen + privLen < 2^32], [deserializeHDAccountKey] returns the
    [pubLen] bytes after the first length and the [privLen] bytes after the
    second, whatever follows them. *)
Theorem deserialize_in_bounds_when_lengths_fit :
  (forall accountID s : goslice,
     len s < 5 ->
     deserializeAccountRow accountID s =
     Return (None, Some (ErrorsNew ("malformed serialized account for key "
                                    +:+ fmt_x (elems accountID))))) /\
  (forall accountID s : goslice,
     5 <= len s ->
     le32 (drop 1 (elems s)) <= len s - 5 ->
     5 + le32 (drop 1 (elems s)) < 2 ^ 32 ->
     deserializeAccountRow accountID s =
     Return (Some {| acctType := hd Byte.x00 (elems s);
                     rawData := Slice (take (Z.to_nat (le32 (drop 1 (elems s))))
                                            (drop 5 (elems s))) [] |},
             None)) /\
  (forall (accountID : goslice) (t : byte) (data trailing spare : list byte),
     5 + Z.of_nat (length data) < 2 ^ 32 ->
     deserializeAccountRow accountID
       (Slice (t :: LittleEndian.bytes_of_uint32 (Z.of_nat (length data))
               ++ data ++ trailing) spare) =
     Return (Some {| acctType := t; rawData := Slice data [] |}, None)) /\
  (forall (accountID : goslice) (row : dbAccountRow),
     len (rawData row) < 8 ->
     deserializeHDAccountKey accountID row =
     Return (None, Some (ErrorsNew ("malformed serialized bip0044 account for key "
                                    +:+ fmt_x (elems accountID))))) /\
  (forall (accountID : goslice) (row : dbAccountRow),
     let raw := elems (rawData row) in
     let pubLen := le32 raw in
     let privLen := le32 (drop (Z.to_nat (4 + pubLen)) raw) in
     8 <= len (rawData row) ->
     8 + pubLen <= len (rawData row) ->
     8 + pubLen + privLen <= len (rawData row) ->
     8 + pubLen + privLen < 2 ^ 32 ->
     deserializeHDAccountKey accountID row =
     Return (Some {| row_ := row;
                     pubKeyEncrypted := Slice (take (Z.to_nat pubLen) (drop 4 raw)) [];
                     privKeyEncrypted :=
                       Slice (take (Z.to_nat privLen)
                                   (drop (Z.to_nat (8 + pubLen)) raw)) [] |},
             None)) /\
  (forall (accountID : goslice) (t : byte) (P Q trailing spare : list byte),
     8 + Z.of_nat (length P) + Z.of_nat (length Q) < 2 ^ 32 ->
     let row := {| acctType := t;
                   rawData :=
                     Slice (LittleEndian.bytes_of_uint32 (Z.of_nat (length P)) ++ P
                            ++ LittleEndian.bytes_of_uint32 (Z.of_nat (length Q))
                            ++ Q ++ trailing) spare |} in
     deserializeHDAccountKey accountID row =
     Return (Some {| row_ := row; pubKeyEncrypted := Slice P [];
                     privKeyEncrypted := Slice Q [] |}, None)).
Proof.
  split; [|split; [|split; [|split; [|split]]]].
  - intros accountID s Hlen. unfold deserializeAccountRow.
    destruct (Z.ltb_spec (len s) 5); [reflexivity | lia].
  - intros accountID s H1 H2 H3.
    apply CodecTheory.deserializeAccountRow_fits; lia.
  - apply deserializeAccountRow_layout.
  - intros accountID row Hlen. unfold deserializeHDAccountKey.
    destruct (Z.ltb_spec (len (rawData row)) 8); [reflexivity | lia].
  - apply CodecTheory.deserializeHDAccountKey_fits.
  - apply deserializeHDAccountKey_layout.
Qed.

Lemma deserialize_in_bounds_when_lengths_fit_witness :
  5 <= len sample.padded_row /\
  le32 (drop 1 (elems sample.padded_row)) <= len sample.padded_row - 5 /\
  5 + le32 (drop 1 (elems sample.padded_row)) < 2 ^ 32 /\
  deserializeAccountRow Nil sample.padded_row =
    Return (Some {| acctType := Byte.x07; rawData := Slice [Byte.xaa; Byte.xbb] [] |},
            None) /\
  8 <= len (rawData sample.padded_key_row) /\
  deserializeHDAccountKey Nil sample.padded_key_row =
    Return (Some {| row_ := sample.padded_key_row;
                    pubKeyEncrypted := Slice [Byte.x01; Byte.x02] [];
                    privKeyEncrypted := Slice [Byte.x09] [] |}, None) /\
  len (Slice [Byte.x00; Byte.x01] []) < 5 /\
  deserializeAccountRow (Slice [Byte.xab] []) (Slice [Byte.x00; Byte.x01] []) =
    Return (None, Some (ErrorsNew "malformed serialized account for key ab")).
Proof.
  destruct deserialize_in_bounds_when_lengths_fit as (H1 & H2 & _ & _ & H5 & _).
  assert (A1 : 5 <= len sample.padded_row) by discriminate.
  assert (A2 : le32 (drop 1 (elems sample.padded_row)) <= len sample.padded_row - 5)
    by discriminate.
  assert (A3 : 5 + le32 (drop 1 (elems sample.padded_row)) < 2 ^ 32) by reflexivity.
  assert (A4 : 8 <= len (rawData sample.padded_key_row)) by discriminate.
  assert (A5 : len (Slice [Byte.x00; Byte.x01] []) < 5) by reflexivity.
  split; [exact A1|]. split; [exact A2|]. split; [exact A3|].
  split; [exact (H2 Nil sample.padded_row A1 A2 A3)|].
  split; [exact A4|].
  split.
  - apply (H5 Nil sample.padded_key_row A4); [discriminate | discriminate | reflexivity].
  - split; [exact A5|]. exact (H1 (Slice [Byte.xab] []) _ A5).
Defined.

Lemma deserializeAccountRow_wraps (accountID : goslice) (tail : list byte) :
  Z.of_nat (length tail) = 2 ^ 32 - 1 ->
  let s := Slice (Byte.x00 :: Byte.xff :: Byte.xff :: Byte.xff :: Byte.xff :: tail) [] in
  5 <= len s /\ le32 (drop 1 (elems s)) <= len s - 5 /\
  deserializeAccountRow accountID s = Panic.
Proof.
  intros Ht s.
  assert (Hlen : len s = 5 + (2 ^ 32 - 1)).
  { unfold len, s. cbn [elems length]. lia. }
  assert (Hrd : le32 (drop 1 (elems s)) = 2 ^ 32 - 1).
  { unfold s. cbn [elems drop]. rewrite le32_cons4. reflexivity. }
  split; [lia|]. split; [lia|].
  unfold deserializeAccountRow.
  destruct (Z.ltb_spec (len s) 5) as [Hbad|_]; [lia|].
  assert (Hidx : index s 0 = Return Byte.x00).
  { unfold index. destruct (Z.ltb_spec 0 (len s)); [reflexivity | lia]. }
  rewrite Hidx. cbn [bind].
  destruct (reslice_within s 1 5) as (hdr & Hhdr & Ehdr); [lia|lia|lia|].
  rewrite Hhdr. cbn [bind].
  assert (Hu : LittleEndian.Uint32 hdr = Return (2 ^ 32 - 1)).
  { unfold LittleEndian.Uint32. rewrite Ehdr. unfold s. cbn [elems].
    change (Z.to_nat (5 - 1)) with 4%nat. change (Z.to_nat 1) with 1%nat.
    cbn [drop take]. reflexivity. }
  rewrite Hu. cbn [bind].
  change (uint32 (5 + (2 ^ 32 - 1))) with 4.
  unfold reslice. reflexivity.
Qed.

(** C10 as stated fails: for a row of [2^32 + 4] bytes that declares
    [rdlen = 2^32 - 1], which is [len(s) - 5], the bound [5+rdlen] wraps
    around to 4 in [uint32] and [s[5:4]] panics. *)
Lemma deserializeAccountRow_panics_on_long_row :
  5 <= len (Slice (Byte.x00 :: Byte.xff :: Byte.xff :: Byte.xff :: Byte.xff
                   :: repeat Byte.x00 (Z.to_nat 4294967295)) []) /\
  le32 (drop 1 (elems (Slice (Byte.x00 :: Byte.xff :: Byte.xff :: Byte.xff :: Byte.xff
                              :: repeat Byte.x00 (Z.to_nat 4294967295)) [])))
    <= len (Slice (Byte.x00 :: Byte.xff :: Byte.xff :: Byte.xff :: Byte.xff
                   :: repeat Byte.x00 (Z.to_nat 4294967295)) []) - 5 /\
  deserializeAccountRow Nil
    (Slice (Byte.x00 :: Byte.xff :: Byte.xff :: Byte.xff :: Byte.xff
            :: repeat Byte.x00 (Z.to_nat 4294967295)) []) = Panic.
Proof.
  apply (deserializeAccountRow_wraps Nil (repeat Byte.x00 (Z.to_nat 4294967295))).
  rewrite repeat_length. apply Z2Nat.id. discriminate.
Qed.

End RowTheory.

(** ** Records in a bucket *)

Lemma uint32ToBytes_returns (number : Z) :
  keystore.uint32ToBytes number = Return (Slice (LittleEndian.bytes_of_uint32 number) []).
Proof. reflexivity. Qed.

Lemma Uint32_bytes_of_uint32 (v : Z) (spare : list byte) :
  0 <= v < 2 ^ 32 ->
  LittleEndian.Uint32 (Slice (LittleEndian.bytes_of_uint32 v) spare) = Return v.
Proof.
  intros H.
  rewrite Uint32_le32
    by (unfold len; cbn [elems]; rewrite length_bytes_of_uint32; lia).
  cbn [elems]. rewrite <- (app_nil_r (LittleEndian.bytes_of_uint32 v)).
  f_equal. rewrite le32_bytes_of_uint32. now apply Z.mod_small.
Qed.

Module RecordsTheory.
Import db keystore.

Section AnyBucket.
Context {B : Type} `{!Bucket B}.

(** C7 (as amended).  When the keystore version record is absent ([Get]
    returns nil and no error) or empty, [fetchVersion] returns version 0 and
    a nil error; when [Get] fails it returns 0 and the error of [Get];
    otherwise it returns the first byte of the record. *)
Theorem fetchVersion_absent_is_zero (b : B) :
  (forall val, Get b keystoreVersionName = (val, None) -> len val = 0 ->
     fetchVersion b = Return (Byte.x00, None)) /\
  (forall val e, Get b keystoreVersionName = (val, Some e) ->
     fetchVersion b = Return (Byte.x00, Some e)) /\
  (forall val, Get b keystoreVersionName = (val, None) -> 0 < len val ->
     fetchVersion b = Return (hd Byte.x00 (elems val), None)).
Proof.
  split; [|split].
  - intros val Hget Hlen. unfold fetchVersion. rewrite Hget, Hlen. reflexivity.
  - intros val e Hget. unfold fetchVersion. rewrite Hget. reflexivity.
  - intros val Hget Hlen. unfold fetchVersion. rewrite Hget.
    destruct (Z.eqb_spec (len val) 0) as [E|_]; [lia|].
    rewrite bool_decide_eq_false_2 by (intros H; now apply H). cbn [orb].
    unfold index. destruct (Z.ltb_spec 0 (len val)); [|lia]. cbn [Z.leb andb].
    unfold len in Hlen. destruct (elems val); simpl in *; [lia | reflexivity].
Qed.

(** C8 (as amended).  [deserializeAccountRow] rejects every input shorter
    than 5 bytes with the malformed-serialized-account error, and so does
    [fetchAccountInfo] for a stored row shorter than 5 bytes, whatever its
    first byte.  For a stored row of at least 5 bytes whose declared raw-data
    length fits in the row (with [5 + rdlen < 2^32]) and whose leading type
    tag is not [accountMASS], [fetchAccountInfo] fails with the
    unsupported-account-type error. *)
Theorem account_row_malformed_or_unsupported :
  (forall accountID s : goslice,
     len s < 5 ->
     deserializeAccountRow accountID s =
     Return (None, Some (ErrorsNew ("malformed serialized account for key "
                                    +:+ fmt_x (elems accountID))))) /\
  (forall (b : B) (account : Z) (data : goslice) (err : option error),
     Get b (Slice (LittleEndian.bytes_of_uint32 account) []) = (data, err) ->
     is_nil data = false ->
     len data < 5 ->
     fetchAccountInfo b account =
     Return (None, Some (ErrorsNew ("malformed serialized account for key "
                                    +:+ fmt_x (LittleEndian.bytes_of_uint32 account))))) /\
  (forall (b : B) (account : Z) (data : goslice) (err : option error),
     Get b (Slice (LittleEndian.bytes_of_uint32 account) []) = (data, err) ->
     is_nil data = false ->
     5 <= len data ->
     le32 (drop 1 (elems data)) <= len data - 5 ->
     5 + le32 (drop 1 (elems data)) < 2 ^ 32 ->
     hd Byte.x00 (elems data) <> accountMASS ->
     fetchAccountInfo b account =
     Return (None, Some (ErrorsNew ("unsupported account type '"
                                    +:+ fmt_d (byte_to_Z (hd Byte.x00 (elems data)))
                                    +:+ "'")))).
Proof.
  assert (Hshort : forall accountID s : goslice,
     len s < 5 ->
     deserializeAccountRow accountID s =
     Return (None, Some (ErrorsNew ("malformed serialized account for key "
                                    +:+ fmt_x (elems accountID))))).
  { intros accountID s Hlen. unfold deserializeAccountRow.
    destruct (Z.ltb_spec (len s) 5); [reflexivity | lia]. }
  split; [exact Hshort|]. split.
  - intros b account data err Hget Hnil Hlen.
    unfold fetchAccountInfo. rewrite uint32ToBytes_returns. cbn [bind].
    rewrite Hget, Hnil, Hshort by exact Hlen. reflexivity.
  - intros b account data err Hget Hnil Hlen Hfit Hwrap Htag.
    unfold fetchAccountInfo. rewrite uint32ToBytes_returns. cbn [bind].
    rewrite Hget, Hnil.
    rewrite CodecTheory.deserializeAccountRow_fits by lia. cbn [bind acctType].
    now rewrite bool_decide_eq_false_2.
Qed.

(** What [fetchCryptoKeys] returns once the public key was read: never an
    error, whatever the two other calls of [Get] return. *)
Lemma fetchCryptoKeys_no_error_after_pubkey (b : B) (pub : goslice) :
  Get b cryptoPubKeyName = (pub, None) -> is_nil pub = false ->
  (fetchCryptoKeys b).2 = None.
Proof.
  intros Hget Hnil. unfold fetchCryptoKeys. rewrite Hget, Hnil.
  destruct (Get b cryptoPrivKeyName) as [v1 e1].
  destruct (Get b cryptoEntropyKeyName) as [v2 e2]. reflexivity.
Qed.

(** [fetchMasterKeyParams] returns the error of its second [Get]. *)
Lemma fetchMasterKeyParams_returns_Get_error (b : B) (pub val : goslice) (e : error) :
  Get b masterPubKeyName = (pub, None) -> is_nil pub = false ->
  Get b masterPrivKeyName = (val, Some e) ->
  fetchMasterKeyParams b = (Nil, Nil, Some e).
Proof.
  intros Hpub Hnil Hpriv. unfold fetchMasterKeyParams.
  now rewrite Hpub, Hnil, Hpriv.
Qed.

End AnyBucket.

Lemma fetchVersion_absent_is_zero_witness :
  Get (mem.healthy ∅) keystoreVersionName = (Nil, None) /\
  len Nil = 0 /\
  fetchVersion (mem.healthy ∅) = Return (Byte.x00, None) /\
  Get sample.unreadable_version_bucket keystoreVersionName = (Nil, Some sample.io_error) /\
  fetchVersion sample.unreadable_version_bucket = Return (Byte.x00, Some sample.io_error) /\
  Get sample.versioned_bucket keystoreVersionName = (Slice [Byte.x02] [], None) /\
  0 < len (Slice [Byte.x02] []) /\
  fetchVersion sample.versioned_bucket = Return (Byte.x02, None).
Proof.
  assert (G1 : Get (mem.healthy ∅) keystoreVersionName = (Nil, None)) by reflexivity.
  assert (G2 : Get sample.unreadable_version_bucket keystoreVersionName
               = (Nil, Some sample.io_error)) by reflexivity.
  assert (G3 : Get sample.versioned_bucket keystoreVersionName
               = (Slice [Byte.x02] [], None)) by reflexivity.
  assert (L1 : len Nil = 0) by reflexivity.
  assert (L3 : 0 < len (Slice [Byte.x02] [])) by reflexivity.
  split; [exact G1|]. split; [exact L1|].
  split; [exact (proj1 (fetchVersion_absent_is_zero (mem.healthy ∅)) Nil G1 L1)|].
  split; [exact G2|].
  split; [exact (proj1 (proj2 (fetchVersion_absent_is_zero
                   sample.unreadable_version_bucket)) Nil sample.io_error G2)|].
  split; [exact G3|]. split; [exact L3|].
  exact (proj2 (proj2 (fetchVersion_absent_is_zero sample.versioned_bucket))
           (Slice [Byte.x02] []) G3 L3).
Defined.

(** C7 as stated fails: in a bucket without the version record,
    [fetchVersion] returns version 0 and a nil error. *)
Lemma fetchVersion_absent_returns_no_error :
  Get (mem.healthy ∅) keystoreVersionName = (Nil, None) /\
  fetchVersion (mem.healthy ∅) = Return (Byte.x00, None).
Proof. split; reflexivity. Qed.

Lemma account_row_malformed_or_unsupported_witness :
  len (Slice [Byte.x01] []) < 5 /\
  deserializeAccountRow (Slice sample.key0 []) (Slice [Byte.x01] []) =
    Return (None, Some (ErrorsNew "malformed serialized account for key 00000000")) /\
  fetchAccountInfo sample.short_row_bucket 0 =
    Return (None, Some (ErrorsNew "malformed serialized account for key 00000000")) /\
  fetchAccountInfo sample.foreign_row_bucket 0 =
    Return (None, Some (ErrorsNew "unsupported account type '1'")).
Proof.
  destruct (@account_row_malformed_or_unsupported mem.memBucket _) as (H1 & H2 & H3).
  assert (A1 : len (Slice [Byte.x01] []) < 5) by reflexivity.
  split; [exact A1|].
  split; [exact (H1 (Slice sample.key0 []) (Slice [Byte.x01] []) A1)|].
  split.
  - apply (H2 sample.short_row_bucket 0 (Slice [Byte.x01] []) None);
      reflexivity.
  - apply (H3 sample.foreign_row_bucket 0
             (Slice [Byte.x01; Byte.x00; Byte.x00; Byte.x00; Byte.x00] []) None);
      try reflexivity; discriminate.
Defined.

(** C8 as stated fails: a stored row whose leading tag is [0x01], not
    [accountMASS], but which is shorter than 5 bytes, makes
    [fetchAccountInfo] fail with the malformed-record error, not with the
    unsupported-account-type error. *)
Lemma short_row_with_foreign_tag_is_malformed :
  Get sample.short_row_bucket (Slice sample.key0 []) = (Slice [Byte.x01] [], None) /\
  hd Byte.x00 [Byte.x01] <> accountMASS /\
  fetchAccountInfo sample.short_row_bucket 0 =
    Return (None, Some (ErrorsNew "malformed serialized account for key 00000000")) /\
  fetchAccountInfo sample.short_row_bucket 0 <>
    Return (None, Some (ErrorsNew "unsupported account type '1'")).
Proof.
  split; [reflexivity|]. split; [discriminate|]. split; [reflexivity|].
  vm_compute. discriminate.
Qed.

(** C6, the code at the failing inputs.  Reading the crypto private key and
    the entropy key fails, and [fetchCryptoKeys] returns the public key, two
    nil keys and a nil error.  Reading the account usage fails, and
    [fetchAccountUsage] returns the error of a record that is not stored;
    reading the account row fails, and [fetchAccountInfo] returns the error
    of an account that is not found: neither carries the error of [Get].
    [fetchMasterKeyParams], written like [fetchCryptoKeys], does return the
    error of reading the private parameters. *)
Theorem fetch_functions_drop_Get_errors :
  Get sample.crypto_bucket cryptoPrivKeyName = (Nil, Some sample.io_error) /\
  Get sample.crypto_bucket cryptoEntropyKeyName = (Nil, Some sample.io_error) /\
  fetchCryptoKeys sample.crypto_bucket = (Slice [Byte.xaa] [], Nil, Nil, None) /\
  Get sample.account_bucket accountUsageName = (Nil, Some sample.io_error) /\
  fetchAccountUsage sample.account_bucket =
    Return (0, Some (ErrorsNew "required account usage not stored in database")) /\
  Get sample.account_bucket (Slice sample.key0 []) = (Nil, Some sample.io_error) /\
  fetchAccountInfo sample.account_bucket 0 =
    Return (None, Some (ErrorsNew "account 0 not found")) /\
  Get sample.master_bucket masterPrivKeyName = (Nil, Some sample.io_error) /\
  fetchMasterKeyParams sample.master_bucket = (Nil, Nil, Some sample.io_error).
Proof.
  repeat split.
Qed.

End RecordsTheory.

(** ** Branch child-index counters *)

Module ChildNumTheory.
Import db keystore.

Section Lawful.
Context {B : Type} `{LawfulBucket B}.

Lemma Put_uint32_read (b b' : B) (k : goslice) (v : Z) :
  0 <= v < 2 ^ 32 ->
  Put b k (Slice (LittleEndian.bytes_of_uint32 v) []) = (None, b') ->
  exists val, Get b' k = (val, None) /\ is_nil val = false /\
              LittleEndian.Uint32 val = Return v.
Proof.
  intros Hv Hput.
  destruct (Get_Put_same b b' k _ Hput) as (spare & Hget).
  { unfold len. cbn [elems]. rewrite length_bytes_of_uint32. lia. }
  eexists. split; [exact Hget|]. split; [reflexivity|].
  cbn [elems]. now apply Uint32_bytes_of_uint32.
Qed.




End Lawful.

#[global] Instance store_Lawful : LawfulBucket (gmap (list byte) (list byte)).
Proof.
  split.
  - intros b b' k v. cbn [Put Get mem.store_Bucket].
    unfold mem.store_Put, mem.store_Get.
    intros Hput _. injection Hput as <-. exists []. now rewrite lookup_insert_eq.
  - intros b b' k v k'. cbn [Put Get mem.store_Bucket].
    unfold mem.store_Put, mem.store_Get.
    intros Hput Hne. injection Hput as <-. rewrite lookup_insert_ne; [reflexivity|].
    intros E. now apply Hne.
Qed.




End ChildNumTheory.

(** ** [SetLimits] *)

Module LimitsTheory.
Import limits.

Section AnySystem.
Context {W : Type} (sys : Sys W).

(** X1.  Whatever the system calls answer, [SetLimits] calls [Setrlimit] at
    most twice, and every request keeps the hard limit that [Getrlimit]
    reported and asks for a soft limit between 2048 and the smaller of that
    hard limit and 4096; the first request asks for exactly that smaller
    value.  It makes no request at all when [Getrlimit] fails, when the soft
    limit is already above 4096 (it then returns nil), or when the hard limit
    is below 2048 (it then returns the error
    [need at least 2048 file descriptors]).  Recording the requests does not
    change what [SetLimits] returns. *)
Theorem SetLimits_requests_within_hard_limit (w : W) :
  let '((r, err), w1) := Getrlimit sys w in
  let '(ret, (w', log)) := SetLimits (recording sys) (w, []) in
  (ret, w') = SetLimits sys w /\
  (length log <= 2)%nat /\
  Forall (fun req => Max req = Max r /\ fileLimitMin <= Cur req <= Max req /\
                     Cur req <= fileLimitWant) log /\
  match err with
  | Some e => ret = Some e /\ w' = w1 /\ log = []
  | None =>
      (fileLimitWant < Cur r -> ret = None /\ w' = w1 /\ log = []) /\
      (Cur r <= fileLimitWant -> Max r < fileLimitMin ->
       ret = Some (ErrorsNew "need at least 2048 file descriptors") /\
       w' = w1 /\ log = []) /\
      (Cur r <= fileLimitWant -> fileLimitMin <= Max r ->
       hd_error log = Some {| Cur := Z.min (Max r) fileLimitWant; Max := Max r |})
  end.
Proof.
  unfold SetLimits. cbn [Getrlimit Setrlimit recording].
  destruct (Getrlimit sys w) as [[r [e|]] w1].
  { repeat split; [cbn; lia | constructor]. }
  destruct (Z.ltb_spec fileLimitWant (Cur r)) as [Hhigh|Hlow].
  { repeat split; try (cbn; lia); try constructor; intros; lia. }
  destruct (Z.ltb_spec (Max r) fileLimitMin) as [Hmin|Hmin].
  { repeat split; try (cbn; lia); try constructor; intros; lia. }
  cbv zeta.
  assert (Hfirst : (if Max r <? fileLimitWant
                    then {| Cur := Max r; Max := Max r |}
                    else {| Cur := fileLimitWant; Max := Max r |})
                   = {| Cur := Z.min (Max r) fileLimitWant; Max := Max r |}).
  { destruct (Z.ltb_spec (Max r) fileLimitWant).
    - now rewrite Z.min_l by lia.
    - now rewrite Z.min_r by lia. }
  rewrite Hfirst. cbn [Cur Max].
  assert (Hb : fileLimitMin <= Z.min (Max r) fileLimitWant <= Max r /\
               Z.min (Max r) fileLimitWant <= fileLimitWant)
    by (unfold fileLimitMin, fileLimitWant in *; lia).
  destruct (Setrlimit sys _ w1) as [[e1|] w2]; cbn [app].
  - destruct (Setrlimit sys _ w2) as [[e2|] w3]; cbn [app].
    + split; [reflexivity|]. split; [cbn; lia|]. split.
      * repeat constructor; cbn [Cur Max]; unfold fileLimitMin, fileLimitWant in *; lia.
      * split; [intros; lia|]. split; [intros; lia|]. reflexivity.
    + split; [reflexivity|]. split; [cbn; lia|]. split.
      * repeat constructor; cbn [Cur Max]; unfold fileLimitMin, fileLimitWant in *; lia.
      * split; [intros; lia|]. split; [intros; lia|]. reflexivity.
  - split; [reflexivity|]. split; [cbn; lia|]. split.
    + repeat constructor; cbn [Cur Max]; lia.
    + split; [intros; lia|]. split; [intros; lia|]. reflexivity.
Qed.

End AnySystem.
End LimitsTheory.

(** ** [IsPrefix] *)

Module IsPrefixTheory.
Import storage.

Lemma storage_Limit_limit_of (p : list byte) :
  Limit (BytesPrefix p) = limit_of p.
Proof.
  unfold BytesPrefix. cbn [Limit].
  rewrite BytesPrefixTheory.storage_BytesPrefix_loop_same.
  rewrite BytesPrefixTheory.BytesPrefix_loop_take by lia. now rewrite firstn_all.
Qed.

(** A limit is not empty and does not end with a zero byte. *)
Lemma limit_of_last (p l : list byte) :
  limit_of p = Some l -> exists a c, l = a ++ [c] /\ 0 < byte_to_Z c.
Proof.
  revert l. induction p as [|x p IH]; intros l; simpl; [discriminate|].
  destruct (limit_of p) as [l'|].
  - intros H. injection H as <-.
    destruct (IH l' eq_refl) as (a & c & -> & Hc).
    exists (x :: a), c. split; [reflexivity | exact Hc].
  - destruct (Z.ltb_spec (byte_to_Z x) 255) as [Hlt|Hge]; [|discriminate].
    intros H. injection H as <-.
    exists [], (byte_of_Z (byte_to_Z x + 1)). split; [reflexivity|].
    pose proof (byte_to_Z_range x). rewrite byte_to_of_Z, Z.mod_small; lia.
Qed.

Lemma zero_padded_last (a e : list byte) (c : byte) (n : nat) :
  a ++ [c] = e ++ repeat Byte.x00 n -> 0 < byte_to_Z c -> n = 0%nat.
Proof.
  intros Heq Hc. destruct n as [|n]; [reflexivity|]. exfalso.
  replace (repeat Byte.x00 (S n)) with (repeat Byte.x00 n ++ [Byte.x00]) in Heq
    by (now rewrite <- repeat_cons).
  rewrite app_assoc in Heq. apply app_inj_tail in Heq as [_ ->].
  vm_compute in Hc. discriminate.
Qed.

Lemma IsPrefix_spec (r : Range) :
  IsPrefix r = true <->
  exists n : nat,
    contents (Limit r) = contents (limit_of (Start r)) ++ repeat Byte.x00 n.
Proof.
  unfold IsPrefix. cbv zeta. rewrite storage_Limit_limit_of.
  set (E := contents (limit_of (Start r))).
  set (A := contents (Limit r)).
  assert (HE : (limit_of (Start r) = None /\ E = []) \/
               exists a c, E = a ++ [c] /\ 0 < byte_to_Z c).
  { unfold E. destruct (limit_of (Start r)) as [l|] eqn:El.
    - right. now apply (limit_of_last (Start r)).
    - left. now split. }
  destruct (Nat.ltb_spec (length E) (length A)) as [Hlt|Hge].
  - unfold padded. fold E. rewrite take_ge by lia.
    rewrite bool_decide_eq_true. split.
    + intros H. exists (length A - length E)%nat. now symmetry.
    + intros [n Hn]. rewrite Hn at 2. do 2 f_equal.
      apply (f_equal length) in Hn. rewrite length_app, repeat_length in Hn. lia.
  - destruct (Nat.ltb_spec (length A) (length E)) as [Hlt|Hge'].
    + unfold padded. fold A. rewrite take_ge by lia.
      rewrite bool_decide_eq_true. split.
      * intros H. exfalso.
        destruct HE as [[_ HE]|(a & c & HE & Hc)].
        -- rewrite HE in Hlt. simpl in Hlt. lia.
        -- pose proof (zero_padded_last a A c _ (eq_trans (eq_sym HE) H) Hc). lia.
      * intros [n Hn]. exfalso.
        apply (f_equal length) in Hn. rewrite length_app in Hn. lia.
    + rewrite bool_decide_eq_true. split.
      * intros H. exists 0%nat. now rewrite app_nil_r.
      * intros [n Hn].
        assert (n = 0%nat).
        { apply (f_equal length) in Hn. rewrite length_app, repeat_length in Hn. lia. }
        subst n. now rewrite app_nil_r in Hn.
Qed.

(** X2.  The range that [BytesPrefix] builds for a prefix is recognised by
    [IsPrefix], for every prefix: the empty one and those made of [0xff]
    bytes only, whose limit is nil, included. *)
Theorem IsPrefix_accepts_BytesPrefix (prefix : list byte) :
  IsPrefix (BytesPrefix prefix) = true.
Proof.
  apply IsPrefix_spec. exists 0%nat. cbn [repeat].
  now rewrite app_nil_r, storage_Limit_limit_of.
Qed.

(** X3.  [IsPrefix] compares the limit of the range with the limit of
    [BytesPrefix(Start)] after padding the shorter of the two with zero
    bytes.  As the limit of a prefix never ends with a zero byte, it accepts
    exactly the ranges whose limit is that limit followed by any number of
    zero bytes; a nil limit counts as an empty one. *)
Theorem IsPrefix_iff_zero_padded_limit (r : Range) :
  IsPrefix r = true <->
  exists n : nat,
    contents (Limit r) =
    contents (Limit (BytesPrefix (Start r))) ++ repeat Byte.x00 n.
Proof.
  rewrite storage_Limit_limit_of. apply IsPrefix_spec.
Qed.

End IsPrefixTheory.

(** ** Writing and checking the version stamp *)

Module StampTheory.
Import storage.

Section AnyEnv.
Context {W File : Type} (env : Env W File).

(** X4.  [CheckVersion(dbtype, path, false)] returns nil only when the stamp
    file was opened, its size taken, and its content read and decoded, all
    without error, and the decoded stamp records the current version and the
    type [dbtype]; the file is then closed. *)
Theorem CheckVersion_nil_only_for_matching_stamp (dbtype storPath : string) (w w' : W) :
  CheckVersion env dbtype storPath false w = (None, w') ->
  exists fi w1 size w2 buf w3 ver,
    os_Open env (filepath_Join env storPath ".ver") w = ((fi, None), w1) /\
    File_Stat_Size env fi w1 = ((size, None), w2) /\
    binary_Read env fi size w2 = ((buf, None), w3) /\
    json_Unmarshal env buf = (ver, None) /\
    Version ver = CurrentStorageVersion /\
    Dbtype ver = dbtype /\
    w' = File_Close env fi w3.
Proof.
  unfold CheckVersion.
  destruct (os_Open env _ w) as [[fi err] w1] eqn:Hopen.
  destruct (os_IsNotExist env err); [discriminate|].
  destruct err as [e|]; [discriminate|].
  destruct (File_Stat_Size env fi w1) as [[size [e|]] w2] eqn:Hstat; [discriminate|].
  destruct (binary_Read env fi size w2) as [[buf [e|]] w3] eqn:Hread; [discriminate|].
  destruct (json_Unmarshal env buf) as [ver [e|]] eqn:Hjson; [discriminate|].
  destruct (Z.eqb_spec (Version ver) CurrentStorageVersion) as [Ev|Nv];
    [|discriminate].
  destruct (String.eqb_spec (Dbtype ver) dbtype) as [Et|Nt]; [|discriminate].
  cbn [andb]. intros H. injection H as <-.
  exists fi, w1, size, w2, buf, w3, ver. repeat split; assumption.
Qed.

(** X5.  A stamp written by [CheckVersion(dbtype, path, true)] passes the
    check for [dbtype] and fails it, with [ErrVersionCheckFailed], for every
    other type: provided the stamp file can be created and written, is then
    found, and reading it returns the bytes written, which decode to the
    stamp that was encoded. *)
Theorem CheckVersion_create_then_check (dbtype other storPath : string)
  (w w1 w2 w4 w5 w6 : W) (fo fi : File) (b : list byte) :
  let verFile := filepath_Join env storPath ".ver" in
  let stamp := {| Dbtype := dbtype; Version := CurrentStorageVersion |} in
  os_Create env verFile w = ((fo, None), w1) ->
  json_Marshal env stamp = (b, None) ->
  binary_Write env fo b w1 = (None, w2) ->
  os_Open env verFile (File_Close env fo w2) = ((fi, None), w4) ->
  os_IsNotExist env None = false ->
  File_Stat_Size env fi w4 = ((Z.of_nat (length b), None), w5) ->
  binary_Read env fi (Z.of_nat (length b)) w5 = ((b, None), w6) ->
  json_Unmarshal env b = (stamp, None) ->
  CheckVersion env dbtype storPath true w = (None, File_Close env fo w2) /\
  CheckVersion env dbtype storPath false (File_Close env fo w2) =
    (None, File_Close env fi w6) /\
  (other <> dbtype ->
   CheckVersion env other storPath false (File_Close env fo w2) =
     (Some ErrVersionCheckFailed, File_Close env fi w6)).
Proof.
  intros verFile stamp Hcreate Hmarshal Hwrite Hopen Hne Hstat Hread Hjson.
  split; [|split].
  - unfold CheckVersion. fold verFile. rewrite Hcreate. fold stamp.
    now rewrite Hmarshal, Hwrite.
  - unfold CheckVersion. fold verFile.
    rewrite Hopen, Hne, Hstat, Hread, Hjson. cbn [Version Dbtype stamp].
    now rewrite Z.eqb_refl, String.eqb_refl.
  - intros Hother. unfold CheckVersion. fold verFile.
    rewrite Hopen, Hne, Hstat, Hread, Hjson. cbn [Version Dbtype stamp].
    rewrite Z.eqb_refl. cbn [andb].
    destruct (String.eqb_spec dbtype other) as [E|N]; [congruence | reflexivity].
Qed.

End AnyEnv.

Lemma CheckVersion_nil_only_for_matching_stamp_witness :
  CheckVersion mem.mem_env "other" "/data" false sample.stamped_other =
    (None, sample.stamped_other) /\
  exists fi w1 size w2 buf w3 ver,
    os_Open mem.mem_env (filepath_Join mem.mem_env "/data" ".ver")
      sample.stamped_other = ((fi, None), w1) /\
    File_Stat_Size mem.mem_env fi w1 = ((size, None), w2) /\
    binary_Read mem.mem_env fi size w2 = ((buf, None), w3) /\
    json_Unmarshal mem.mem_env buf = (ver, None) /\
    Version ver = CurrentStorageVersion /\
    Dbtype ver = "other" /\
    sample.stamped_other = File_Close mem.mem_env fi w3.
Proof.
  assert (H : CheckVersion mem.mem_env "other" "/data" false sample.stamped_other =
              (None, sample.stamped_other)) by reflexivity.
  split; [exact H|].
  exact (CheckVersion_nil_only_for_matching_stamp mem.mem_env "other" "/data"
           sample.stamped_other sample.stamped_other H).
Defined.

Lemma CheckVersion_create_then_check_witness :
  CheckVersion mem.mem_env "other" "/data" true ∅ = (None, sample.stamped_other) /\
  CheckVersion mem.mem_env "other" "/data" false sample.stamped_other =
    (None, sample.stamped_other) /\
  CheckVersion mem.mem_env "leveldb" "/data" false sample.stamped_other =
    (Some ErrVersionCheckFailed, sample.stamped_other).
Proof.
  assert (Hne : "leveldb" <> "other") by discriminate.
  destruct (CheckVersion_create_then_check mem.mem_env "other" "leveldb" "/data"
              ∅ (<["/data/.ver" := []]> ∅) sample.stamped_other
              sample.stamped_other sample.stamped_other sample.stamped_other
              "/data/.ver" "/data/.ver" (Byte.x01 :: list_byte_of_string "other")
              eq_refl eq_refl eq_refl eq_refl eq_refl eq_refl eq_refl eq_refl)
    as (H1 & H2 & H3).
  split; [exact H1|]. split; [exact H2 | exact (H3 Hne)].
Defined.

End StampTheory.

(** ** [View] *)

Module ViewTheory.
Import db.

Section View.
Context {DBTransaction ReadTransaction W : Type}.
Variable h : handler DBTransaction ReadTransaction W.

(** X6.  Against every implementation of the interfaces and every body,
    [View] first calls [BeginReadTx].  When that fails it returns the error
    and calls nothing else.  Otherwise it calls the body once and then
    [Rollback] on the read transaction once, whether the body failed or not,
    and returns what the body returned: the result of [Rollback] is dropped.
    It never commits and never rolls back a write transaction. *)
Theorem View_rolls_back_after_body (w : W) :
  let '(tx, err, w1) := h _ BeginReadTx w in
  let '(ret, w', evs) := run h (View DBTransaction ReadTransaction) w in
  match err with
  | Some e => ret = Some e /\ w' = w1 /\ evs = [EvBeginReadTx]
  | None =>
      let '(berr, w2) := h _ (ViewBody tx) w1 in
      ret = berr /\ w' = snd (h _ (ReadRollback tx) w2) /\
      evs = [EvBeginReadTx; EvViewBody tx; EvReadRollback tx] /\
      count is_commit evs = 0%nat /\ count is_rollback evs = 0%nat
  end.
Proof.
  unfold View. simpl run.
  destruct (h _ BeginReadTx w) as [[tx [e|]] w1]; simpl.
  - repeat split; reflexivity.
  - destruct (h _ (ViewBody tx) w1) as [berr w2]; simpl.
    destruct (h _ (ReadRollback tx) w2) as [r w3]; simpl.
    repeat split; reflexivity.
Qed.

End View.
End ViewTheory.

(** ** Ranges of two prefixes *)

Module RangeTheory.
Import db.

(** X7.  A prefix lies in its own range.  The range of a prefix contains the
    range of each of its extensions, and the ranges of two prefixes have a
    key in common only when one of the two is a prefix of the other: the
    ranges of unrelated prefixes are disjoint. *)
Theorem prefix_ranges_nest_or_are_disjoint (P Q K : list byte) :
  in_range (BytesPrefix P) P /\
  (P `prefix_of` Q -> in_range (BytesPrefix Q) K -> in_range (BytesPrefix P) K) /\
  (in_range (BytesPrefix P) K -> in_range (BytesPrefix Q) K ->
   P `prefix_of` Q \/ Q `prefix_of` P).
Proof.
  assert (Hin : forall p k : list byte, p `prefix_of` k <-> in_range (BytesPrefix p) k).
  { intros p k. unfold in_range. rewrite BytesPrefixTheory.BytesPrefix_Limit.
    apply BytesPrefixTheory.prefix_iff_in_range. }
  split; [now apply Hin|]. split.
  - intros HPQ HQ. apply Hin. apply Hin in HQ. now transitivity Q.
  - intros HP HQ. apply Hin in HP, HQ. exact (prefix_weak_total P Q K HP HQ).
Qed.

Lemma prefix_ranges_nest_or_are_disjoint_witness :
  [Byte.x01] `prefix_of` [Byte.x01; Byte.x02] /\
  in_range (BytesPrefix [Byte.x01; Byte.x02]) [Byte.x01; Byte.x02; Byte.x03] /\
  in_range (BytesPrefix [Byte.x01]) [Byte.x01; Byte.x02; Byte.x03] /\
  ([Byte.x01] `prefix_of` [Byte.x01; Byte.x02] \/
   [Byte.x01; Byte.x02] `prefix_of` [Byte.x01]).
Proof.
  destruct (prefix_ranges_nest_or_are_disjoint
              [Byte.x01] [Byte.x01; Byte.x02] [Byte.x01; Byte.x02; Byte.x03])
    as (_ & Hnest & Hdisj).
  assert (HPQ : [Byte.x01] `prefix_of` [Byte.x01; Byte.x02])
    by (exists [Byte.x02]; reflexivity).
  assert (HQ : in_range (BytesPrefix [Byte.x01; Byte.x02])
                        [Byte.x01; Byte.x02; Byte.x03]).
  { split; [discriminate | reflexivity]. }
  split; [exact HPQ|]. split; [exact HQ|].
  split; [exact (Hnest HPQ HQ)|]. exact (Hdisj (Hnest HPQ HQ) HQ).
Defined.

End RangeTheory.

(** ** Slice expressions up to the capacity *)

Lemma cap_len (s : goslice) : len s <= cap s.
Proof.
  unfold len, cap. destruct s as [|e sp]; simpl; [lia|]. rewrite length_app. lia.
Qed.

Lemma reslice_Return (s : goslice) (lo hi : Z) :
  0 <= lo -> lo <= hi -> hi <= cap s -> 0 < cap s ->
  reslice s lo hi =
  Return (Slice (take (Z.to_nat (hi - lo)) (drop (Z.to_nat lo) (backing s)))
                (drop (Z.to_nat hi) (backing s))).
Proof.
  intros H0 H1 H2 Hc. unfold reslice.
  destruct (Z.leb_spec 0 lo); [|lia]. destruct (Z.leb_spec lo hi); [|lia].
  destruct (Z.leb_spec hi (cap s)); [|lia]. cbn [andb].
  destruct s as [|e sp]; [|reflexivity]. unfold cap in Hc. simpl in Hc. lia.
Qed.

Lemma reslice_Panic (s : goslice) (lo hi : Z) :
  hi < lo \/ cap s < hi -> reslice s lo hi = Panic.
Proof.
  intros H. unfold reslice.
  destruct (Z.leb_spec 0 lo); [|reflexivity].
  destruct (Z.leb_spec lo hi); [|reflexivity].
  destruct (Z.leb_spec hi (cap s)); [lia | reflexivity].
Qed.

Lemma le32_prefix (l r : list byte) :
  (4 <= length l)%nat -> le32 (l ++ r) = le32 l.
Proof.
  intros H. destruct l as [|b0 [|b1 [|b2 [|b3 rest]]]]; simpl in H; try lia.
  reflexivity.
Qed.

Lemma le32_backing (s : goslice) : 4 <= len s -> le32 (backing s) = le32 (elems s).
Proof.
  unfold len. destruct s as [|e sp]; [reflexivity|]. cbn [backing elems].
  intros H. apply le32_prefix. lia.
Qed.

Lemma index_0 (s : goslice) : 0 < len s -> index s 0 = Return (hd Byte.x00 (elems s)).
Proof.
  intros Hlen. unfold index. destruct (Z.ltb_spec 0 (len s)); [|lia]. simpl.
  unfold len in Hlen. destruct (elems s); simpl in *; [lia | reflexivity].
Qed.

Lemma Uint32_take4 (l sp : list byte) :
  (4 <= length l)%nat ->
  LittleEndian.Uint32 (Slice (take 4 l) sp) = Return (le32 l).
Proof.
  intros H. rewrite Uint32_le32.
  - cbn [elems]. now rewrite le32_take.
  - unfold len. cbn [elems]. rewrite length_take. lia.
Qed.

Lemma Uint32_short (val : goslice) : len val < 4 -> LittleEndian.Uint32 val = Panic.
Proof.
  unfold len, LittleEndian.Uint32.
  destruct (elems val) as [|b0 [|b1 [|b2 [|b3 rest]]]]; simpl; intros; try reflexivity.
  lia.
Qed.

Lemma uint32_wrap (z : Z) : 2 ^ 32 <= z < 2 * 2 ^ 32 -> uint32 z = z - 2 ^ 32.
Proof.
  intros H. unfold uint32.
  replace z with ((z - 2 ^ 32) + 1 * 2 ^ 32) at 1 by lia.
  rewrite Z.mod_add by lia. apply Z.mod_small. lia.
Qed.

Lemma clone_elems (val : goslice) : keystore.clone val = Slice (elems val) [].
Proof.
  unfold keystore.clone. f_equal. apply copy_same_length.
  unfold make, len. cbn [elems]. rewrite repeat_length. lia.
Qed.

Lemma len_pos_not_nil (s : goslice) : 0 < len s -> is_nil s = false.
Proof. destruct s; [unfold len; simpl; lia | reflexivity]. Qed.

(** ** [uint32ToBytes] *)

Module WordTheory.
Import keystore.

(** X8.  For a 32-bit number, [uint32ToBytes] returns a fresh slice of
    length and capacity 4 holding the number least significant byte first,
    from which [binary.LittleEndian.Uint32] reads the number back; two
    different numbers have different encodings. *)
Theorem uint32ToBytes_roundtrip (number other : Z) :
  0 <= number < 2 ^ 32 -> 0 <= other < 2 ^ 32 ->
  (exists buf,
     uint32ToBytes number = Return buf /\
     is_nil buf = false /\ len buf = 4 /\ cap buf = 4 /\
     elems buf =
       map byte_of_Z [number; number / 2 ^ 8; number / 2 ^ 16; number / 2 ^ 24] /\
     LittleEndian.Uint32 buf = Return number) /\
  (uint32ToBytes number = uint32ToBytes other -> number = other).
Proof.
  intros Hn Ho. split.
  - eexists. split; [apply uint32ToBytes_returns|].
    split; [reflexivity|]. split; [reflexivity|]. split; [reflexivity|]. split.
    + cbn [elems map]. unfold LittleEndian.bytes_of_uint32.
      now rewrite !Z.shiftr_div_pow2 by lia.
    + now apply Uint32_bytes_of_uint32.
  - rewrite (uint32ToBytes_returns number), (uint32ToBytes_returns other). intros H.
    assert (E : LittleEndian.bytes_of_uint32 number = LittleEndian.bytes_of_uint32 other)
      by congruence.
    pose proof (Uint32_bytes_of_uint32 number [] Hn) as E1.
    rewrite E, Uint32_bytes_of_uint32 in E1 by exact Ho. now injection E1.
Qed.

Lemma uint32ToBytes_roundtrip_witness :
  0 <= 1 < 2 ^ 32 /\ 0 <= 258 < 2 ^ 32 /\
  exists buf,
    uint32ToBytes 1 = Return buf /\
    is_nil buf = false /\ len buf = 4 /\ cap buf = 4 /\
    elems buf = [Byte.x01; Byte.x00; Byte.x00; Byte.x00] /\
    LittleEndian.Uint32 buf = Return 1.
Proof.
  assert (H1 : 0 <= 1 < 2 ^ 32) by lia.
  assert (H2 : 0 <= 258 < 2 ^ 32) by lia.
  split; [exact H1|]. split; [exact H2|].
  exact (proj1 (uint32ToBytes_roundtrip 1 258 H1 H2)).
Defined.

End WordTheory.

(** ** Account rows in slices with spare capacity *)

Module AccountRowTheory.
Import db keystore.

Lemma deserializeAccountRow_within_cap (accountID s : goslice) :
  5 <= len s ->
  5 + le32 (drop 1 (elems s)) <= cap s ->
  5 + le32 (drop 1 (elems s)) < 2 ^ 32 ->
  deserializeAccountRow accountID s =
  Return (Some {| acctType := hd Byte.x00 (elems s);
                  rawData := Slice (take (Z.to_nat (le32 (drop 1 (elems s))))
                                         (drop 5 (backing s))) [] |},
          None).
Proof.
  intros Hlen Hfit Hwrap.
  pose proof (le32_range (drop 1 (elems s))) as Hr.
  pose proof (cap_len s) as Hcap.
  set (rdlen := le32 (drop 1 (elems s))) in *.
  unfold deserializeAccountRow.
  destruct (Z.ltb_spec (len s) 5) as [Hbad|_]; [lia|].
  rewrite index_0 by lia. cbn [bind].
  destruct (reslice_within s 1 5) as (hdr & Hhdr & Ehdr); [lia|lia|lia|].
  rewrite Hhdr. cbn [bind].
  assert (Hlh : len hdr = 4).
  { unfold len. rewrite Ehdr, length_take, length_drop. unfold len in Hlen. lia. }
  rewrite (Uint32_le32 hdr) by lia. cbn [bind].
  rewrite Ehdr. change (Z.to_nat (5 - 1)) with 4%nat. change (Z.to_nat 1) with 1%nat.
  rewrite le32_take by lia. fold rdlen.
  rewrite (uint32_small (5 + rdlen)) by lia.
  rewrite (reslice_Return s 5 (5 + rdlen)) by lia. cbn [bind elems].
  replace (Z.to_nat (5 + rdlen - 5)) with (Z.to_nat rdlen) by lia.
  change (Z.to_nat 5) with 5%nat.
  rewrite copy_same_length; [reflexivity|].
  unfold make. cbn [elems]. rewrite repeat_length, length_take, length_drop.
  unfold cap in Hfit. lia.
Qed.

Lemma deserializeAccountRow_beyond_cap (accountID s : goslice) :
  5 <= len s ->
  cap s < 5 + le32 (drop 1 (elems s)) \/ 2 ^ 32 <= 5 + le32 (drop 1 (elems s)) ->
  deserializeAccountRow accountID s = Panic.
Proof.
  intros Hlen Hbad.
  pose proof (le32_range (drop 1 (elems s))) as Hr.
  set (rdlen := le32 (drop 1 (elems s))) in *.
  unfold deserializeAccountRow.
  destruct (Z.ltb_spec (len s) 5) as [Hshort|_]; [lia|].
  rewrite index_0 by lia. cbn [bind].
  destruct (reslice_within s 1 5) as (hdr & Hhdr & Ehdr); [lia|lia|lia|].
  rewrite Hhdr. cbn [bind].
  assert (Hlh : len hdr = 4).
  { unfold len. rewrite Ehdr, length_take, length_drop. unfold len in Hlen. lia. }
  rewrite (Uint32_le32 hdr) by lia. cbn [bind].
  rewrite Ehdr. change (Z.to_nat (5 - 1)) with 4%nat. change (Z.to_nat 1) with 1%nat.
  rewrite le32_take by lia. fold rdlen.
  rewrite reslice_Panic; [reflexivity|].
  destruct (Z.le_gt_cases (2 ^ 32) (5 + rdlen)) as [Hw|Hw].
  - left. rewrite uint32_wrap by lia. lia.
  - right. rewrite uint32_small by lia. lia.
Qed.

(** X9.  [serializeAccountRow] never panics: for every row it returns a
    fresh slice of [5 + len(rawData)] bytes that starts with the type of the
    row.  When [5 + len(rawData) < 2^32], [deserializeAccountRow] applied to
    that slice returns a row of the same type, whatever the type, with the
    same raw data in a non-nil slice. *)
Theorem AccountRow_roundtrip (accountID : goslice) (row : dbAccountRow) :
  (exists buf, serializeAccountRow row = Return buf /\
               len buf = 5 + len (rawData row) /\ cap buf = len buf /\
               index buf 0 = Return (acctType row)) /\
  (5 + len (rawData row) < 2 ^ 32 ->
   exists buf row',
     serializeAccountRow row = Return buf /\
     deserializeAccountRow accountID buf = Return (Some row', None) /\
     acctType row' = acctType row /\
     elems (rawData row') = elems (rawData row) /\
     is_nil (rawData row') = false).
Proof.
  pose proof (len_nonneg (rawData row)) as Hr.
  split.
  - eexists. split; [apply CodecTheory.serializeAccountRow_layout|].
    assert (Hl : len (Slice (acctType row
                   :: LittleEndian.bytes_of_uint32 (uint32 (len (rawData row)))
                   ++ elems (rawData row)) []) = 5 + len (rawData row)).
    { unfold len. cbn [elems length]. rewrite length_app, length_bytes_of_uint32. lia. }
    split; [exact Hl|]. split.
    + unfold cap. cbn [backing]. rewrite app_nil_r. reflexivity.
    + rewrite index_0 by lia. reflexivity.
  - intros Hfit. eexists. eexists.
    split; [apply CodecTheory.serializeAccountRow_layout|].
    rewrite uint32_small by lia. unfold len.
    rewrite <- (app_nil_r (elems (rawData row))) at 2.
    split; [apply RowTheory.deserializeAccountRow_layout; unfold len in Hfit; lia|].
    repeat split.
Qed.

Lemma AccountRow_roundtrip_witness :
  5 + len (Slice [Byte.xaa; Byte.xbb] []) < 2 ^ 32 /\
  exists buf row',
    serializeAccountRow {| acctType := Byte.x07;
                           rawData := Slice [Byte.xaa; Byte.xbb] [] |} = Return buf /\
    deserializeAccountRow Nil buf = Return (Some row', None) /\
    acctType row' = Byte.x07 /\
    elems (rawData row') = [Byte.xaa; Byte.xbb] /\
    is_nil (rawData row') = false.
Proof.
  assert (H : 5 + len (Slice [Byte.xaa; Byte.xbb] []) < 2 ^ 32) by reflexivity.
  split; [exact H|].
  exact (proj2 (AccountRow_roundtrip Nil
                  {| acctType := Byte.x07; rawData := Slice [Byte.xaa; Byte.xbb] [] |}) H).
Defined.

Section AnyBucket.
Context {B : Type} `{!Bucket B}.

(** X10.  On an input [s] of at least 5 bytes, [deserializeAccountRow]
    panics exactly when the end [5 + rdlen] of the declared raw data lies
    beyond the capacity of [s] or is not below [2^32]: the slice expression
    [s[5:5+rdlen]] is checked against the capacity, not the length.
    Otherwise it returns the [rdlen] bytes that follow the header in the
    array behind [s], which lie past the length of [s] when the row is
    shorter than it declares.  So [fetchAccountInfo] panics, and returns no
    error, on a stored row of at least 5 bytes that declares more raw data
    than the slice returned by [Get] has capacity for. *)
Theorem deserializeAccountRow_panics_iff (accountID s : goslice) :
  5 <= len s ->
  let rdlen := le32 (drop 1 (elems s)) in
  (deserializeAccountRow accountID s = Panic <->
   cap s < 5 + rdlen \/ 2 ^ 32 <= 5 + rdlen) /\
  (5 + rdlen <= cap s -> 5 + rdlen < 2 ^ 32 ->
   deserializeAccountRow accountID s =
   Return (Some {| acctType := hd Byte.x00 (elems s);
                   rawData := Slice (take (Z.to_nat rdlen) (drop 5 (backing s))) [] |},
           None)) /\
  (forall (b : B) (account : Z) (err : option error),
     Get b (Slice (LittleEndian.bytes_of_uint32 account) []) = (s, err) ->
     cap s < 5 + rdlen ->
     fetchAccountInfo b account = Panic).
Proof.
  intros Hlen rdlen. split; [|split].
  - split.
    + intros HP.
      destruct (Z.le_gt_cases (2 ^ 32) (5 + rdlen)) as [Hw|Hw]; [now right|].
      destruct (Z.le_gt_cases (5 + rdlen) (cap s)) as [Hc|Hc]; [|left; lia].
      rewrite deserializeAccountRow_within_cap in HP by (fold rdlen; lia).
      discriminate.
    + now apply deserializeAccountRow_beyond_cap.
  - intros. now apply deserializeAccountRow_within_cap.
  - intros b account err Hget Hcap.
    unfold fetchAccountInfo. rewrite uint32ToBytes_returns. cbn [bind].
    rewrite Hget.
    assert (Hnil : is_nil s = false).
    { destruct s; [|reflexivity]. unfold len in Hlen. simpl in Hlen. lia. }
    rewrite Hnil, deserializeAccountRow_beyond_cap; [reflexivity | exact Hlen | now left].
Qed.

End AnyBucket.

Lemma deserializeAccountRow_panics_iff_witness :
  5 <= len sample.spare_row /\
  deserializeAccountRow Nil sample.spare_row =
    Return (Some {| acctType := Byte.x07;
                    rawData := Slice [Byte.xaa; Byte.xbb; Byte.xcc] [] |}, None) /\
  5 <= len (Slice sample.truncated_row []) /\
  deserializeAccountRow Nil (Slice sample.truncated_row []) = Panic /\
  fetchAccountInfo sample.truncated_row_bucket 0 = Panic.
Proof.
  assert (H5 : 5 <= len sample.spare_row) by discriminate.
  assert (H6 : 5 <= len (Slice sample.truncated_row [])) by discriminate.
  destruct (@deserializeAccountRow_panics_iff mem.memBucket _ Nil sample.spare_row H5)
    as (_ & Hret & _).
  destruct (@deserializeAccountRow_panics_iff mem.memBucket _ Nil
              (Slice sample.truncated_row []) H6) as (Hiff & _ & Hfetch).
  split; [exact H5|].
  split; [apply Hret; [discriminate | reflexivity]|].
  split; [exact H6|].
  split; [apply Hiff; left; reflexivity|].
  apply (Hfetch sample.truncated_row_bucket 0 None); reflexivity.
Defined.

End AccountRowTheory.

(** ** HD account keys in slices with spare capacity *)

Module HDKeyTheory.
Import db keystore.

Lemma deserializeHDAccountKey_cap (accountID : goslice) (row : dbAccountRow) :
  let raw := rawData row in
  let pubLen := le32 (elems raw) in
  let privLen := le32 (drop (Z.to_nat (4 + pubLen)) (backing raw)) in
  8 <= len raw ->
  deserializeHDAccountKey accountID row =
  if (8 + pubLen + privLen <=? cap raw) && (8 + pubLen + privLen <? 2 ^ 32)
  then Return (Some {| row_ := row;
                       pubKeyEncrypted :=
                         Slice (take (Z.to_nat pubLen) (drop 4 (backing raw))) [];
                       privKeyEncrypted :=
                         Slice (take (Z.to_nat privLen)
                                     (drop (Z.to_nat (8 + pubLen)) (backing raw))) [] |},
               None)
  else Panic.
Proof.
  intros raw pubLen privLen Hlen.
  pose proof (cap_len raw) as Hcap.
  pose proof (le32_range (elems raw)) as Hrp. fold pubLen in Hrp.
  pose proof (le32_range (drop (Z.to_nat (4 + pubLen)) (backing raw))) as Hrq.
  fold privLen in Hrq.
  assert (Hback : Z.of_nat (length (backing raw)) = cap raw) by reflexivity.
  unfold deserializeHDAccountKey. fold raw.
  destruct (Z.ltb_spec (len raw) 8) as [Hbad|_]; [lia|].
  rewrite (reslice_Return raw 0 4) by lia. cbn [bind].
  change (Z.to_nat (4 - 0)) with 4%nat. change (Z.to_nat 0) with 0%nat.
  rewrite drop_0, Uint32_take4 by lia. cbn [bind].
  rewrite le32_backing by lia. fold pubLen.
  set (good := (8 + pubLen + privLen <=? cap raw) && (8 + pubLen + privLen <? 2 ^ 32)).
  assert (Hgood : good = true -> 8 + pubLen + privLen <= cap raw /\
                                 8 + pubLen + privLen < 2 ^ 32).
  { unfold good. rewrite andb_true_iff, Z.leb_le, Z.ltb_lt. tauto. }
  assert (Hbad : good = false -> cap raw < 8 + pubLen + privLen \/
                                 2 ^ 32 <= 8 + pubLen + privLen).
  { unfold good. rewrite andb_false_iff, Z.leb_gt, Z.ltb_ge. tauto. }
  (* the public key *)
  destruct (Z.le_gt_cases (2 ^ 32) (4 + pubLen)) as [Hw1|Hw1].
  { rewrite (uint32_wrap (4 + pubLen)) by lia.
    rewrite reslice_Panic by lia. cbn [bind].
    destruct good; [destruct (Hgood eq_refl); lia | reflexivity]. }
  rewrite !(uint32_small (4 + pubLen)) by lia.
  destruct (Z.le_gt_cases (4 + pubLen) (cap raw)) as [Hc1|Hc1].
  2:{ rewrite reslice_Panic by lia. cbn [bind].
      destruct good; [destruct (Hgood eq_refl); lia | reflexivity]. }
  rewrite (reslice_Return raw 4 (4 + pubLen)) by lia. cbn [bind elems].
  (* the length of the private key *)
  destruct (Z.le_gt_cases (2 ^ 32) (4 + pubLen + 4)) as [Hw2|Hw2].
  { rewrite (uint32_wrap (4 + pubLen + 4)) by lia.
    rewrite reslice_Panic by lia. cbn [bind].
    destruct good; [destruct (Hgood eq_refl); lia | reflexivity]. }
  rewrite !(uint32_small (4 + pubLen + 4)) by lia.
  destruct (Z.le_gt_cases (4 + pubLen + 4) (cap raw)) as [Hc2|Hc2].
  2:{ rewrite reslice_Panic by lia. cbn [bind].
      destruct good; [destruct (Hgood eq_refl); lia | reflexivity]. }
  rewrite (reslice_Return raw (4 + pubLen) (4 + pubLen + 4)) by lia. cbn [bind].
  replace (Z.to_nat (4 + pubLen + 4 - (4 + pubLen))) with 4%nat by lia.
  rewrite Uint32_take4 by (rewrite length_drop; lia). cbn [bind]. fold privLen.
  (* the private key *)
  destruct (Z.le_gt_cases (2 ^ 32) (4 + pubLen + 4 + privLen)) as [Hw3|Hw3].
  { rewrite (uint32_wrap (4 + pubLen + 4 + privLen)) by lia.
    rewrite reslice_Panic by lia. cbn [bind].
    destruct good; [destruct (Hgood eq_refl); lia | reflexivity]. }
  rewrite (uint32_small (4 + pubLen + 4 + privLen)) by lia.
  destruct (Z.le_gt_cases (4 + pubLen + 4 + privLen) (cap raw)) as [Hc3|Hc3].
  2:{ rewrite reslice_Panic by lia. cbn [bind].
      destruct good; [destruct (Hgood eq_refl); lia | reflexivity]. }
  rewrite (reslice_Return raw (4 + pubLen + 4) (4 + pubLen + 4 + privLen)) by lia.
  cbn [bind elems].
  destruct good; [|destruct (Hbad eq_refl); lia].
  replace (Z.to_nat (4 + pubLen - 4)) with (Z.to_nat pubLen) by lia.
  replace (Z.to_nat (4 + pubLen + 4 + privLen - (4 + pubLen + 4)))
    with (Z.to_nat privLen) by lia.
  replace (4 + pubLen + 4) with (8 + pubLen) by lia.
  change (Z.to_nat 4) with 4%nat.
  rewrite !copy_same_length; [reflexivity| |].
  - unfold make. cbn [elems]. rewrite repeat_length, length_take, length_drop. lia.
  - unfold make. cbn [elems]. rewrite repeat_length, length_take, length_drop. lia.
Qed.

(** X11.  On raw data of at least 8 bytes, [deserializeHDAccountKey] panics
    exactly when the end [8 + pubLen + privLen] of the declared private key
    lies beyond the capacity of the raw data or is not below [2^32], where
    [privLen] is read after the declared public key from the array behind
    the raw data.  Otherwise it returns the [pubLen] bytes after the first
    length and the [privLen] bytes after the second, read from that array. *)
Theorem deserializeHDAccountKey_panics_iff (accountID : goslice) (row : dbAccountRow) :
  8 <= len (rawData row) ->
  let raw := rawData row in
  let pubLen := le32 (elems raw) in
  let privLen := le32 (drop (Z.to_nat (4 + pubLen)) (backing raw)) in
  (deserializeHDAccountKey accountID row = Panic <->
   cap raw < 8 + pubLen + privLen \/ 2 ^ 32 <= 8 + pubLen + privLen) /\
  (8 + pubLen + privLen <= cap raw -> 8 + pubLen + privLen < 2 ^ 32 ->
   deserializeHDAccountKey accountID row =
   Return (Some {| row_ := row;
                   pubKeyEncrypted :=
                     Slice (take (Z.to_nat pubLen) (drop 4 (backing raw))) [];
                   privKeyEncrypted :=
                     Slice (take (Z.to_nat privLen)
                                 (drop (Z.to_nat (8 + pubLen)) (backing raw))) [] |},
           None)).
Proof.
  intros Hlen raw pubLen privLen.
  pose proof (deserializeHDAccountKey_cap accountID row Hlen) as H.
  cbv zeta in H. fold raw in H. fold pubLen in H. fold privLen in H.
  rewrite H.
  destruct (Z.leb_spec (8 + pubLen + privLen) (cap raw)) as [Hc|Hc];
    destruct (Z.ltb_spec (8 + pubLen + privLen) (2 ^ 32)) as [Hw|Hw]; cbn [andb].
  - split; [split; [discriminate | lia] | reflexivity].
  - split; [split; [now right | reflexivity] | lia].
  - split; [split; [now left | reflexivity] | lia].
  - split; [split; [now left | reflexivity] | lia].
Qed.

Lemma deserializeHDAccountKey_panics_iff_witness :
  8 <= len (rawData sample.spare_key_row) /\
  deserializeHDAccountKey Nil sample.spare_key_row =
    Return (Some {| row_ := sample.spare_key_row;
                    pubKeyEncrypted := Slice [Byte.x01; Byte.x02] [];
                    privKeyEncrypted := Slice [Byte.x09] [] |}, None) /\
  8 <= len (rawData sample.truncated_key_row) /\
  deserializeHDAccountKey Nil sample.truncated_key_row = Panic.
Proof.
  assert (H1 : 8 <= len (rawData sample.spare_key_row)) by discriminate.
  assert (H2 : 8 <= len (rawData sample.truncated_key_row)) by discriminate.
  split; [exact H1|].
  split.
  - apply (proj2 (deserializeHDAccountKey_panics_iff Nil sample.spare_key_row H1));
      [discriminate | reflexivity].
  - split; [exact H2|].
    apply (proj1 (deserializeHDAccountKey_panics_iff Nil sample.truncated_key_row H2)).
    left. reflexivity.
Defined.

End HDKeyTheory.

(** ** Lengths beyond 32 bits *)

Lemma buf_copy_empty_window (buf src : list byte) (lo : Z) :
  buf_copy buf lo lo src = buf_copy buf lo lo [].
Proof.
  unfold buf_copy. rewrite Z.sub_diag.
  destruct (buf_in_bounds buf lo lo); reflexivity.
Qed.

Module WrapTheory.
Import keystore.

(** X26.  [serializeHDAccountKey] computes the lengths in [uint32].  A
    public key blob of exactly [2^32] bytes has length 0 there: it is
    serialized like an empty one, without panic, and its bytes are dropped.
    With a private key of fewer than [2^32 - 8] bytes the result holds a zero
    length, the length of the private key and the bytes of the private
    key. *)
Theorem serializeHDAccountKey_length_wraps (encryptedPubKey encryptedPrivKey : goslice) :
  len encryptedPubKey = 2 ^ 32 ->
  8 + len encryptedPrivKey < 2 ^ 32 ->
  serializeHDAccountKey encryptedPubKey encryptedPrivKey =
    serializeHDAccountKey (Slice [] []) encryptedPrivKey /\
  serializeHDAccountKey encryptedPubKey encryptedPrivKey =
    Return (Slice (LittleEndian.bytes_of_uint32 0
                   ++ LittleEndian.bytes_of_uint32 (len encryptedPrivKey)
                   ++ elems encryptedPrivKey) []).
Proof.
  intros Hpub Hpriv.
  assert (Heq : serializeHDAccountKey encryptedPubKey encryptedPrivKey =
                serializeHDAccountKey (Slice [] []) encryptedPrivKey).
  { unfold serializeHDAccountKey. rewrite Hpub.
    change (uint32 (2 ^ 32)) with 0. change (uint32 (len (Slice [] []))) with 0.
    change (uint32 (4 + 0)) with 4.
    destruct (LittleEndian.buf_PutUint32 _ 0 4 0) as [rawData|]; [|reflexivity].
    cbn [bind]. now rewrite buf_copy_empty_window. }
  split; [exact Heq|].
  rewrite Heq, CodecTheory.serializeHDAccountKey_layout.
  - reflexivity.
  - change (len (Slice [] [])) with 0. lia.
Qed.

Lemma serializeHDAccountKey_length_wraps_witness :
  len (Slice (repeat Byte.xaa (Z.to_nat 4294967296)) []) = 2 ^ 32 /\
  8 + len Nil < 2 ^ 32 /\
  serializeHDAccountKey (Slice (repeat Byte.xaa (Z.to_nat 4294967296)) []) Nil =
    Return (Slice (LittleEndian.bytes_of_uint32 0 ++ LittleEndian.bytes_of_uint32 0) []).
Proof.
  assert (H1 : len (Slice (repeat Byte.xaa (Z.to_nat 4294967296)) []) = 2 ^ 32).
  { unfold len. cbn [elems]. rewrite repeat_length. apply Z2Nat.id. discriminate. }
  assert (H2 : 8 + len Nil < 2 ^ 32) by reflexivity.
  split; [exact H1|]. split; [exact H2|].
  exact (proj2 (serializeHDAccountKey_length_wraps _ Nil H1 H2)).
Defined.

End WrapTheory.

(** ** Encrypted public keys by derivation path *)

Module PubKeyTheory.
Import db keystore.

Lemma fetchEncryptedPubKey_loop_decodes (entries : list Entry) (pks : list pubkeyAndPath) :
  Forall (fun e => 8 <= cap (Key e)) entries ->
  fetchEncryptedPubKey_loop entries pks = Return (pks ++ map path_of_entry entries).
Proof.
  intros H. revert pks. induction H as [|e entries He _ IH]; intros pks.
  - cbn. now rewrite app_nil_r.
  - cbn [fetchEncryptedPubKey_loop map].
    assert (Hback : Z.of_nat (length (backing (Key e))) = cap (Key e)) by reflexivity.
    rewrite (reslice_Return (Key e) 0 4) by lia. cbn [bind].
    change (Z.to_nat (4 - 0)) with 4%nat. change (Z.to_nat 0) with 0%nat.
    rewrite drop_0, Uint32_take4 by lia. cbn [bind].
    rewrite (reslice_Return (Key e) 4 8) by lia. cbn [bind].
    change (Z.to_nat (8 - 4)) with 4%nat. change (Z.to_nat 4) with 4%nat.
    rewrite Uint32_take4 by (rewrite length_drop; lia). cbn [bind].
    rewrite IH. now rewrite <- app_assoc.
Qed.

Lemma fetchEncryptedPubKey_loop_panics (entries : list Entry) (pks : list pubkeyAndPath) :
  Exists (fun e => cap (Key e) < 8) entries ->
  fetchEncryptedPubKey_loop entries pks = Panic.
Proof.
  intros H. revert pks. induction entries as [|e entries IH]; intros pks.
  - inversion H.
  - cbn [fetchEncryptedPubKey_loop].
    destruct (Z.le_gt_cases 8 (cap (Key e))) as [Hc|Hc].
    + assert (Hback : Z.of_nat (length (backing (Key e))) = cap (Key e)) by reflexivity.
      rewrite (reslice_Return (Key e) 0 4) by lia. cbn [bind].
      change (Z.to_nat (4 - 0)) with 4%nat. change (Z.to_nat 0) with 0%nat.
      rewrite drop_0, Uint32_take4 by lia. cbn [bind].
      rewrite (reslice_Return (Key e) 4 8) by lia. cbn [bind].
      change (Z.to_nat (8 - 4)) with 4%nat. change (Z.to_nat 4) with 4%nat.
      rewrite Uint32_take4 by (rewrite length_drop; lia). cbn [bind].
      apply IH. inversion H as [? ? Hhd|? ? Htl]; subst; [lia | exact Htl].
    + destruct (reslice (Key e) 0 4) as [kb|] eqn:Hkb; [|reflexivity]. cbn [bind].
      destruct (LittleEndian.Uint32 kb) as [br|]; [|reflexivity]. cbn [bind].
      now rewrite reslice_Panic by lia.
Qed.

Lemma path_of_stored_key (branch index : Z) (spare : list byte) (value : goslice) :
  0 <= branch < 2 ^ 32 -> 0 <= index < 2 ^ 32 ->
  path_of_entry
    {| Key := Slice (LittleEndian.bytes_of_uint32 branch
                     ++ LittleEndian.bytes_of_uint32 index) spare;
       Value := value |} =
  {| branch := branch; index_ := index; pubkeyEnc := value |}.
Proof.
  intros Hb Hi. unfold path_of_entry. cbn [Key Value backing elems]. f_equal.
  - rewrite <- !app_assoc. now apply RowTheory.le32_bytes_small.
  - rewrite <- !app_assoc.
    change (drop 4 (LittleEndian.bytes_of_uint32 branch ++ ?x)) with x.
    now apply RowTheory.le32_bytes_small.
Qed.

Section AnyBucket.
Context {B : Type} `{!Bucket B}.

(** X12.  When [GetByPrefix] returns its entries without error and every
    key has a capacity of at least 8 bytes, [fetchEncryptedPubKey] returns
    one path per entry, in the order of the entries: branch and index are the
    little-endian values of the first and the second four bytes of the key,
    and [pubkeyEnc] is the value of the entry.  When some key has a capacity
    below 8, as any key of fewer than 8 bytes in a slice of its own has, it
    panics. *)
Theorem fetchEncryptedPubKey_decodes_every_entry (b : B) (entries : list Entry) :
  GetByPrefix b (Slice [] []) = (entries, None) ->
  (Forall (fun e => 8 <= cap (Key e)) entries ->
   fetchEncryptedPubKey b = Return (map path_of_entry entries, None)) /\
  (Exists (fun e => cap (Key e) < 8) entries ->
   fetchEncryptedPubKey b = Panic).
Proof.
  intros Hget. unfold fetchEncryptedPubKey. rewrite Hget. split; intros H.
  - now rewrite fetchEncryptedPubKey_loop_decodes.
  - now rewrite fetchEncryptedPubKey_loop_panics.
Qed.

(** X13.  For a 32-bit branch and index, [putEncryptedPubKey] calls [Put]
    once, with the public key as value and a key of length and capacity 8:
    the little-endian bytes of the branch followed by those of the index.
    [fetchEncryptedPubKey] reads such a key back as that branch and that
    index: on any bucket whose [GetByPrefix] returns, without error, a
    listing that holds an entry with these key bytes (whatever its spare
    capacity) among entries whose keys have a capacity of at least 8, it
    returns one path per entry and, at the position of that entry, the
    branch, the index and the value of the entry.  On the finite-map bucket,
    when every key stored has at least 8 bytes, [putEncryptedPubKey] returns
    no error and [fetchEncryptedPubKey] on the bucket it leaves returns,
    among its paths, the branch and the index with the bytes of the public
    key. *)
Theorem putEncryptedPubKey_key_is_path (b : B) (branch index : Z) (pubKey : goslice) :
  0 <= branch < 2 ^ 32 -> 0 <= index < 2 ^ 32 ->
  exists key,
    putEncryptedPubKey b branch index pubKey = Return (Put b key pubKey) /\
    elems key = LittleEndian.bytes_of_uint32 branch ++ LittleEndian.bytes_of_uint32 index /\
    len key = 8 /\ cap key = 8 /\
    (forall (b' : B) (before after : list Entry) (value : goslice) (spare : list byte),
       GetByPrefix b' (Slice [] []) =
         (before ++ {| Key := Slice (elems key) spare; Value := value |} :: after, None) ->
       Forall (fun e => 8 <= cap (Key e)) (before ++ after) ->
       exists pks,
         fetchEncryptedPubKey b' = Return (pks, None) /\
         length pks = S (length before + length after) /\
         pks !! length before =
           Some {| branch := branch; index_ := index; pubkeyEnc := value |}) /\
    (forall m : gmap (list byte) (list byte),
       (forall k, is_Some (m !! k) -> (8 <= length k)%nat) ->
       exists pks,
         putEncryptedPubKey m branch index pubKey =
           Return (None, <[elems key := elems pubKey]> m) /\
         fetchEncryptedPubKey (<[elems key := elems pubKey]> m) = Return (pks, None) /\
         {| branch := branch; index_ := index; pubkeyEnc := Slice (elems pubKey) [] |}
           ∈ pks).
Proof.
  intros Hb Hi.
  exists (Slice (LittleEndian.bytes_of_uint32 branch ++ LittleEndian.bytes_of_uint32 index) []).
  split; [reflexivity|]. split; [reflexivity|]. split; [reflexivity|].
  split; [reflexivity|]. cbn [elems]. split.
  - intros b' before after value spare Hget Hcap.
    unfold fetchEncryptedPubKey. rewrite Hget.
    rewrite fetchEncryptedPubKey_loop_decodes.
    2:{ apply Forall_app in Hcap as [H1 H2]. apply Forall_app. split; [exact H1|].
        constructor; [|exact H2]. cbn [Key]. unfold cap. cbn [backing].
        rewrite !length_app. cbn [length LittleEndian.bytes_of_uint32]. lia. }
    cbn [bind app]. eexists. split; [reflexivity|]. split.
    + rewrite length_map, length_app. cbn [length]. lia.
    + rewrite map_app. cbn [map].
      rewrite <- (length_map path_of_entry before).
      rewrite list_lookup_middle by reflexivity.
      now rewrite path_of_stored_key.
  - intros m Hm.
    set (k := LittleEndian.bytes_of_uint32 branch ++ LittleEndian.bytes_of_uint32 index).
    unfold fetchEncryptedPubKey. cbn [GetByPrefix mem.store_Bucket].
    unfold mem.store_GetByPrefix.
    rewrite fetchEncryptedPubKey_loop_decodes.
    + cbn [bind app]. eexists. split; [reflexivity|]. split; [reflexivity|].
      rewrite map_map. apply list_elem_of_fmap.
      exists (k, elems pubKey). split.
      * cbn [fst snd]. symmetry. now apply path_of_stored_key.
      * rewrite merge_sort_Permutation. apply list_elem_of_filter. split.
        -- cbn [elems fst]. apply prefix_nil.
        -- apply elem_of_map_to_list. apply lookup_insert_eq.
    + apply list.Forall_forall. intros e He.
      apply list_elem_of_fmap in He as ([k' v] & -> & Hin).
      rewrite merge_sort_Permutation in Hin.
      apply list_elem_of_filter in Hin as [_ Hin].
      apply elem_of_map_to_list in Hin.
      cbn [Key fst]. unfold cap. cbn [backing]. rewrite app_nil_r.
      destruct (decide (k' = k)) as [->|Hne].
      * subst k. rewrite length_app. cbn [length LittleEndian.bytes_of_uint32]. lia.
      * rewrite lookup_insert_ne in Hin by congruence.
        specialize (Hm k' (ex_intro _ v Hin)). lia.
Qed.

End AnyBucket.

Lemma fetchEncryptedPubKey_decodes_every_entry_witness :
  GetByPrefix sample.address_keys (Slice [] []) =
    ([{| Key := Slice sample.path_0_5 []; Value := Slice [Byte.xaa] [] |}], None) /\
  fetchEncryptedPubKey sample.address_keys =
    Return ([{| branch := 0; index_ := 5; pubkeyEnc := Slice [Byte.xaa] [] |}], None).
Proof.
  assert (G : GetByPrefix sample.address_keys (Slice [] []) =
    ([{| Key := Slice sample.path_0_5 []; Value := Slice [Byte.xaa] [] |}], None))
    by (vm_compute; reflexivity).
  split; [exact G|].
  apply (proj1 (fetchEncryptedPubKey_decodes_every_entry _ _ G)).
  repeat constructor. discriminate.
Defined.

Lemma putEncryptedPubKey_key_is_path_witness :
  0 <= 0 < 2 ^ 32 /\ 0 <= 5 < 2 ^ 32 /\
  exists key,
    putEncryptedPubKey (∅ : gmap (list byte) (list byte)) 0 5 (Slice [Byte.xaa] []) =
      Return (Put ∅ key (Slice [Byte.xaa] [])) /\
    elems key = sample.path_0_5 /\
    exists pks,
      fetchEncryptedPubKey (<[elems key := [Byte.xaa]]> (∅ : gmap (list byte) (list byte)))
        = Return (pks, None) /\
      {| branch := 0; index_ := 5; pubkeyEnc := Slice [Byte.xaa] [] |} ∈ pks.
Proof.
  assert (H0 : 0 <= 0 < 2 ^ 32) by lia.
  assert (H5 : 0 <= 5 < 2 ^ 32) by lia.
  split; [exact H0|]. split; [exact H5|].
  destruct (putEncryptedPubKey_key_is_path (∅ : gmap (list byte) (list byte)) 0 5
              (Slice [Byte.xaa] []) H0 H5) as (key & Hput & Hkey & _ & _ & _ & Hstore).
  exists key. split; [exact Hput|]. split; [exact Hkey|].
  destruct (Hstore ∅) as (pks & _ & Hfetch & Hin).
  - intros k [v Hv]. rewrite lookup_empty in Hv. discriminate.
  - exists pks. split; [exact Hfetch | exact Hin].
Defined.

End PubKeyTheory.

(** ** Records written and read back *)

Module RoundTripTheory.
Import db keystore.

Section Lawful.
Context {B : Type} `{LawfulBucket B}.
Variable KeyScope : Type.

Lemma put_if_present_Put (b b' : B) (name value : goslice) (what : string) :
  put_if_present b name value what = (None, b') -> 0 < len value ->
  Put b name value = (None, b').
Proof.
  intros Hput Hlen. unfold put_if_present in Hput.
  rewrite (len_pos_not_nil value Hlen) in Hput.
  destruct (Put b name value) as [[e|] b1]; [discriminate | exact Hput].
Qed.

(** X14.  In a bucket that keeps what is put: once [putMasterKeyParams] has
    returned without error for non-empty public parameters,
    [fetchMasterKeyParams] returns copies of the public and of the private
    parameters when the private ones are non-empty too; when the private
    parameters passed are nil, no private parameters are written and those
    stored before stay as they were. *)
Theorem masterKeyParams_roundtrip (b b' : B) (pubParams privParams : goslice) :
  putMasterKeyParams b pubParams privParams = (None, b') ->
  0 < len pubParams ->
  (0 < len privParams ->
   fetchMasterKeyParams b' =
     (Slice (elems pubParams) [], Slice (elems privParams) [], None)) /\
  (is_nil privParams = true ->
   Get b' masterPrivKeyName = Get b masterPrivKeyName).
Proof.
  intros Hput Hpub. unfold putMasterKeyParams in Hput.
  rewrite (len_pos_not_nil pubParams Hpub) in Hput.
  destruct (is_nil privParams) eqn:Hnil.
  - destruct (Put b masterPubKeyName pubParams) as [[e|] b2] eqn:Hp2; [discriminate|].
    injection Hput as <-. split.
    + intros Hpriv. apply len_pos_not_nil in Hpriv. congruence.
    + intros _. apply (Get_Put_other _ _ _ _ masterPrivKeyName Hp2). discriminate.
  - destruct (Put b masterPrivKeyName privParams) as [[e|] b1] eqn:Hp1; [discriminate|].
    destruct (Put b1 masterPubKeyName pubParams) as [[e|] b2] eqn:Hp2; [discriminate|].
    injection Hput as <-. split; [|discriminate].
    intros Hpriv.
    destruct (Get_Put_same _ _ _ _ Hp2 Hpub) as (s2 & Hg2).
    destruct (Get_Put_same _ _ _ _ Hp1 Hpriv) as (s1 & Hg1).
    assert (Hg1' : Get b2 masterPrivKeyName = (Slice (elems privParams) s1, None)).
    { rewrite (Get_Put_other _ _ _ _ masterPrivKeyName Hp2); [exact Hg1 | discriminate]. }
    unfold fetchMasterKeyParams. rewrite Hg2. cbn [is_nil]. rewrite Hg1'. cbn [is_nil].
    now rewrite !clone_elems.
Qed.

(** X15.  In a bucket that keeps what is put: once [putCryptoKeys] has
    returned without error for three non-empty keys, [fetchCryptoKeys]
    returns copies of the public, the private and the entropy key, in that
    order. *)
Theorem cryptoKeys_roundtrip (b b' : B)
  (pubKeyEncrypted privKeyEncrypted entropyKeyEncrypted : goslice) :
  putCryptoKeys b pubKeyEncrypted privKeyEncrypted entropyKeyEncrypted = (None, b') ->
  0 < len pubKeyEncrypted -> 0 < len privKeyEncrypted -> 0 < len entropyKeyEncrypted ->
  fetchCryptoKeys b' =
    (Slice (elems pubKeyEncrypted) [], Slice (elems privKeyEncrypted) [],
     Slice (elems entropyKeyEncrypted) [], None).
Proof.
  intros Hput Hpub Hpriv Hent. unfold putCryptoKeys in Hput.
  destruct (put_if_present b cryptoPubKeyName _ _) as [[e|] b1] eqn:H1; [discriminate|].
  destruct (put_if_present b1 cryptoPrivKeyName _ _) as [[e|] b2] eqn:H2; [discriminate|].
  apply put_if_present_Put in H1, H2, Hput; try assumption.
  destruct (Get_Put_same _ _ _ _ H1 Hpub) as (s1 & G1).
  destruct (Get_Put_same _ _ _ _ H2 Hpriv) as (s2 & G2).
  destruct (Get_Put_same _ _ _ _ Hput Hent) as (s3 & G3).
  assert (G1' : Get b' cryptoPubKeyName = (Slice (elems pubKeyEncrypted) s1, None)).
  { rewrite (Get_Put_other _ _ _ _ cryptoPubKeyName Hput) by discriminate.
    rewrite (Get_Put_other _ _ _ _ cryptoPubKeyName H2) by discriminate. exact G1. }
  assert (G2' : Get b' cryptoPrivKeyName = (Slice (elems privKeyEncrypted) s2, None)).
  { rewrite (Get_Put_other _ _ _ _ cryptoPrivKeyName Hput) by discriminate. exact G2. }
  unfold fetchCryptoKeys. rewrite G1'. cbn [is_nil]. rewrite G2', G3. cbn [is_nil].
  now rewrite !clone_elems.
Qed.

(** X16.  In a bucket that keeps what is put: once [putVersion] has returned
    without error, [fetchVersion] returns that version and a nil error. *)
Theorem version_roundtrip (b b' : B) (version : byte) :
  putVersion b version = (None, b') ->
  fetchVersion b' = Return (version, None).
Proof.
  intros Hput. unfold putVersion in Hput.
  destruct (Put b keystoreVersionName _) as [[e|] b1] eqn:Hp; [discriminate|].
  injection Hput as <-.
  destruct (Get_Put_same _ _ _ _ Hp) as (s & G); [reflexivity|].
  unfold fetchVersion. rewrite G. reflexivity.
Qed.

(** X17.  In a bucket that keeps what is put: once [putEntropy] has returned
    without error for a non-empty value, [fetchEntropy] returns a slice with
    the bytes of that value and a nil error; likewise [fetchRemark] after
    [putRemark].  Neither fetch copies: it returns the slice that [Get]
    returned. *)
Theorem entropy_and_remark_roundtrip (b b' : B) (value : goslice) :
  0 < len value ->
  (putEntropy b value = (None, b') ->
   exists spare,
     Get b' entropyEncKeyName = (Slice (elems value) spare, None) /\
     fetchEntropy b' = (Slice (elems value) spare, None)) /\
  (putRemark b value = (None, b') ->
   exists spare,
     Get b' remarkName = (Slice (elems value) spare, None) /\
     fetchRemark b' = (Slice (elems value) spare, None)).
Proof.
  intros Hlen. split; intros Hput.
  - unfold putEntropy in Hput.
    destruct (Put b entropyEncKeyName value) as [[e|] b1] eqn:Hp; [discriminate|].
    injection Hput as <-.
    destruct (Get_Put_same _ _ _ _ Hp Hlen) as (s & G).
    exists s. split; [exact G|]. unfold fetchEntropy. now rewrite G.
  - unfold putRemark in Hput.
    destruct (Get_Put_same _ _ _ _ Hput Hlen) as (s & G).
    exists s. split; [exact G|]. unfold fetchRemark. now rewrite G.
Qed.

(** X18.  In a bucket that keeps what is put: once [putAccountUsage] has
    returned without error for a 32-bit number, [fetchAccountUsage] returns
    that number and a nil error; likewise [fetchCoinType] after
    [putCoinType]. *)
Theorem counters_roundtrip (b b' : B) (n : Z) :
  0 <= n < 2 ^ 32 ->
  (putAccountUsage b n = Return (None, b') ->
   fetchAccountUsage b' = Return (n, None)) /\
  (putCoinType b n = Return (None, b') ->
   fetchCoinType b' = Return (n, None)).
Proof.
  intros Hn. split; intros Hput.
  - unfold putAccountUsage in Hput. rewrite uint32ToBytes_returns in Hput.
    cbn [bind] in Hput.
    destruct (Put b accountUsageName _) as [[e|] b1] eqn:Hp; [discriminate|].
    injection Hput as <-.
    destruct (ChildNumTheory.Put_uint32_read _ _ _ n Hn Hp) as (val & G & Hnil & Hu).
    unfold fetchAccountUsage. now rewrite G, Hnil, Hu.
  - unfold putCoinType in Hput. rewrite uint32ToBytes_returns in Hput.
    cbn [bind] in Hput. injection Hput as Hp.
    destruct (ChildNumTheory.Put_uint32_read _ _ _ n Hn Hp) as (val & G & Hnil & Hu).
    unfold fetchCoinType. now rewrite G, Hnil, Hu.
Qed.

(** X19.  In a bucket that keeps what is put: once
    [putBranchPubKeys(internal, external)] has returned without error for two
    non-empty keys, [fetchBranchPubKeys] returns the bytes of the internal
    key first and those of the external key second, and a nil error. *)
Theorem branchPubKeys_roundtrip (b b' : B)
  (encryptedInternalKey encryptedExternalKey : goslice) :
  putBranchPubKeys b encryptedInternalKey encryptedExternalKey = (None, b') ->
  0 < len encryptedInternalKey -> 0 < len encryptedExternalKey ->
  exists si se,
    fetchBranchPubKeys b' =
      (Slice (elems encryptedInternalKey) si, Slice (elems encryptedExternalKey) se, None).
Proof.
  intros Hput Hin Hex. unfold putBranchPubKeys in Hput.
  destruct (Put b externalBranchPubKeyName _) as [[e|] b1] eqn:H1; [discriminate|].
  destruct (Put b1 internalBranchPubKeyName _) as [[e|] b2] eqn:H2; [discriminate|].
  injection Hput as <-.
  destruct (Get_Put_same _ _ _ _ H1 Hex) as (se & G1).
  destruct (Get_Put_same _ _ _ _ H2 Hin) as (si & G2).
  assert (G1' : Get b2 externalBranchPubKeyName
                = (Slice (elems encryptedExternalKey) se, None)).
  { rewrite (Get_Put_other _ _ _ _ externalBranchPubKeyName H2) by discriminate.
    exact G1. }
  exists si, se. unfold fetchBranchPubKeys. now rewrite G1', G2.
Qed.

(** X20.  In a bucket that keeps what is put: once [putAccountInfo] has
    returned without error for a 32-bit account number and two blobs with
    [13 + len(pub) + len(priv) < 2^32], [fetchAccountUsage] returns that
    account number, and [fetchAccountInfo] for that number returns an HD
    account key of type [accountMASS] whose encrypted public and private
    keys are fresh slices with the bytes of the two blobs. *)
Theorem accountInfo_roundtrip (b b' : B) (scope : option KeyScope) (account : Z)
  (encryptedPubKey encryptedPrivKey : goslice) :
  0 <= account < 2 ^ 32 ->
  13 + len encryptedPubKey + len encryptedPrivKey < 2 ^ 32 ->
  putAccountInfo KeyScope b scope account encryptedPubKey encryptedPrivKey
    = Return (None, b') ->
  fetchAccountUsage b' = Return (account, None) /\
  exists key,
    fetchAccountInfo b' account = Return (Some key, None) /\
    acctType (row_ key) = accountMASS /\
    pubKeyEncrypted key = Slice (elems encryptedPubKey) [] /\
    privKeyEncrypted key = Slice (elems encryptedPrivKey) [].
Proof.
  intros Hacc Hfit Hput.
  pose proof (len_nonneg encryptedPubKey) as Hp.
  pose proof (len_nonneg encryptedPrivKey) as Hq.
  set (P := elems encryptedPubKey). set (Q := elems encryptedPrivKey).
  assert (HP : len encryptedPubKey = Z.of_nat (length P)) by reflexivity.
  assert (HQ : len encryptedPrivKey = Z.of_nat (length Q)) by reflexivity.
  remember (LittleEndian.bytes_of_uint32 (Z.of_nat (length P)) ++ P
            ++ LittleEndian.bytes_of_uint32 (Z.of_nat (length Q)) ++ Q ++ [])
    as raw eqn:Eraw.
  assert (Hraw : Z.of_nat (length raw) = 8 + len encryptedPubKey + len encryptedPrivKey).
  { subst raw. rewrite !length_app, !length_bytes_of_uint32. simpl length. lia. }
  assert (Hser : serializeHDAccountKey encryptedPubKey encryptedPrivKey
                 = Return (Slice raw [])).
  { rewrite CodecTheory.serializeHDAccountKey_layout by lia.
    subst raw. fold P Q. now rewrite HP, HQ, app_nil_r. }
  assert (Hrow : serializeAccountRow {| acctType := accountMASS; rawData := Slice raw [] |}
                 = Return (Slice (accountMASS
                                  :: LittleEndian.bytes_of_uint32 (Z.of_nat (length raw))
                                  ++ raw ++ []) [])).
  { rewrite CodecTheory.serializeAccountRow_layout. cbn [acctType rawData elems].
    unfold len. cbn [elems]. rewrite uint32_small by lia. now rewrite app_nil_r. }
  unfold putAccountInfo in Hput. rewrite Hser in Hput. cbn [bind] in Hput.
  unfold putAccountUsage in Hput. rewrite uint32ToBytes_returns in Hput.
  cbn [bind] in Hput.
  destruct (Put b accountUsageName _) as [[e|] b1] eqn:H1; [discriminate|].
  cbn [bind] in Hput. unfold putAccountRow in Hput.
  rewrite Hrow in Hput. cbn [bind] in Hput.
  rewrite uint32ToBytes_returns in Hput. cbn [bind] in Hput.
  destruct (Put b1 _ _) as [[e|] b2] eqn:H2; [discriminate|].
  cbn [bind] in Hput. injection Hput as <-.
  destruct (ChildNumTheory.Put_uint32_read _ _ _ account Hacc H1)
    as (val & G1 & Hnil & Hu).
  destruct (Get_Put_same _ _ _ _ H2) as (sp & G2).
  { unfold len. cbn [elems length]. lia. }
  split.
  - unfold fetchAccountUsage.
    rewrite (Get_Put_other _ _ _ _ accountUsageName H2) by discriminate.
    now rewrite G1, Hnil, Hu.
  - unfold fetchAccountInfo. rewrite uint32ToBytes_returns. cbn [bind].
    rewrite G2. cbn [is_nil elems].
    rewrite RowTheory.deserializeAccountRow_layout by lia. cbn [bind acctType].
    rewrite bool_decide_eq_true_2 by reflexivity.
    pose proof (RowTheory.deserializeHDAccountKey_layout
                  (Slice (LittleEndian.bytes_of_uint32 account) []) accountMASS P Q [] [])
      as Hhd.
    cbv zeta in Hhd. rewrite <- Eraw in Hhd. rewrite Hhd by lia.
    eexists. split; [reflexivity|]. repeat split.
Qed.

End Lawful.

Lemma masterKeyParams_roundtrip_witness :
  exists b',
    putMasterKeyParams (∅ : gmap (list byte) (list byte))
      (Slice [Byte.xaa] []) (Slice [Byte.xbb] []) = (None, b') /\
    fetchMasterKeyParams b' = (Slice [Byte.xaa] [], Slice [Byte.xbb] [], None).
Proof.
  eexists. split; [reflexivity|].
  apply (proj1 (masterKeyParams_roundtrip (H0 := ChildNumTheory.store_Lawful)
                  (∅ : gmap (list byte) (list byte)) _
                  (Slice [Byte.xaa] []) (Slice [Byte.xbb] []) eq_refl eq_refl)).
  reflexivity.
Defined.

Lemma cryptoKeys_roundtrip_witness :
  exists b',
    putCryptoKeys (∅ : gmap (list byte) (list byte))
      (Slice [Byte.xaa] []) (Slice [Byte.xbb] []) (Slice [Byte.xcc] []) = (None, b') /\
    fetchCryptoKeys b' =
      (Slice [Byte.xaa] [], Slice [Byte.xbb] [], Slice [Byte.xcc] [], None).
Proof.
  eexists. split; [reflexivity|].
  apply (cryptoKeys_roundtrip (H0 := ChildNumTheory.store_Lawful)
           (∅ : gmap (list byte) (list byte)) _
           (Slice [Byte.xaa] []) (Slice [Byte.xbb] []) (Slice [Byte.xcc] []) eq_refl);
    reflexivity.
Defined.

Lemma version_roundtrip_witness :
  exists b',
    putVersion (∅ : gmap (list byte) (list byte)) Byte.x02 = (None, b') /\
    fetchVersion b' = Return (Byte.x02, None).
Proof.
  eexists. split; [reflexivity|].
  exact (version_roundtrip (H0 := ChildNumTheory.store_Lawful)
           (∅ : gmap (list byte) (list byte)) _ Byte.x02 eq_refl).
Defined.

Lemma entropy_and_remark_roundtrip_witness :
  0 < len (Slice [Byte.xaa] []) /\
  (exists b' spare,
     putEntropy (∅ : gmap (list byte) (list byte)) (Slice [Byte.xaa] []) = (None, b') /\
     fetchEntropy b' = (Slice [Byte.xaa] spare, None)) /\
  (exists b' spare,
     putRemark (∅ : gmap (list byte) (list byte)) (Slice [Byte.xaa] []) = (None, b') /\
     fetchRemark b' = (Slice [Byte.xaa] spare, None)).
Proof.
  assert (Hlen : 0 < len (Slice [Byte.xaa] [])) by reflexivity.
  split; [exact Hlen|]. split.
  - destruct (proj1 (entropy_and_remark_roundtrip (H0 := ChildNumTheory.store_Lawful)
                       (∅ : gmap (list byte) (list byte)) _ (Slice [Byte.xaa] []) Hlen)
                eq_refl) as (spare & _ & Hf).
    eexists. exists spare. split; [reflexivity | exact Hf].
  - destruct (proj2 (entropy_and_remark_roundtrip (H0 := ChildNumTheory.store_Lawful)
                       (∅ : gmap (list byte) (list byte)) _ (Slice [Byte.xaa] []) Hlen)
                eq_refl) as (spare & _ & Hf).
    eexists. exists spare. split; [reflexivity | exact Hf].
Defined.

Lemma counters_roundtrip_witness :
  0 <= 7 < 2 ^ 32 /\
  (exists b',
     putAccountUsage (∅ : gmap (list byte) (list byte)) 7 = Return (None, b') /\
     fetchAccountUsage b' = Return (7, None)) /\
  (exists b',
     putCoinType (∅ : gmap (list byte) (list byte)) 7 = Return (None, b') /\
     fetchCoinType b' = Return (7, None)).
Proof.
  assert (H7 : 0 <= 7 < 2 ^ 32) by lia.
  split; [exact H7|]. split.
  - eexists. split; [reflexivity|].
    exact (proj1 (counters_roundtrip (H0 := ChildNumTheory.store_Lawful)
                    (∅ : gmap (list byte) (list byte)) _ 7 H7) eq_refl).
  - eexists. split; [reflexivity|].
    exact (proj2 (counters_roundtrip (H0 := ChildNumTheory.store_Lawful)
                    (∅ : gmap (list byte) (list byte)) _ 7 H7) eq_refl).
Defined.

Lemma branchPubKeys_roundtrip_witness :
  exists b' si se,
    putBranchPubKeys (∅ : gmap (list byte) (list byte))
      (Slice [Byte.x11] []) (Slice [Byte.xee] []) = (None, b') /\
    fetchBranchPubKeys b' = (Slice [Byte.x11] si, Slice [Byte.xee] se, None).
Proof.
  destruct (branchPubKeys_roundtrip (H0 := ChildNumTheory.store_Lawful)
              (∅ : gmap (list byte) (list byte)) _
              (Slice [Byte.x11] []) (Slice [Byte.xee] []) eq_refl eq_refl eq_refl)
    as (si & se & Hf).
  eexists. exists si, se. split; [reflexivity | exact Hf].
Defined.

Lemma accountInfo_roundtrip_witness :
  0 <= 3 < 2 ^ 32 /\
  13 + len (Slice [Byte.x01; Byte.x02] []) + len Nil < 2 ^ 32 /\
  exists b' key,
    putAccountInfo unit (∅ : gmap (list byte) (list byte)) None 3
      (Slice [Byte.x01; Byte.x02] []) Nil = Return (None, b') /\
    fetchAccountUsage b' = Return (3, None) /\
    fetchAccountInfo b' 3 = Return (Some key, None) /\
    acctType (row_ key) = accountMASS /\
    pubKeyEncrypted key = Slice [Byte.x01; Byte.x02] [] /\
    privKeyEncrypted key = Slice [] [].
Proof.
  assert (H3 : 0 <= 3 < 2 ^ 32) by lia.
  assert (Hfit : 13 + len (Slice [Byte.x01; Byte.x02] []) + len Nil < 2 ^ 32)
    by reflexivity.
  split; [exact H3|]. split; [exact Hfit|].
  destruct (accountInfo_roundtrip (H0 := ChildNumTheory.store_Lawful) unit
              (∅ : gmap (list byte) (list byte)) _ None 3
              (Slice [Byte.x01; Byte.x02] []) Nil H3 Hfit eq_refl)
    as (Hu & key & Hk).
  eexists. exists key. split; [reflexivity|]. split; [exact Hu | exact Hk].
Defined.

End RoundTripTheory.

(** ** Reading the 32-bit records *)

Module ReaderTheory.
Import db keystore.

Section AnyBucket.
Context {B : Type} `{!Bucket B}.

(** X21.  [getChildNum] and [fetchChildNum] read the same two records: when
    [fetchChildNum] returns the pair (internal, external) without error,
    [getChildNum(true)] returns that internal number and [getChildNum(false)]
    that external number, both without error. *)
Theorem getChildNum_agrees_with_fetchChildNum (b : B) (i e : Z) :
  fetchChildNum b = Return (i, e, None) ->
  getChildNum b true = Return (i, None) /\ getChildNum b false = Return (e, None).
Proof.
  unfold fetchChildNum, getChildNum.
  destruct (Get b externalChildNumName) as [ex [e1|]]; [discriminate|].
  destruct (is_nil ex); [discriminate|].
  destruct (Get b internalChildNumName) as [inn [e2|]]; [discriminate|].
  destruct (is_nil inn); [discriminate|].
  destruct (LittleEndian.Uint32 inn) as [i'|]; [|discriminate]. cbn [bind].
  destruct (LittleEndian.Uint32 ex) as [e'|]; [|discriminate]. cbn [bind].
  intros H. injection H as <- <-. split; reflexivity.
Qed.

(** X22.  The functions that decode a stored 32-bit number check that the
    record is present, not that it has four bytes.  [getChildNum] does not
    even check the former: it panics when [Get] returns, without error, nil
    or fewer than four bytes.  [fetchAccountUsage], [fetchCoinType] and
    [fetchChildNum] panic when a record they read is non-nil and shorter
    than four bytes. *)
Theorem uint32_records_panic_when_short (b : B) :
  (forall (internal : bool) (val : goslice),
     Get b (if internal then internalChildNumName else externalChildNumName)
       = (val, None) ->
     len val < 4 -> getChildNum b internal = Panic) /\
  (forall (val : goslice) (err : option error),
     Get b accountUsageName = (val, err) -> is_nil val = false -> len val < 4 ->
     fetchAccountUsage b = Panic) /\
  (forall val : goslice,
     Get b coinTypeName = (val, None) -> is_nil val = false -> len val < 4 ->
     fetchCoinType b = Panic) /\
  (forall ex inn : goslice,
     Get b externalChildNumName = (ex, None) -> is_nil ex = false ->
     Get b internalChildNumName = (inn, None) -> is_nil inn = false ->
     len ex < 4 \/ len inn < 4 ->
     fetchChildNum b = Panic).
Proof.
  split; [|split; [|split]].
  - intros internal val Hget Hlen. unfold getChildNum. rewrite Hget.
    now rewrite Uint32_short.
  - intros val err Hget Hnil Hlen. unfold fetchAccountUsage. rewrite Hget, Hnil.
    now rewrite Uint32_short.
  - intros val Hget Hnil Hlen. unfold fetchCoinType. rewrite Hget, Hnil.
    now rewrite Uint32_short.
  - intros ex inn Hex Hnex Hin Hnin Hlen. unfold fetchChildNum.
    rewrite Hex, Hnex, Hin, Hnin.
    destruct (Z.lt_ge_cases (len inn) 4) as [Hi|Hi].
    + now rewrite Uint32_short.
    + rewrite (Uint32_le32 inn) by lia. cbn [bind].
      rewrite Uint32_short; [reflexivity|]. lia.
Qed.

End AnyBucket.

Lemma getChildNum_agrees_with_fetchChildNum_witness :
  fetchChildNum sample.internal_five = Return (5, 0, None) /\
  getChildNum sample.internal_five true = Return (5, None) /\
  getChildNum sample.internal_five false = Return (0, None).
Proof.
  assert (H : fetchChildNum sample.internal_five = Return (5, 0, None)) by reflexivity.
  split; [exact H|].
  exact (getChildNum_agrees_with_fetchChildNum sample.internal_five 5 0 H).
Defined.

Lemma uint32_records_panic_when_short_witness :
  getChildNum (mem.healthy ∅) true = Panic /\
  getChildNum sample.short_counter_bucket false = Panic /\
  fetchAccountUsage sample.short_counter_bucket = Panic /\
  fetchCoinType sample.short_counter_bucket = Panic /\
  fetchChildNum sample.short_counter_bucket = Panic.
Proof.
  destruct (uint32_records_panic_when_short (mem.healthy ∅)) as (H0 & _).
  destruct (uint32_records_panic_when_short sample.short_counter_bucket)
    as (H1 & H2 & H3 & H4).
  split; [apply (H0 true Nil); reflexivity|].
  split; [apply (H1 false (Slice [Byte.x01] [])); reflexivity|].
  split; [apply (H2 (Slice [Byte.x01] []) None); reflexivity|].
  split; [apply (H3 (Slice [Byte.x01] [])); reflexivity|].
  apply (H4 (Slice [Byte.x01] []) (Slice sample.key0 [])); try reflexivity.
  left. reflexivity.
Defined.

End ReaderTheory.

(** ** Failing writes and missing records *)

Module FailureTheory.
Import db keystore.

Ltac log_absurd H :=
  lazymatch type of H with
  | Forall _ (_ :: _) =>
      let Hx := fresh "Hx" in
      let Ht := fresh "Ht" in
      apply Forall_cons in H as [Hx Ht];
      first [discriminate Hx | log_absurd Ht]
  end.

Ltac reports :=
  unfold mem.returns_reporting_puts, mem.reports_puts;
  cbn [fst snd mem.inner mem.puts bind app];
  split; [reflexivity|]; split; [reflexivity|];
  split;
  [ intros Hn; first [discriminate Hn | repeat constructor]
  | intros HF; first [reflexivity | exfalso; log_absurd HF] ].

Ltac norm_puts :=
  repeat progress cbn [Put mem.recorded_Bucket mem.inner mem.puts app bind].

Section AnyBucket.
Context {B : Type} `{!Bucket B}.
Variable KeyScope : Type.

(** In a bucket whose [Put] always fails, each function that writes a
    record returns a non-nil error, and none panics.  [putMasterKeyParams]
    and [putCryptoKeys] do so as soon as one of their arguments is non-nil
    (they write nothing, and return nil, when all are nil), [putAccountInfo]
    for blobs with [8 + len(pub) + len(priv) < 2^32]. *)
Lemma put_functions_fail_when_Put_fails :
  (forall (b : B) (k v : goslice), (Put b k v).1 <> None) ->
  forall (b : B) (version : byte) (value other third : goslice) (n m : Z)
         (internal : bool) (scope : option KeyScope) (row : dbAccountRow),
    (putVersion b version).1 <> None /\
    (putEntropy b value).1 <> None /\
    (putRemark b value).1 <> None /\
    (putAccountID b value).1 <> None /\
    (putBranchPubKeys b value other).1 <> None /\
    (is_nil value = false \/ is_nil other = false ->
     (putMasterKeyParams b value other).1 <> None) /\
    (is_nil value = false \/ is_nil other = false \/ is_nil third = false ->
     (putCryptoKeys b value other third).1 <> None) /\
    (exists e b', putAccountUsage b n = Return (Some e, b')) /\
    (exists e b', putAccountRow KeyScope b scope n row = Return (Some e, b')) /\
    (exists e b', putCoinType b n = Return (Some e, b')) /\
    (exists e b', initBranchChildNum b = Return (Some e, b')) /\
    (exists e b', updateChildNum b internal n = Return (Some e, b')) /\
    (exists e b', putEncryptedPubKey b n m value = Return (Some e, b')) /\
    (8 + len value + len other < 2 ^ 32 ->
     exists e b', putAccountInfo KeyScope b scope n value other = Return (Some e, b')).
Proof.
  intros Hfail b version value other third n m internal scope row.
  assert (Hput : forall b k v, exists e b', Put b k v = (Some e, b')).
  { intros b0 k v. specialize (Hfail b0 k v).
    destruct (Put b0 k v) as [[e|] b']; [now exists e, b' | contradiction]. }
  assert (Husage : forall b0, exists e b', putAccountUsage b0 n = Return (Some e, b')).
  { intros b0. unfold putAccountUsage. rewrite uint32ToBytes_returns. cbn [bind].
    destruct (Hput b0 accountUsageName (Slice (LittleEndian.bytes_of_uint32 n) []))
      as (e & b' & ->). now eexists; eexists. }
  assert (Hpresent : forall b0 name v what, is_nil v = false ->
            (put_if_present b0 name v what).1 <> None).
  { intros b0 name v what Hv. unfold put_if_present. rewrite Hv.
    destruct (Hput b0 name v) as (e & b' & ->). discriminate. }
  repeat apply conj.
  - unfold putVersion. destruct (Hput b keystoreVersionName (Slice [version] []))
      as (e & b' & ->). discriminate.
  - unfold putEntropy. destruct (Hput b entropyEncKeyName value) as (e & b' & ->).
    discriminate.
  - apply Hfail.
  - apply Hfail.
  - unfold putBranchPubKeys.
    destruct (Hput b externalBranchPubKeyName other) as (e & b' & ->). discriminate.
  - intros Hnil. unfold putMasterKeyParams.
    destruct (is_nil other) eqn:Ho.
    + destruct Hnil as [Hv|Hv]; [|discriminate]. rewrite Hv.
      destruct (Hput b masterPubKeyName value) as (e & b' & ->). discriminate.
    + destruct (Hput b masterPrivKeyName other) as (e & b' & ->). discriminate.
  - intros Hnil. unfold putCryptoKeys.
    destruct (put_if_present b cryptoPubKeyName value _) as [[e|] b1] eqn:H1;
      [discriminate|].
    destruct (put_if_present b1 cryptoPrivKeyName other _) as [[e|] b2] eqn:H2;
      [discriminate|].
    destruct (is_nil value) eqn:Hv.
    2:{ exfalso. apply (Hpresent b cryptoPubKeyName value
                          "failed to store encrypted crypto public key: " Hv).
        now rewrite H1. }
    destruct (is_nil other) eqn:Ho.
    2:{ exfalso. apply (Hpresent b1 cryptoPrivKeyName other
                          "failed to store encrypted crypto private key: " Ho).
        now rewrite H2. }
    destruct Hnil as [Hn|[Hn|Hn]]; [discriminate | discriminate |].
    now apply Hpresent.
  - apply Husage.
  - unfold putAccountRow. rewrite CodecTheory.serializeAccountRow_layout. cbn [bind].
    rewrite uint32ToBytes_returns. cbn [bind].
    destruct (Hput b (Slice (LittleEndian.bytes_of_uint32 n) [])
                (Slice (acctType row
                        :: LittleEndian.bytes_of_uint32 (uint32 (len (rawData row)))
                        ++ elems (rawData row)) [])) as (e & b' & ->).
    now eexists; eexists.
  - unfold putCoinType. rewrite uint32ToBytes_returns. cbn [bind].
    destruct (Hput b coinTypeName (Slice (LittleEndian.bytes_of_uint32 n) []))
      as (e & b' & ->). now eexists; eexists.
  - unfold initBranchChildNum. rewrite uint32ToBytes_returns. cbn [bind].
    destruct (Hput b externalChildNumName (Slice (LittleEndian.bytes_of_uint32 0) []))
      as (e & b' & ->). now eexists; eexists.
  - unfold updateChildNum. rewrite uint32ToBytes_returns. cbn [bind].
    destruct (Hput b (if internal then internalChildNumName else externalChildNumName)
                (Slice (LittleEndian.bytes_of_uint32 n) [])) as (e & b' & ->).
    now eexists; eexists.
  - destruct (Hput b (Slice (LittleEndian.bytes_of_uint32 n
                             ++ LittleEndian.bytes_of_uint32 m) []) value)
      as (e & b' & He).
    exists e, b'. rewrite <- He. reflexivity.
  - intros Hfit. unfold putAccountInfo.
    rewrite CodecTheory.serializeHDAccountKey_layout by exact Hfit. cbn [bind].
    destruct (Husage b) as (e & b' & ->). cbn [bind]. now eexists; eexists.
Qed.

(** X23.  No function that writes a record suppresses the failure of a
    [Put], the first or a later one.  Run on any bucket, with the errors
    that its calls of [Put] return logged in order, each of [putVersion],
    [putEntropy], [putRemark], [putAccountID], [putBranchPubKeys],
    [putMasterKeyParams], [putCryptoKeys], [putAccountUsage],
    [putAccountRow], [putCoinType], [initBranchChildNum], [updateChildNum],
    [putEncryptedPubKey] and [putAccountInfo] (for blobs with
    [8 + len(pub) + len(priv) < 2^32]) returns the same error and
    leaves the same bucket as on the bucket itself, does not panic, and
    returns nil exactly when every [Put] it made returned nil. *)
Theorem put_functions_report_Put_failures (b : B) (version : byte)
  (value other third : goslice) (n m : Z) (internal : bool)
  (scope : option KeyScope) (row : dbAccountRow) :
  let r := {| mem.inner := b; mem.puts := [] |} in
  mem.reports_puts (putVersion r version) (putVersion b version) /\
  mem.reports_puts (putEntropy r value) (putEntropy b value) /\
  mem.reports_puts (putRemark r value) (putRemark b value) /\
  mem.reports_puts (putAccountID r value) (putAccountID b value) /\
  mem.reports_puts (putBranchPubKeys r value other) (putBranchPubKeys b value other) /\
  mem.reports_puts (putMasterKeyParams r value other) (putMasterKeyParams b value other) /\
  mem.reports_puts (putCryptoKeys r value other third) (putCryptoKeys b value other third) /\
  mem.returns_reporting_puts (putAccountUsage r n) (putAccountUsage b n) /\
  mem.returns_reporting_puts (putAccountRow KeyScope r scope n row)
                             (putAccountRow KeyScope b scope n row) /\
  mem.returns_reporting_puts (putCoinType r n) (putCoinType b n) /\
  mem.returns_reporting_puts (initBranchChildNum r) (initBranchChildNum b) /\
  mem.returns_reporting_puts (updateChildNum r internal n) (updateChildNum b internal n) /\
  mem.returns_reporting_puts (putEncryptedPubKey r n m value)
                             (putEncryptedPubKey b n m value) /\
  (8 + len value + len other < 2 ^ 32 ->
   mem.returns_reporting_puts (putAccountInfo KeyScope r scope n value other)
                              (putAccountInfo KeyScope b scope n value other)).
Proof.
  intros r. subst r.
  repeat match goal with |- _ /\ _ => split end.
  - unfold putVersion.
    norm_puts. destruct (Put b keystoreVersionName _) as [[e|] b1]; reports.
  - unfold putEntropy.
    norm_puts. destruct (Put b entropyEncKeyName value) as [[e|] b1]; reports.
  - unfold putRemark.
    norm_puts. destruct (Put b remarkName value) as [[e|] b1]; reports.
  - unfold putAccountID.
    norm_puts. destruct (Put b value _) as [[e|] b1]; reports.
  - unfold putBranchPubKeys.
    norm_puts. destruct (Put b externalBranchPubKeyName other) as [[e1|] b1]; [reports|].
    norm_puts. destruct (Put b1 internalBranchPubKeyName value) as [[e2|] b2]; reports.
  - unfold putMasterKeyParams.
    destruct (is_nil other).
    + destruct (is_nil value); [reports|].
      norm_puts. destruct (Put b masterPubKeyName value) as [[e2|] b2]; reports.
    + norm_puts. destruct (Put b masterPrivKeyName other) as [[e1|] b1]; [reports|].
      destruct (is_nil value); [reports|].
      norm_puts. destruct (Put b1 masterPubKeyName value) as [[e2|] b2]; reports.
  - unfold putCryptoKeys, put_if_present.
    destruct (is_nil value).
    + destruct (is_nil other).
      * destruct (is_nil third); [reports|].
        norm_puts. destruct (Put b cryptoEntropyKeyName third) as [[e3|] b3]; reports.
      * norm_puts. destruct (Put b cryptoPrivKeyName other) as [[e2|] b2]; [reports|].
        destruct (is_nil third); [reports|].
        norm_puts. destruct (Put b2 cryptoEntropyKeyName third) as [[e3|] b3]; reports.
    + norm_puts. destruct (Put b cryptoPubKeyName value) as [[e1|] b1]; [reports|].
      destruct (is_nil other).
      * destruct (is_nil third); [reports|].
        norm_puts. destruct (Put b1 cryptoEntropyKeyName third) as [[e3|] b3]; reports.
      * norm_puts. destruct (Put b1 cryptoPrivKeyName other) as [[e2|] b2]; [reports|].
        destruct (is_nil third); [reports|].
        norm_puts. destruct (Put b2 cryptoEntropyKeyName third) as [[e3|] b3]; reports.
  - unfold putAccountUsage. rewrite (uint32ToBytes_returns n).
    norm_puts. destruct (Put b accountUsageName _) as [[e|] b1]; reports.
  - unfold putAccountRow. rewrite CodecTheory.serializeAccountRow_layout.
    rewrite (uint32ToBytes_returns n).
    norm_puts. destruct (Put b _ _) as [[e|] b1]; reports.
  - unfold putCoinType. rewrite (uint32ToBytes_returns n).
    norm_puts. destruct (Put b coinTypeName _) as [[e|] b1]; reports.
  - unfold initBranchChildNum. rewrite (uint32ToBytes_returns 0).
    norm_puts. destruct (Put b externalChildNumName _) as [[e1|] b1]; [reports|].
    norm_puts. destruct (Put b1 internalChildNumName _) as [[e2|] b2]; reports.
  - unfold updateChildNum. rewrite (uint32ToBytes_returns n).
    norm_puts. destruct (Put b _ _) as [[e|] b1]; reports.
  - change (putEncryptedPubKey {| mem.inner := b; mem.puts := [] |} n m value)
      with (Return (Put {| mem.inner := b; mem.puts := [] |}
                      (Slice (LittleEndian.bytes_of_uint32 n
                              ++ LittleEndian.bytes_of_uint32 m) []) value)).
    change (putEncryptedPubKey b n m value)
      with (Return (Put b (Slice (LittleEndian.bytes_of_uint32 n
                                  ++ LittleEndian.bytes_of_uint32 m) []) value)).
   
    norm_puts. destruct (Put b _ value) as [[e|] b1]; reports.
  - intros Hfit. unfold putAccountInfo.
    rewrite CodecTheory.serializeHDAccountKey_layout by exact Hfit. cbn [bind].
    unfold putAccountUsage. rewrite (uint32ToBytes_returns n).
    norm_puts. destruct (Put b accountUsageName _) as [[e1|] b1]; [reports|].
    cbn [bind]. unfold putAccountRow.
    rewrite CodecTheory.serializeAccountRow_layout.
    rewrite (uint32ToBytes_returns n).
    norm_puts. destruct (Put b1 _ _) as [[e2|] b2]; reports.
Qed.


(** X24.  In a bucket where [Get] finds nothing (it returns nil and no error
    for every key), each fetch of a required record returns the error that
    names the record: the master public key parameters, the crypto public
    key, the account usage, the coin type, the account, the external branch
    public key, the external child number.  [fetchEntropy] and [fetchRemark]
    return nil and [fetchVersion] returns 0, all three without error, and
    [getChildNum] panics. *)
Theorem fetch_from_empty_bucket (b : B) (account : Z) :
  (forall k : goslice, Get b k = (Nil, None)) ->
  fetchMasterKeyParams b =
    (Nil, Nil,
     Some (ErrorsNew "required master public key parameters not stored in database")) /\
  fetchCryptoKeys b =
    (Nil, Nil, Nil,
     Some (ErrorsNew "required encrypted crypto public not stored in database")) /\
  fetchAccountUsage b =
    Return (0, Some (ErrorsNew "required account usage not stored in database")) /\
  fetchCoinType b =
    Return (0, Some (ErrorsNew "required coin type not stored in database")) /\
  fetchAccountInfo b account =
    Return (None, Some (ErrorsNew ("account " +:+ fmt_d account +:+ " not found"))) /\
  fetchBranchPubKeys b =
    (Nil, Nil,
     Some (ErrorsNew
       "required encrypted external branch public key not stored in database")) /\
  fetchChildNum b =
    Return (0, 0,
            Some (ErrorsNew
              "required encrypted external branch child number not stored in database")) /\
  fetchEntropy b = (Nil, None) /\
  fetchRemark b = (Nil, None) /\
  fetchVersion b = Return (Byte.x00, None) /\
  getChildNum b true = Panic /\
  getChildNum b false = Panic.
Proof.
  intros Hget.
  unfold fetchMasterKeyParams, fetchCryptoKeys, fetchAccountUsage, fetchCoinType,
    fetchAccountInfo, fetchBranchPubKeys, fetchChildNum, fetchEntropy, fetchRemark,
    fetchVersion, getChildNum.
  rewrite uint32ToBytes_returns. cbn [bind].
  rewrite !Hget. repeat split.
Qed.

End AnyBucket.

Lemma put_functions_report_Put_failures_witness :
  mem.reports_puts
    (putBranchPubKeys sample.logged_unwritable
       (Slice [Byte.x01] []) (Slice [Byte.x02] []))
    (putBranchPubKeys sample.internal_branch_key_unwritable
       (Slice [Byte.x01] []) (Slice [Byte.x02] [])) /\
  mem.puts (putBranchPubKeys sample.logged_unwritable
              (Slice [Byte.x01] []) (Slice [Byte.x02] [])).2
    = [None; Some sample.io_error] /\
  (putBranchPubKeys sample.internal_branch_key_unwritable
     (Slice [Byte.x01] []) (Slice [Byte.x02] [])).1
    = Some (Errorf_v "failed to store branchKeys: " sample.io_error) /\
  8 + len (Slice [Byte.x01] []) + len (Slice [Byte.x02] []) < 2 ^ 32 /\
  mem.returns_reporting_puts
    (putAccountInfo unit sample.logged_unwritable
       None 3 (Slice [Byte.x01] []) (Slice [Byte.x02] []))
    (putAccountInfo unit sample.internal_branch_key_unwritable
       None 3 (Slice [Byte.x01] []) (Slice [Byte.x02] [])).
Proof.
  assert (Hfit : 8 + len (Slice [Byte.x01] []) + len (Slice [Byte.x02] []) < 2 ^ 32)
    by reflexivity.
  destruct (put_functions_report_Put_failures unit sample.internal_branch_key_unwritable
              Byte.x01 (Slice [Byte.x01] []) (Slice [Byte.x02] []) Nil 3 0 true None
              {| acctType := accountMASS; rawData := Nil |})
    as (_ & _ & _ & _ & H5 & _ & _ & _ & _ & _ & _ & _ & _ & H14).
  split; [exact H5|]. split; [vm_compute; reflexivity|].
  split; [vm_compute; reflexivity|]. split; [exact Hfit|]. exact (H14 Hfit).
Defined.

Lemma fetch_from_empty_bucket_witness :
  (forall k : goslice, Get (mem.healthy ∅) k = (Nil, None)) /\
  fetchCoinType (mem.healthy ∅) =
    Return (0, Some (ErrorsNew "required coin type not stored in database")) /\
  fetchAccountInfo (mem.healthy ∅) 7 =
    Return (None, Some (ErrorsNew "account 7 not found")) /\
  fetchEntropy (mem.healthy ∅) = (Nil, None) /\
  getChildNum (mem.healthy ∅) true = Panic.
Proof.
  assert (G : forall k : goslice, Get (mem.healthy ∅) k = (Nil, None)).
  { intros k. reflexivity. }
  destruct (fetch_from_empty_bucket (mem.healthy ∅) 7 G)
    as (_ & _ & _ & H4 & H5 & _ & _ & H8 & _ & _ & H11 & _).
  split; [exact G|]. split; [exact H4|]. split; [exact H5|].
  split; [exact H8 | exact H11].
Defined.

End FailureTheory.

(** ** Account identifiers in the finite-map bucket *)

Module StoreTheory.
Import db keystore.

Lemma store_listing (m : gmap (list byte) (list byte)) (k : list byte) :
  Slice k [] ∈ (fetchAccountID m).1 <-> is_Some (m !! k).
Proof.
  unfold fetchAccountID. cbn [GetByPrefix mem.store_Bucket].
  unfold mem.store_GetByPrefix. cbn [fst].
  rewrite map_map. cbn [Key].
  rewrite list_elem_of_fmap. split.
  - intros ([k' v] & Hk & Hin). cbn [fst] in Hk. injection Hk as ->.
    rewrite merge_sort_Permutation in Hin.
    apply list_elem_of_filter in Hin as [_ Hin].
    apply elem_of_map_to_list in Hin. now exists v.
  - intros [v Hv]. exists (k, v). split; [reflexivity|].
    rewrite merge_sort_Permutation. apply list_elem_of_filter. split.
    + cbn [elems fst]. apply prefix_nil.
    + now apply elem_of_map_to_list.
Qed.

(** X25.  In the finite-map bucket, [fetchAccountID] returns without error
    and lists exactly the keys of the bucket.  After [putAccountID] the
    identifier put is listed, after [deleteAccountID] the identifier deleted
    is not, and in both cases every other key is listed exactly when it was
    before. *)
Theorem accountID_listing (m : gmap (list byte) (list byte)) (acctID : goslice) :
  (forall k, Slice k [] ∈ (fetchAccountID m).1 <-> is_Some (m !! k)) /\
  (fetchAccountID m).2 = None /\
  (let m1 := (putAccountID m acctID).2 in
   (Slice (elems acctID) [] ∈ (fetchAccountID m1).1) /\
   forall k, k <> elems acctID ->
     (Slice k [] ∈ (fetchAccountID m1).1 <-> Slice k [] ∈ (fetchAccountID m).1)) /\
  (let m2 := (deleteAccountID m acctID).2 in
   (Slice (elems acctID) [] ∉ (fetchAccountID m2).1) /\
   forall k, k <> elems acctID ->
     (Slice k [] ∈ (fetchAccountID m2).1 <-> Slice k [] ∈ (fetchAccountID m).1)).
Proof.
  split; [apply store_listing|]. split; [reflexivity|]. split.
  - cbv zeta. unfold putAccountID. cbn [Put mem.store_Bucket mem.store_Put snd elems].
    split.
    + apply store_listing. rewrite lookup_insert_eq. now eexists.
    + intros k Hk. rewrite !store_listing, lookup_insert_ne by congruence. reflexivity.
  - cbv zeta. unfold deleteAccountID. cbn [Delete mem.store_Bucket mem.store_Delete snd].
    split.
    + rewrite store_listing, lookup_delete_eq. intros [v Hv]. discriminate.
    + intros k Hk. rewrite !store_listing, lookup_delete_ne by congruence. reflexivity.
Qed.

Lemma accountID_listing_witness :
  [Byte.x02] <> elems (Slice [Byte.x01] []) /\
  (Slice [Byte.x01] [] ∈
     (fetchAccountID (putAccountID (∅ : gmap (list byte) (list byte))
                        (Slice [Byte.x01] [])).2).1) /\
  (Slice [Byte.x02] [] ∈
     (fetchAccountID (putAccountID (∅ : gmap (list byte) (list byte))
                        (Slice [Byte.x01] [])).2).1 <->
   Slice [Byte.x02] [] ∈ (fetchAccountID (∅ : gmap (list byte) (list byte))).1).
Proof.
  assert (Hne : [Byte.x02] <> elems (Slice [Byte.x01] [])) by discriminate.
  destruct (accountID_listing (∅ : gmap (list byte) (list byte)) (Slice [Byte.x01] []))
    as (_ & _ & (Hin & Hother) & _).
  split; [exact Hne|]. split; [exact Hin | exact (Hother [Byte.x02] Hne)].
Defined.

End StoreTheory.
